(** * PRD-to-ticket agent: schema coercion, id repair, retry protocol, exports

    A shallow embedding of the non-UI modules of the repository
    ([lib/schema.ts], [lib/linear.ts], [lib/markdown.ts], the plan route and
    the ticket card of [app/page.tsx]) together with the properties the
    specification states about them. *)

From Stdlib Require Import ZArith NArith QArith List Ascii String Lia Bool.
From Stdlib Require Import DecimalNat DecimalN.
From stdpp Require Import base option list gmap.

Local Open Scope N_scope.

(** ** JavaScript strings

    A JavaScript string is a sequence of UTF-16 code units.  [String.length],
    [trim], the regular expressions without the [u] flag and
    [encodeURIComponent] all work on code units, so this is the
    representation used throughout. *)

Abbreviation jsstring := (list N).

(** An ASCII literal of the source as a sequence of code units. *)
Definition lit (s : string) : jsstring :=
  map N_of_ascii (list_ascii_of_string s).

(** [WhiteSpace] and [LineTerminator] of ECMAScript: the characters removed
    by [String.prototype.trim] and matched by [\s]. *)
Definition isSpace (c : N) : bool :=
  ((9 <=? c) && (c <=? 13))
  || (c =? 0x20) || (c =? 0xA0) || (c =? 0x1680)
  || ((0x2000 <=? c) && (c <=? 0x200A))
  || (c =? 0x2028) || (c =? 0x2029) || (c =? 0x202F)
  || (c =? 0x205F) || (c =? 0x3000) || (c =? 0xFEFF).

Fixpoint trimStart (s : jsstring) : jsstring :=
  match s with
  | c :: r => if isSpace c then trimStart r else s
  | [] => []
  end.

Fixpoint trimEnd (s : jsstring) : jsstring :=
  match s with
  | [] => []
  | c :: r =>
      match trimEnd r with
      | [] => if isSpace c then [] else [c]
      | r' => c :: r'
      end
  end.

(** [s.trim()] *)
Definition trim (s : jsstring) : jsstring := trimEnd (trimStart s).

(** [lines.join(sep)] *)
Fixpoint join (sep : jsstring) (parts : list jsstring) : jsstring :=
  match parts with
  | [] => []
  | [p] => p
  | p :: rest => p ++ sep ++ join sep rest
  end.

(** [s.split("\n")]: always at least one piece. *)
Fixpoint splitLines (s : jsstring) : list jsstring :=
  match s with
  | [] => [[]]
  | c :: r =>
      if c =? 10 then [] :: splitLines r
      else match splitLines r with
           | l :: ls => (c :: l) :: ls
           | [] => [[c]]
           end
  end.

(** Decimal rendering of a non-negative integer, as the template literals
    [`E${idx + 1}`] do it. *)
Fixpoint digits (u : Decimal.uint) : jsstring :=
  match u with
  | Decimal.Nil => []
  | Decimal.D0 r => 48 :: digits r
  | Decimal.D1 r => 49 :: digits r
  | Decimal.D2 r => 50 :: digits r
  | Decimal.D3 r => 51 :: digits r
  | Decimal.D4 r => 52 :: digits r
  | Decimal.D5 r => 53 :: digits r
  | Decimal.D6 r => 54 :: digits r
  | Decimal.D7 r => 55 :: digits r
  | Decimal.D8 r => 56 :: digits r
  | Decimal.D9 r => 57 :: digits r
  end.

Definition showNat (n : nat) : jsstring := digits (Nat.to_uint n).

(** Truthiness of a string: only the empty string is falsy. *)
Definition truthy (s : jsstring) : bool :=
  match s with [] => false | _ => true end.

Definition jsstring_eqb (a b : jsstring) : bool := bool_decide (a = b).

(** Occurrence of [pat] as a contiguous part of [s]. *)
Fixpoint startsWith (pat s : jsstring) : bool :=
  match pat, s with
  | [], _ => true
  | p :: pat', c :: s' => (p =? c) && startsWith pat' s'
  | _ :: _, [] => false
  end.

Fixpoint includes (pat s : jsstring) : bool :=
  startsWith pat s ||
  match s with
  | [] => false
  | _ :: s' => includes pat s'
  end.

(** Surrogate code units.  A lead surrogate followed by a trail surrogate
    is one character outside the Basic Multilingual Plane. *)
Definition isSurrogate (c : N) : bool := (0xD800 <=? c) && (c <=? 0xDFFF).

Definition isSurrogatePair (c d : N) : bool :=
  (0xD800 <=? c) && (c <=? 0xDBFF) && (0xDC00 <=? d) && (d <=? 0xDFFF).

(** The number of characters (code points) of a string: a surrogate pair
    counts once, any other code unit, an unpaired surrogate too, once. *)
Fixpoint codePoints (s : jsstring) : nat :=
  match s with
  | [] => O
  | c :: r =>
      match r with
      | d :: r' =>
          if isSurrogatePair c d then Datatypes.S (codePoints r')
          else Datatypes.S (codePoints r)
      | [] => 1%nat
      end
  end.

(** ** JSON values, as [JSON.parse] hands them to the schema *)

#[local] Set Warnings "-register-all".

Inductive json : Type :=
| JNull
| JBool (b : bool)
| JNum (q : Q)
| JStr (s : jsstring)
| JArr (items : list json)
| JObj (members : list (jsstring * json)).

(** [o[k]] on a parsed object, whose keys are distinct: [None] is
    [undefined]. *)
Fixpoint get (k : jsstring) (members : list (jsstring * json)) : option json :=
  match members with
  | [] => None
  | (k', v) :: rest => if jsstring_eqb k k' then Some v else get k rest
  end.

(** ** Zod combinators

    A schema takes the value found at a position ([None] when the key is
    absent) and either yields the decoded value or fails ([None], a
    [ZodError]). *)

Module Zod.

Definition schema (A : Type) := option json -> option A.

Definition string_ : schema jsstring :=
  fun v => match v with Some (JStr s) => Some s | _ => None end.

(** [z.string().min(n)]: a string of at least [n] characters, a surrogate
    pair counting as one character. *)
Definition string_min (n : nat) : schema jsstring :=
  fun v => match v with
           | Some (JStr s) => if (n <=? codePoints s)%nat then Some s else None
           | _ => None
           end.

(** [z.number().min(lo).max(hi)] *)
Definition number_min_max (lo hi : Q) : schema Q :=
  fun v => match v with
           | Some (JNum q) => if Qle_bool lo q && Qle_bool q hi then Some q else None
           | _ => None
           end.

(** [z.enum([...])], given the table of the variants' spellings. *)
Definition enum {A : Type} (variants : list (jsstring * A)) : schema A :=
  fun v => match v with
           | Some (JStr s) => snd <$> List.find (fun p => jsstring_eqb s (fst p)) variants
           | _ => None
           end.

Fixpoint all_some {A : Type} (l : list (option A)) : option (list A) :=
  match l with
  | [] => Some []
  | Some a :: r => match all_some r with Some r' => Some (a :: r') | None => None end
  | None :: _ => None
  end.

(** [z.array(item)]: fails when the value is not an array or any element
    fails. *)
Definition array {A : Type} (item : schema A) : schema (list A) :=
  fun v => match v with
           | Some (JArr l) => all_some (map (fun x => item (Some x)) l)
           | _ => None
           end.

(** [s.catch(d)]: never fails. *)
Definition catch {A : Type} (s : schema A) (d : A) : schema A :=
  fun v => Some (default d (s v)).

(** [s.optional()] *)
Definition optional {A : Type} (s : schema A) : schema (option A) :=
  fun v => match v with
           | None => Some None
           | Some _ => Some <$> s v
           end.

(** [z.object({...})]: the value must be a plain object; [fields] decodes
    its members (unknown keys are stripped). *)
Definition object {A : Type} (fields : list (jsstring * json) -> option A) : schema A :=
  fun v => match v with
           | Some (JObj members) => fields members
           | _ => None
           end.

End Zod.

(** ** The data model of [lib/schema.ts] *)

Inductive Platform := web | mobile | api | other.
Inductive TicketType := story | task | bug | spike.
Inductive Priority := P0 | P1 | P2 | P3.

Module Estimate.
Inductive t := S | M | L.
End Estimate.

Module AnalyticsEvent.
Record t := mk { name : jsstring; properties : list jsstring }.
End AnalyticsEvent.

Module TicketAnalytics.
Record t := mk { events : list AnalyticsEvent.t }.
End TicketAnalytics.

Module TicketQA.
Record t := mk { testCases : list jsstring }.
End TicketQA.

Module Ticket.
Record t := mk {
    ticketId : jsstring;
    epicId : jsstring;
    type : TicketType;
    title : jsstring;
    userStory : jsstring;
    description : jsstring;
    acceptanceCriteria : list jsstring;
    outOfScope : list jsstring;
    dependencies : list jsstring;
    priority : Priority;
    estimate : Estimate.t;
    labels : list jsstring;
    components : list jsstring;
    analytics : TicketAnalytics.t;
    qa : TicketQA.t }.
End Ticket.

Module Epic.
Record t := mk {
    epicId : jsstring;
    title : jsstring;
    outcome : jsstring;
    tickets : list jsstring;
    edgeCases : list jsstring }.
End Epic.

Module Meta.
Record t := mk {
    productName : jsstring;
    platform : Platform;
    confidence : Q;
    assumptions : list jsstring;
    openQuestions : list jsstring }.
End Meta.

Module Summary.
Record t := mk {
    problem : jsstring;
    targetUsers : list jsstring;
    goals : list jsstring;
    nonGoals : list jsstring;
    successMetrics : list jsstring }.
End Summary.

Module PlanCore.
Record t := mk {
    meta : Meta.t;
    summary : Summary.t;
    epics : list Epic.t;
    tickets : list Ticket.t }.
End PlanCore.

Module LinearLink.
Record t := mk { ticketId : jsstring; linearNewUrl : jsstring }.
End LinearLink.

Module Exports.
Record t := mk { markdown : jsstring; linear : list LinearLink.t }.
End Exports.

Module Plan.
Record t := mk {
    meta : Meta.t;
    summary : Summary.t;
    epics : list Epic.t;
    tickets : list Ticket.t;
    exports : Exports.t }.
End Plan.

(** Spellings of the enumerations, as template literals print them. *)
Definition showPlatform (p : Platform) : jsstring :=
  match p with
  | web => lit "web" | mobile => lit "mobile" | api => lit "api" | other => lit "other"
  end.

Definition showTicketType (t : TicketType) : jsstring :=
  match t with
  | story => lit "story" | task => lit "task" | bug => lit "bug" | spike => lit "spike"
  end.

Definition showPriority (p : Priority) : jsstring :=
  match p with
  | P0 => lit "P0" | P1 => lit "P1" | P2 => lit "P2" | P3 => lit "P3"
  end.

Definition showEstimate (e : Estimate.t) : jsstring :=
  match e with
  | Estimate.S => lit "S" | Estimate.M => lit "M" | Estimate.L => lit "L"
  end.

(** ** The schemas of [lib/schema.ts] *)

Module Schema.

Import Zod.

Definition zStr : schema jsstring := catch string_ [].
Definition zStrArr : schema (list jsstring) := catch (array string_) [].

Definition PlatformEnum : schema Platform :=
  catch (enum [(lit "web", web); (lit "mobile", mobile); (lit "api", api); (lit "other", other)]) web.
Definition TicketTypeEnum : schema TicketType :=
  catch (enum [(lit "story", story); (lit "task", task); (lit "bug", bug); (lit "spike", spike)]) task.
Definition PriorityEnum : schema Priority :=
  catch (enum [(lit "P0", P0); (lit "P1", P1); (lit "P2", P2); (lit "P3", P3)]) P2.
Definition EstimateEnum : schema Estimate.t :=
  catch (enum [(lit "S", Estimate.S); (lit "M", Estimate.M); (lit "L", Estimate.L)]) Estimate.M.

Definition AnalyticsEventSchema : schema AnalyticsEvent.t :=
  object (fun o =>
    name ← zStr (get (lit "name") o);
    properties ← zStrArr (get (lit "properties") o);
    Some (AnalyticsEvent.mk name properties)).

Definition TicketAnalyticsSchema : schema TicketAnalytics.t :=
  catch
    (object (fun o =>
       events ← catch (array AnalyticsEventSchema) [] (get (lit "events") o);
       Some (TicketAnalytics.mk events)))
    (TicketAnalytics.mk []).

Definition TicketQASchema : schema TicketQA.t :=
  catch
    (object (fun o =>
       testCases ← zStrArr (get (lit "testCases") o);
       Some (TicketQA.mk testCases)))
    (TicketQA.mk []).

Definition TicketSchema : schema Ticket.t :=
  object (fun o =>
    ticketId ← zStr (get (lit "ticketId") o);
    epicId ← catch string_ (lit "E1") (get (lit "epicId") o);
    type ← TicketTypeEnum (get (lit "type") o);
    title ← zStr (get (lit "title") o);
    userStory ← zStr (get (lit "userStory") o);
    description ← zStr (get (lit "description") o);
    acceptanceCriteria ← zStrArr (get (lit "acceptanceCriteria") o);
    outOfScope ← zStrArr (get (lit "outOfScope") o);
    dependencies ← zStrArr (get (lit "dependencies") o);
    priority ← catch PriorityEnum P2 (get (lit "priority") o);
    estimate ← catch EstimateEnum Estimate.M (get (lit "estimate") o);
    labels ← zStrArr (get (lit "labels") o);
    components ← zStrArr (get (lit "components") o);
    analytics ← TicketAnalyticsSchema (get (lit "analytics") o);
    qa ← TicketQASchema (get (lit "qa") o);
    Some (Ticket.mk ticketId epicId type title userStory description
            acceptanceCriteria outOfScope dependencies priority estimate
            labels components analytics qa)).

Definition EpicSchema : schema Epic.t :=
  object (fun o =>
    epicId ← zStr (get (lit "epicId") o);
    title ← zStr (get (lit "title") o);
    outcome ← zStr (get (lit "outcome") o);
    tickets ← zStrArr (get (lit "tickets") o);
    edgeCases ← zStrArr (get (lit "edgeCases") o);
    Some (Epic.mk epicId title outcome tickets edgeCases)).

Definition MetaSchema : schema Meta.t :=
  object (fun o =>
    productName ← zStr (get (lit "productName") o);
    platform ← PlatformEnum (get (lit "platform") o);
    confidence ← catch (number_min_max 0 100) 70%Q (get (lit "confidence") o);
    assumptions ← zStrArr (get (lit "assumptions") o);
    openQuestions ← zStrArr (get (lit "openQuestions") o);
    Some (Meta.mk productName platform confidence assumptions openQuestions)).

Definition SummarySchema : schema Summary.t :=
  object (fun o =>
    problem ← zStr (get (lit "problem") o);
    targetUsers ← zStrArr (get (lit "targetUsers") o);
    goals ← zStrArr (get (lit "goals") o);
    nonGoals ← zStrArr (get (lit "nonGoals") o);
    successMetrics ← zStrArr (get (lit "successMetrics") o);
    Some (Summary.mk problem targetUsers goals nonGoals successMetrics)).

Definition PlanCoreSchema : schema PlanCore.t :=
  object (fun o =>
    meta ← MetaSchema (get (lit "meta") o);
    summary ← SummarySchema (get (lit "summary") o);
    epics ← catch (array EpicSchema) [] (get (lit "epics") o);
    tickets ← catch (array TicketSchema) [] (get (lit "tickets") o);
    Some (PlanCore.mk meta summary epics tickets)).

End Schema.

(** ** Lenient decoding, as the specification words it

    Every leaf that is missing or of the wrong type is replaced by its
    default.  These definitions follow the specification's description and
    are compared with the schemas above. *)

Module Lenient.

Definition member (k : jsstring) (c : json) : option json :=
  match c with JObj o => get k o | _ => None end.

Definition leaf_string (d : jsstring) (v : option json) : jsstring :=
  match v with Some (JStr s) => s | _ => d end.

Definition is_string (v : json) : bool :=
  match v with JStr _ => true | _ => false end.

Definition is_object (v : json) : bool :=
  match v with JObj _ => true | _ => false end.

Definition leaf_strings (v : option json) : list jsstring :=
  match v with
  | Some (JArr l) =>
      if forallb is_string l then map (fun x => leaf_string [] (Some x)) l else []
  | _ => []
  end.

Definition leaf_records {A : Type} (f : list (jsstring * json) -> A) (v : option json) : list A :=
  match v with
  | Some (JArr l) =>
      if forallb is_object l
      then map (fun x => match x with JObj o => f o | _ => f [] end) l
      else []
  | _ => []
  end.

Definition leaf_platform (v : option json) : Platform :=
  match v with
  | Some (JStr s) =>
      if jsstring_eqb s (lit "mobile") then mobile
      else if jsstring_eqb s (lit "api") then api
      else if jsstring_eqb s (lit "other") then other
      else web
  | _ => web
  end.

Definition leaf_type (v : option json) : TicketType :=
  match v with
  | Some (JStr s) =>
      if jsstring_eqb s (lit "story") then story
      else if jsstring_eqb s (lit "bug") then bug
      else if jsstring_eqb s (lit "spike") then spike
      else task
  | _ => task
  end.

Definition leaf_priority (v : option json) : Priority :=
  match v with
  | Some (JStr s) =>
      if jsstring_eqb s (lit "P0") then P0
      else if jsstring_eqb s (lit "P1") then P1
      else if jsstring_eqb s (lit "P3") then P3
      else P2
  | _ => P2
  end.

Definition leaf_estimate (v : option json) : Estimate.t :=
  match v with
  | Some (JStr s) =>
      if jsstring_eqb s (lit "S") then Estimate.S
      else if jsstring_eqb s (lit "L") then Estimate.L
      else Estimate.M
  | _ => Estimate.M
  end.

Definition leaf_confidence (v : option json) : Q :=
  match v with
  | Some (JNum q) => if Qle_bool 0 q && Qle_bool q 100 then q else 70%Q
  | _ => 70%Q
  end.

Definition event (o : list (jsstring * json)) : AnalyticsEvent.t :=
  AnalyticsEvent.mk (leaf_string [] (get (lit "name") o))
                    (leaf_strings (get (lit "properties") o)).

Definition analytics (v : option json) : TicketAnalytics.t :=
  match v with
  | Some (JObj o) => TicketAnalytics.mk (leaf_records event (get (lit "events") o))
  | _ => TicketAnalytics.mk []
  end.

Definition qa (v : option json) : TicketQA.t :=
  match v with
  | Some (JObj o) => TicketQA.mk (leaf_strings (get (lit "testCases") o))
  | _ => TicketQA.mk []
  end.

Definition ticket (o : list (jsstring * json)) : Ticket.t :=
  Ticket.mk
    (leaf_string [] (get (lit "ticketId") o))
    (leaf_string (lit "E1") (get (lit "epicId") o))
    (leaf_type (get (lit "type") o))
    (leaf_string [] (get (lit "title") o))
    (leaf_string [] (get (lit "userStory") o))
    (leaf_string [] (get (lit "description") o))
    (leaf_strings (get (lit "acceptanceCriteria") o))
    (leaf_strings (get (lit "outOfScope") o))
    (leaf_strings (get (lit "dependencies") o))
    (leaf_priority (get (lit "priority") o))
    (leaf_estimate (get (lit "estimate") o))
    (leaf_strings (get (lit "labels") o))
    (leaf_strings (get (lit "components") o))
    (analytics (get (lit "analytics") o))
    (qa (get (lit "qa") o)).

Definition epic (o : list (jsstring * json)) : Epic.t :=
  Epic.mk
    (leaf_string [] (get (lit "epicId") o))
    (leaf_string [] (get (lit "title") o))
    (leaf_string [] (get (lit "outcome") o))
    (leaf_strings (get (lit "tickets") o))
    (leaf_strings (get (lit "edgeCases") o)).

Definition meta (m : list (jsstring * json)) : Meta.t :=
  Meta.mk
    (leaf_string [] (get (lit "productName") m))
    (leaf_platform (get (lit "platform") m))
    (leaf_confidence (get (lit "confidence") m))
    (leaf_strings (get (lit "assumptions") m))
    (leaf_strings (get (lit "openQuestions") m)).

Definition summary (s : list (jsstring * json)) : Summary.t :=
  Summary.mk
    (leaf_string [] (get (lit "problem") s))
    (leaf_strings (get (lit "targetUsers") s))
    (leaf_strings (get (lit "goals") s))
    (leaf_strings (get (lit "nonGoals") s))
    (leaf_strings (get (lit "successMetrics") s)).

Definition planCore (o m s : list (jsstring * json)) : PlanCore.t :=
  PlanCore.mk (meta m) (summary s)
    (leaf_records epic (get (lit "epics") o))
    (leaf_records ticket (get (lit "tickets") o)).

(** The value of [meta.confidence] is missing, not a number, or a number
    outside 0..100. *)
Definition confidence_invalid (v : option json) : Prop :=
  match v with
  | Some (JNum q) => ~ (0 <= q /\ q <= 100)%Q
  | _ => True
  end.

End Lenient.

(** ** The plan route: text cleanup *)

Definition isLineTerminator (c : N) : bool :=
  (c =? 10) || (c =? 13) || (c =? 0x2028) || (c =? 0x2029).

Definition isDigit (c : N) : bool := (48 <=? c) && (c <=? 57).

(** [[A-Za-z]] *)
Definition isLetter (c : N) : bool :=
  ((65 <=? c) && (c <=? 90)) || ((97 <=? c) && (c <=? 122)).

(** The class of U+200B to U+200D and U+FEFF. *)
Definition isZeroWidth (c : N) : bool :=
  ((0x200B <=? c) && (c <=? 0x200D)) || (c =? 0xFEFF).

(** The bullet class of the source: U+2022, U+00B7, U+25CF, U+25AA, the
    variation selector U+FE0E that follows it in the source text, U+25A0. *)
Definition isBullet (c : N) : bool :=
  (c =? 0x2022) || (c =? 0xB7) || (c =? 0x25CF) || (c =? 0x25AA)
  || (c =? 0xFE0E) || (c =? 0x25A0).

(** The longest prefix whose characters satisfy [p], and the rest. *)
Fixpoint span (p : N -> bool) (s : jsstring) : jsstring * jsstring :=
  match s with
  | c :: r => if p c then let '(a, b) := span p r in (c :: a, b) else ([], s)
  | [] => ([], [])
  end.

(** Case-insensitive match of an ASCII word given in lower case; the rest of
    the text after it. *)
Fixpoint matchWord (word s : jsstring) : option jsstring :=
  match word, s with
  | [], _ => Some s
  | w :: word', c :: s' =>
      if (c =? w) || (c =? w - 32) then matchWord word' s' else None
  | _ :: _, [] => None
  end.

(** Index of the last line terminator of a run of white space. *)
Fixpoint lastLineTerminator (w : jsstring) : option nat :=
  match w with
  | [] => None
  | c :: r =>
      match lastLineTerminator r with
      | Some i => Some (Datatypes.S i)
      | None => if isLineTerminator c then Some O else None
      end
  end.

(** How much of the white space [w] (followed by [rest]) the trailing
    [\s*$] consumes: all of it at the end of the text, else up to the last
    line terminator in it, where the multiline [$] holds; no position
    otherwise. *)
Definition lineEnd (w rest : jsstring) : option nat :=
  match rest with
  | [] => Some (length w)
  | _ :: _ => lastLineTerminator w
  end.

(** Length of the match of [^\s*Page\s+\d+\s*(of\s+\d+)?\s*$] (flags [im])
    at the beginning of [s], a position where [^] holds.  Each greedy run
    is followed by a character outside its class, so it is the maximal run;
    only the white space before [$] is given back, down to the last line
    terminator.  The optional group is tried first. *)
Definition pageMarker (s : jsstring) : option nat :=
  let '(w0, s1) := span isSpace s in
  match matchWord (lit "page") s1 with
  | None => None
  | Some s2 =>
      let '(w1, s3) := span isSpace s2 in
      let '(d1, s4) := span isDigit s3 in
      if (length w1 =? 0)%nat || (length d1 =? 0)%nat then None else
      let '(w, s5) := span isSpace s4 in
      let base := (length w0 + 4 + length w1 + length d1)%nat in
      let without_of := (fun n => (base + n)%nat) <$> lineEnd w s5 in
      match matchWord (lit "of") s5 with
      | None => without_of
      | Some s6 =>
          let '(w2, s7) := span isSpace s6 in
          let '(d2, s8) := span isDigit s7 in
          if (length w2 =? 0)%nat || (length d2 =? 0)%nat then without_of else
          let '(w3, s9) := span isSpace s8 in
          match lineEnd w3 s9 with
          | Some n => Some (base + length w + 2 + length w2 + length d2 + n)%nat
          | None => without_of
          end
      end
  end.

(** [s.replace(/\r\n/g, "\n")] *)
Fixpoint replaceCRLF (s : jsstring) : jsstring :=
  match s with
  | [] => []
  | c :: r =>
      match r with
      | d :: r' => if (c =? 13) && (d =? 10) then 10 :: replaceCRLF r'
                   else c :: replaceCRLF r
      | [] => [c]
      end
  end.

(** [s.replace(/([A-Za-z])\-\n([A-Za-z])/g, "$1$2")] *)
Fixpoint dehyphenate (s : jsstring) : jsstring :=
  match s with
  | [] => []
  | a :: r =>
      match r with
      | h :: n :: b :: r' =>
          if isLetter a && (h =? 45) && (n =? 10) && isLetter b
          then a :: b :: dehyphenate r'
          else a :: dehyphenate r
      | _ => a :: dehyphenate r
      end
  end.

(** [s.replace(/^\s*Page\s+\d+\s*(of\s+\d+)?\s*$/gim, '')]: [skip] counts
    the characters of the current match still to drop, [bol] tells whether
    [^] holds at this position. *)
Fixpoint dropPageMarkers (skip : nat) (bol : bool) (s : jsstring) : jsstring :=
  match s with
  | [] => []
  | c :: r =>
      match skip with
      | Datatypes.S k => dropPageMarkers k (isLineTerminator c) r
      | O =>
          match (if bol then pageMarker s else None) with
          | Some (Datatypes.S k) => dropPageMarkers k (isLineTerminator c) r
          | _ => c :: dropPageMarkers O (isLineTerminator c) r
          end
      end
  end.

(** [s.replace(/\n{3,}/g, "\n\n")]: [pending] counts the newlines of the
    current run. *)
Definition flushNewlines (pending : nat) : jsstring :=
  if (3 <=? pending)%nat then [10; 10] else repeat 10 pending.

Fixpoint collapseNewlines (pending : nat) (s : jsstring) : jsstring :=
  match s with
  | [] => flushNewlines pending
  | c :: r =>
      if c =? 10 then collapseNewlines (Datatypes.S pending) r
      else flushNewlines pending ++ c :: collapseNewlines O r
  end.

(** [s.split("\n").map((line) => line.replace(/\s+$/g, '')).join("\n")] *)
Definition stripLineEnds (s : jsstring) : jsstring :=
  join [10] (map trimEnd (splitLines s)).

Definition cleanPrdText (raw : jsstring) : jsstring :=
  let s := raw in
  let s := map (fun c => if c =? 13 then 10 else c) (replaceCRLF s) in
  let s := filter (fun c => isZeroWidth c = false) s in
  let s := map (fun c => if c =? 0xA0 then 0x20 else c) s in
  let s := dehyphenate s in
  let s := map (fun c => if isBullet c then 45 else c) s in
  let s := dropPageMarkers O true s in
  let s := collapseNewlines O s in
  let s := stripLineEnds s in
  trim s.

(** ** The plan route: id repair *)

(** String-keyed members that every object created by [{}] inherits from
    [Object.prototype]; all of them are functions or objects, hence truthy
    and not nullish. *)
Definition objectPrototypeKeys : list jsstring :=
  map lit
    ["constructor"; "__defineGetter__"; "__defineSetter__"; "hasOwnProperty";
     "__lookupGetter__"; "__lookupSetter__"; "isPrototypeOf";
     "propertyIsEnumerable"; "toString"; "valueOf"; "__proto__";
     "toLocaleString"]%string.

(** What reading [ticketsByEpic[k]] finds: an array the loop has stored, an
    inherited member, or [undefined]. *)
Inductive slot :=
| OwnList (l : list jsstring)
| Inherited
| Undefined.

Definition readSlot (own : gmap jsstring (list jsstring)) (k : jsstring) : slot :=
  match own !! k with
  | Some l => OwnList l
  | None => if bool_decide (k ∈ objectPrototypeKeys) then Inherited else Undefined
  end.

(** What [normalizeIds] does: it returns a plan; or [.push] is called on an
    inherited member, which has none, and a [TypeError] is thrown; or it
    returns an object in which the [tickets] member of the epic [k] is an
    inherited member of [Object.prototype] instead of a list, which no value
    of type [PlanCore] represents. *)
Inductive repaired :=
| Repaired (p : PlanCore.t)
| PushNotAFunction (k : jsstring)
| TicketsNotAList (k : jsstring).

Definition setEpicId (e : Epic.t) (id : jsstring) : Epic.t :=
  Epic.mk id (Epic.title e) (Epic.outcome e) (Epic.tickets e) (Epic.edgeCases e).

Definition setEpicTickets (e : Epic.t) (l : list jsstring) : Epic.t :=
  Epic.mk (Epic.epicId e) (Epic.title e) (Epic.outcome e) l (Epic.edgeCases e).

Definition setTicketIds (t : Ticket.t) (ticketId epicId : jsstring) : Ticket.t :=
  Ticket.mk ticketId epicId (Ticket.type t) (Ticket.title t) (Ticket.userStory t)
    (Ticket.description t) (Ticket.acceptanceCriteria t) (Ticket.outOfScope t)
    (Ticket.dependencies t) (Ticket.priority t) (Ticket.estimate t)
    (Ticket.labels t) (Ticket.components t) (Ticket.analytics t) (Ticket.qa t).

(** [const epics = (plan.epics ?? []).map((e, idx) => ...)] *)
Definition normEpics (plan : PlanCore.t) : list Epic.t :=
  imap (fun idx e =>
          setEpicId e (if truthy (trim (Epic.epicId e)) then trim (Epic.epicId e)
                       else lit "E" ++ showNat (idx + 1)))
       (PlanCore.epics plan).

(** [epics[0]?.epicId || "E1"] *)
Definition firstEpicId (epics : list Epic.t) : jsstring :=
  match epics with
  | e :: _ => if truthy (Epic.epicId e) then Epic.epicId e else lit "E1"
  | [] => lit "E1"
  end.

(** [const tickets = (plan.tickets ?? []).map((t, idx) => ...)] *)
Definition normTickets (plan : PlanCore.t) : list Ticket.t :=
  let epics := normEpics plan in
  let epicIdSet : gset jsstring := list_to_set (map Epic.epicId epics) in
  imap (fun idx t =>
          let ticketId := if truthy (trim (Ticket.ticketId t)) then trim (Ticket.ticketId t)
                          else lit "T" ++ showNat (idx + 1) in
          let epicId := if truthy (trim (Ticket.epicId t)) then trim (Ticket.epicId t)
                        else firstEpicId epics in
          setTicketIds t ticketId
            (if bool_decide (epicId ∈ epicIdSet) then epicId else firstEpicId epics))
       (PlanCore.tickets plan).

(** The loop filling [ticketsByEpic]; [inl k] when [.push] is not a
    function. *)
Fixpoint groupTickets (tickets : list Ticket.t) (own : gmap jsstring (list jsstring))
  : jsstring + gmap jsstring (list jsstring) :=
  match tickets with
  | [] => inr own
  | t :: rest =>
      match readSlot own (Ticket.epicId t) with
      | Undefined => groupTickets rest (<[Ticket.epicId t := [Ticket.ticketId t]]> own)
      | OwnList l => groupTickets rest (<[Ticket.epicId t := l ++ [Ticket.ticketId t]]> own)
      | Inherited => inl (Ticket.epicId t)
      end
  end.

(** [epics.map((e) => ({ ...e, tickets: ticketsByEpic[e.epicId] ?? [] }))];
    [inl k] when the member found for [k] is not a list. *)
Fixpoint attachTickets (own : gmap jsstring (list jsstring)) (epics : list Epic.t)
  : jsstring + list Epic.t :=
  match epics with
  | [] => inr []
  | e :: rest =>
      match readSlot own (Epic.epicId e), attachTickets own rest with
      | Inherited, _ => inl (Epic.epicId e)
      | _, inl k => inl k
      | OwnList l, inr rest' => inr (setEpicTickets e l :: rest')
      | Undefined, inr rest' => inr (setEpicTickets e [] :: rest')
      end
  end.

Definition normalizeIds (plan : PlanCore.t) : repaired :=
  let epics := normEpics plan in
  let tickets := normTickets plan in
  match groupTickets tickets ∅ with
  | inl k => PushNotAFunction k
  | inr ticketsByEpic =>
      match attachTickets ticketsByEpic epics with
      | inl k => TicketsNotAList k
      | inr epicsWithTickets =>
          Repaired (PlanCore.mk (PlanCore.meta plan) (PlanCore.summary plan)
                      epicsWithTickets tickets)
      end
  end.

(** [for (const x of items) lines.push(`- ${x}`)] *)
Definition bullets (items : list jsstring) : list jsstring :=
  map (fun x => lit "- " ++ x) items.

(** ** [lib/linear.ts] *)

Module Linear.

(** [uriUnescaped]: letters, digits and [-_.!~*'()]. *)
Definition isUnreserved (c : N) : bool :=
  isLetter c || isDigit c
  || (c =? 45) || (c =? 95) || (c =? 46) || (c =? 33) || (c =? 126)
  || (c =? 42) || (c =? 39) || (c =? 40) || (c =? 41).

Definition isLeadSurrogate (c : N) : bool := (0xD800 <=? c) && (c <=? 0xDBFF).
Definition isTrailSurrogate (c : N) : bool := (0xDC00 <=? c) && (c <=? 0xDFFF).

Definition hexDigit (d : N) : N := if d <? 10 then 48 + d else 55 + d.

(** ["%XX"] for one octet. *)
Definition percent (octet : N) : jsstring :=
  [37; hexDigit (octet / 16); hexDigit (octet mod 16)].

(** The UTF-8 octets of a code point. *)
Definition utf8 (cp : N) : list N :=
  if cp <? 0x80 then [cp]
  else if cp <? 0x800 then [0xC0 + cp / 64; 0x80 + cp mod 64]
  else if cp <? 0x10000 then [0xE0 + cp / 4096; 0x80 + (cp / 64) mod 64; 0x80 + cp mod 64]
  else [0xF0 + cp / 262144; 0x80 + (cp / 4096) mod 64; 0x80 + (cp / 64) mod 64;
        0x80 + cp mod 64].

Definition escape (cp : N) : jsstring := concat (map percent (utf8 cp)).

Definition surrogatePair (lead trail : N) : N :=
  (lead - 0xD800) * 0x400 + (trail - 0xDC00) + 0x10000.

(** [encodeURIComponent(s)]; [None] is the [URIError] thrown on an unpaired
    surrogate. *)
Fixpoint encodeURIComponent (s : jsstring) : option jsstring :=
  match s with
  | [] => Some []
  | c :: r =>
      if isUnreserved c then (fun e => c :: e) <$> encodeURIComponent r
      else if isTrailSurrogate c then None
      else if isLeadSurrogate c then
        match r with
        | d :: r' =>
            if isTrailSurrogate d
            then (fun e => escape (surrogatePair c d) ++ e) <$> encodeURIComponent r'
            else None
        | [] => None
        end
      else (fun e => escape c ++ e) <$> encodeURIComponent r
  end.

(** [s.replace(/%20/g, "+")] *)
Fixpoint plusForSpace (s : jsstring) : jsstring :=
  match s with
  | [] => []
  | c :: r =>
      match r with
      | d :: e :: r' =>
          if (c =? 37) && (d =? 50) && (e =? 48) then 43 :: plusForSpace r'
          else c :: plusForSpace r
      | _ => c :: plusForSpace r
      end
  end.

Definition encodeForQuery (value : jsstring) : option jsstring :=
  plusForSpace <$> encodeURIComponent value.

Definition buildLinearNewUrl (title description : jsstring) : option jsstring :=
  t ← encodeForQuery title;
  d ← encodeForQuery description;
  Some (lit "https://linear.new?title=" ++ t ++ lit "&description=" ++ d).

Definition ticketMarkdownDescription (t : Ticket.t) : jsstring :=
  join [10]
    ([lit "Type: " ++ showTicketType (Ticket.type t);
      lit "Priority: " ++ showPriority (Ticket.priority t);
      lit "Estimate: " ++ showEstimate (Ticket.estimate t);
      [];
      lit "User story: " ++ Ticket.userStory t;
      [];
      Ticket.description t;
      [];
      lit "Acceptance criteria:"]
     ++ bullets (Ticket.acceptanceCriteria t)
     ++ (match Ticket.outOfScope t with
         | [] => []
         | _ :: _ => [[]; lit "Out of scope:"] ++ bullets (Ticket.outOfScope t)
         end)
     ++ (match Ticket.dependencies t with
         | [] => []
         | _ :: _ => [[]; lit "Dependencies:"] ++ bullets (Ticket.dependencies t)
         end)
     ++ [[]; lit "QA test cases:"]
     ++ bullets (TicketQA.testCases (Ticket.qa t))
     ++ [[]; lit "Analytics:"]
     ++ map (fun ev => lit "- " ++ AnalyticsEvent.name ev ++ lit " ("
                       ++ join (lit ", ") (AnalyticsEvent.properties ev) ++ lit ")")
            (TicketAnalytics.events (Ticket.analytics t))).

(** [tickets.map(...)]; the first [URIError] aborts the whole map. *)
Fixpoint buildLinearLinks (tickets : list Ticket.t) : option (list LinearLink.t) :=
  match tickets with
  | [] => Some []
  | t :: rest =>
      url ← buildLinearNewUrl (Ticket.title t) (ticketMarkdownDescription t);
      links ← buildLinearLinks rest;
      Some (LinearLink.mk (Ticket.ticketId t) url :: links)
  end.

End Linear.

(** ** [lib/markdown.ts] *)

Module Markdown.

Definition ticketParts (t : Ticket.t) : list jsstring :=
  [lit "### " ++ Ticket.ticketId t ++ lit " - " ++ Ticket.title t;
   lit "Type: " ++ showTicketType (Ticket.type t)
     ++ lit " | Priority: " ++ showPriority (Ticket.priority t)
     ++ lit " | Estimate: " ++ showEstimate (Ticket.estimate t);
   [];
   lit "User story: " ++ Ticket.userStory t;
   [];
   Ticket.description t;
   [];
   lit "Acceptance criteria:"]
  ++ bullets (Ticket.acceptanceCriteria t)
  ++ (match Ticket.outOfScope t with
      | [] => []
      | _ :: _ => [[]; lit "Out of scope:"] ++ bullets (Ticket.outOfScope t)
      end)
  ++ (match Ticket.dependencies t with
      | [] => []
      | _ :: _ => [[]; lit "Dependencies:"] ++ bullets (Ticket.dependencies t)
      end)
  ++ [[]; lit "QA test cases:"]
  ++ bullets (TicketQA.testCases (Ticket.qa t))
  ++ [[]; lit "Analytics events:"]
  ++ concat (map (fun ev => (lit "- " ++ AnalyticsEvent.name ev)
                            :: map (fun p => lit "  - " ++ p) (AnalyticsEvent.properties ev))
                 (TicketAnalytics.events (Ticket.analytics t))).

Definition ticketToMarkdown (t : Ticket.t) : jsstring := join [10] (ticketParts t).

Section Render.

(** [Number::toString] of the engine, used for the confidence score. *)
Variable numberToString : Q -> jsstring.

Definition planLines (plan : Plan.t) : list jsstring :=
  [lit "# " ++ Meta.productName (Plan.meta plan) ++ lit " - Ticket Pack";
   [];
   lit "Platform: " ++ showPlatform (Meta.platform (Plan.meta plan))
     ++ lit " | Confidence: " ++ numberToString (Meta.confidence (Plan.meta plan))
     ++ lit "/100";
   [];
   lit "## Summary";
   lit "Problem: " ++ Summary.problem (Plan.summary plan);
   [];
   lit "Target users:"]
  ++ bullets (Summary.targetUsers (Plan.summary plan))
  ++ [[]; lit "Goals:"]
  ++ bullets (Summary.goals (Plan.summary plan))
  ++ [[]; lit "Non-goals:"]
  ++ bullets (Summary.nonGoals (Plan.summary plan))
  ++ [[]; lit "Success metrics:"]
  ++ bullets (Summary.successMetrics (Plan.summary plan))
  ++ [[]; lit "## Assumptions"]
  ++ bullets (Meta.assumptions (Plan.meta plan))
  ++ [[]]
  ++ (match Meta.openQuestions (Plan.meta plan) with
      | [] => []
      | _ :: _ => [lit "## Open questions"]
                  ++ bullets (Meta.openQuestions (Plan.meta plan)) ++ [[]]
      end)
  ++ [lit "## Epics"]
  ++ concat (map (fun e =>
                    [lit "### " ++ Epic.epicId e ++ lit " - " ++ Epic.title e;
                     lit "Outcome: " ++ Epic.outcome e;
                     lit "Tickets:"]
                    ++ bullets (Epic.tickets e)
                    ++ [lit "Edge cases:"]
                    ++ bullets (Epic.edgeCases e)
                    ++ [[]])
                 (Plan.epics plan))
  ++ [lit "## Tickets"; []]
  ++ concat (map (fun t => [ticketToMarkdown t; []; lit "---"; []]) (Plan.tickets plan)).

Definition planToMarkdown (plan : Plan.t) : jsstring := join [10] (planLines plan).

End Render.

End Markdown.

(** ** The ticket card of [app/page.tsx] *)

Module Page.

(** [x || '- None'] *)
Definition orNone (s : jsstring) : jsstring :=
  if truthy s then s else lit "- None".

Definition ticketToMarkdown (t : Ticket.t) : jsstring :=
  let ac := join [10] (map (fun x => lit "- [ ] " ++ x) (Ticket.acceptanceCriteria t)) in
  let deps := join [10] (bullets (Ticket.dependencies t)) in
  let oos := join [10] (bullets (Ticket.outOfScope t)) in
  let qa := join [10] (bullets (TicketQA.testCases (Ticket.qa t))) in
  let events :=
    join [10]
      (map (fun e => lit "- " ++ AnalyticsEvent.name e ++ lit " ("
                     ++ join (lit ", ") (AnalyticsEvent.properties e) ++ lit ")")
           (TicketAnalytics.events (Ticket.analytics t))) in
  lit "## " ++ Ticket.ticketId t ++ lit " - " ++ Ticket.title t
  ++ [10; 10]
  ++ lit "Type: " ++ showTicketType (Ticket.type t)
  ++ lit " | Priority: " ++ showPriority (Ticket.priority t)
  ++ lit " | Estimate: " ++ showEstimate (Ticket.estimate t)
  ++ lit " | Epic: " ++ Ticket.epicId t
  ++ [10; 10] ++ lit "User story:" ++ [10] ++ Ticket.userStory t
  ++ [10; 10] ++ lit "Description:" ++ [10] ++ Ticket.description t
  ++ [10; 10] ++ lit "Acceptance criteria:" ++ [10] ++ ac
  ++ [10; 10] ++ lit "Dependencies:" ++ [10] ++ orNone deps
  ++ [10; 10] ++ lit "Out of scope:" ++ [10] ++ orNone oos
  ++ [10; 10] ++ lit "QA test cases:" ++ [10] ++ orNone qa
  ++ [10; 10] ++ lit "Analytics:" ++ [10] ++ orNone events
  ++ [10].

End Page.

(** ** The plan route: request, prompt, generation with one retry *)

Module PlanRequest.
Record t := mk {
  prd : jsstring;
  productName : option jsstring;
  targetUser : option jsstring;
  platform : option Platform;
  constraints : option jsstring;
  releaseDate : option jsstring }.
End PlanRequest.

Definition PlanRequestSchema : Zod.schema PlanRequest.t :=
  Zod.object (fun o =>
    prd ← Zod.string_min 20 (get (lit "prd") o);
    productName ← Zod.optional Zod.string_ (get (lit "productName") o);
    targetUser ← Zod.optional Zod.string_ (get (lit "targetUser") o);
    platform ← Zod.optional
                 (Zod.enum [(lit "web", web); (lit "mobile", mobile);
                            (lit "api", api); (lit "other", other)])
                 (get (lit "platform") o);
    constraints ← Zod.optional Zod.string_ (get (lit "constraints") o);
    releaseDate ← Zod.optional Zod.string_ (get (lit "releaseDate") o);
    Some (PlanRequest.mk prd productName targetUser platform constraints releaseDate)).

(** A double quote inside a template. *)
Definition dq : jsstring := [34].

Definition buildPrompt (input : PlanRequest.t) (cleanedPrd : jsstring) : jsstring :=
  let productName := default (lit "Unnamed product") (PlanRequest.productName input) in
  let targetUser := default (lit "Not specified") (PlanRequest.targetUser input) in
  let platform := default web (PlanRequest.platform input) in
  let constraints := default (lit "None provided") (PlanRequest.constraints input) in
  let releaseDate := default (lit "Not specified") (PlanRequest.releaseDate input) in
  trim (join [10]
    [ [];
      lit "You are a PRD-to-Ticket agent.";
      [];
      lit "Hard requirements:";
      lit "- Return ONLY a JSON object that matches the provided schema. No markdown. No extra keys.";
      lit "- Always include EVERY field in the schema for EVERY object.";
      lit "  - If unknown: use " ++ dq ++ dq ++ lit " for strings, [] for arrays, {} for objects.";
      lit "- If critical info is missing, add up to 6 clarifying questions to meta.openQuestions, but still produce a best-effort plan.";
      [];
      lit "ID rules (critical for schema validity):";
      lit "- Epics MUST use epicId values: " ++ dq ++ lit "E1" ++ dq ++ lit ", "
        ++ dq ++ lit "E2" ++ dq ++ lit ", ... sequential.";
      lit "- Tickets MUST use ticketId values: " ++ dq ++ lit "T1" ++ dq ++ lit ", "
        ++ dq ++ lit "T2" ++ dq ++ lit ", ... sequential.";
      lit "- Every ticket MUST include " ++ dq ++ lit "epicId" ++ dq
        ++ lit " and it MUST match one of the epics[].epicId values.";
      lit "- Every epic MUST include a " ++ dq ++ lit "tickets" ++ dq
        ++ lit " array listing ticketIds that belong to that epic.";
      [];
      lit "Quality bar:";
      lit "- 2-4 epics, 6-10 tickets total.";
      lit "- Each epic must include at least 2 edgeCases.";
      lit "- Each ticket must include:";
      lit "  - at least 3 acceptanceCriteria";
      lit "  - at least 2 qa.testCases";
      lit "  - outOfScope for at least ~30% of tickets to show tradeoffs";
      lit "  - analytics.events with at least 1 event and at least 2 properties";
      [];
      lit "Output guidance:";
      lit "- Summarize and rephrase, do NOT copy long passages from the PRD verbatim.";
      lit "- Keep each ticket description to 2-5 lines.";
      lit "- Keep acceptance criteria and test cases as short bullet-like strings.";
      [];
      lit "Context fields:";
      lit "- productName: " ++ productName;
      lit "- targetUser: " ++ targetUser;
      lit "- platform: " ++ showPlatform platform;
      lit "- constraints: " ++ constraints;
      lit "- releaseDate: " ++ releaseDate;
      [];
      lit "PRD:";
      cleanedPrd;
      [] ]).

(** The section the retry appends to the first prompt: the message of the
    first error and the rules most often violated. *)
Definition retrySection (msg : jsstring) : jsstring :=
  join [10]
    [ [];
      [];
      lit "IMPORTANT:";
      lit "A previous attempt failed schema validation with this error:";
      msg;
      [];
      lit "Fix it by ensuring:";
      lit "- Every ticket includes epicId and it matches an existing epicId (E1, E2, ...)";
      lit "- No keys are omitted anywhere";
      lit "- acceptanceCriteria has 3+ items for every ticket";
      lit "- qa.testCases has 2+ items for every ticket";
      lit "- analytics.events has at least 1 event for every ticket" ].

Definition retryPrompt (prompt msg : jsstring) : jsstring :=
  trim ([10] ++ prompt ++ retrySection msg ++ [10]).

(** What a [catch (err: any)] sees of a thrown value: [err?.message] when it
    is a string. *)
Definition thrown := option jsstring.

(** Errors raised by the engine or by Zod inside the handler. *)
Inductive builtinError :=
| BodyNotJson
| RequestInvalid (body : json)
| PushOnInherited
| TicketsNotIterable
| URIMalformed.

Module Call.
Record t := mk { prompt : jsstring; temperature : Q }.
End Call.

Inductive response :=
| Json200 (plan : Plan.t)
| Json500 (error message : jsstring).

(** [PlanSchema.parse] on an object of type [Plan]: every member has the type
    its schema asks for, so the parse succeeds, and the only leaf that can
    still fall back is a confidence outside 0..100. *)
Definition PlanSchema_parse (p : Plan.t) : Plan.t :=
  let m := Plan.meta p in
  Plan.mk
    (Meta.mk (Meta.productName m) (Meta.platform m)
       (if Qle_bool 0 (Meta.confidence m) && Qle_bool (Meta.confidence m) 100
        then Meta.confidence m else 70%Q)
       (Meta.assumptions m) (Meta.openQuestions m))
    (Plan.summary p) (Plan.epics p) (Plan.tickets p) (Plan.exports p).

Section Route.

(** The generation oracle: what the [n]-th invocation (counting from 0)
    answers to a prompt at a temperature. *)
Variable generateText : nat -> jsstring -> Q -> thrown + PlanCore.t.

(** The message texts of the built-in errors, and [Number::toString]. *)
Variable messageOf : builtinError -> jsstring.
Variable numberToString : Q -> jsstring.

(** Computations that may throw and that record the oracle invocations. *)
Definition M (A : Type) := list Call.t -> (thrown + A) * list Call.t.

Definition generatePlanObject (prompt : jsstring) (temperature : Q) : M PlanCore.t :=
  fun log =>
    (generateText (length log) prompt temperature,
     log ++ [Call.mk prompt temperature]).

(** [try { ... } catch (err) { ... }] *)
Definition tryCatch {A : Type} (body : M A) (handler : thrown -> M A) : M A :=
  fun log =>
    match body log with
    | (inl err, log') => handler err log'
    | (inr a, log') => (inr a, log')
    end.

Definition generate (prompt : jsstring) : M PlanCore.t :=
  tryCatch (generatePlanObject prompt 0)
    (fun err =>
       let msg := default (lit "unknown") err in
       generatePlanObject (retryPrompt prompt msg) 0).

(** Everything after the generation: repair, exports, final validation. *)
Definition assemble (output : PlanCore.t) : thrown + Plan.t :=
  match normalizeIds output with
  | PushNotAFunction _ => inl (Some (messageOf PushOnInherited))
  | TicketsNotAList _ =>
      match Linear.buildLinearLinks (normTickets output) with
      | None => inl (Some (messageOf URIMalformed))
      | Some _ => inl (Some (messageOf TicketsNotIterable))
      end
  | Repaired normalized =>
      match Linear.buildLinearLinks (PlanCore.tickets normalized) with
      | None => inl (Some (messageOf URIMalformed))
      | Some links =>
          let planWithExports :=
            Plan.mk (PlanCore.meta normalized) (PlanCore.summary normalized)
              (PlanCore.epics normalized) (PlanCore.tickets normalized)
              (Exports.mk [] links) in
          let markdown := Markdown.planToMarkdown numberToString planWithExports in
          inr (PlanSchema_parse
                 (Plan.mk (PlanCore.meta normalized) (PlanCore.summary normalized)
                    (PlanCore.epics normalized) (PlanCore.tickets normalized)
                    (Exports.mk markdown links)))
      end
  end.

(** The handler, given what [req.json()] yields ([None] when the body is
    not JSON); it answers with a response and has made the recorded
    invocations. *)
Definition POST (body : option json) : response * list Call.t :=
  let '(result, log) :=
    match body with
    | None => (inl (Some (messageOf BodyNotJson)), [])
    | Some json =>
        match PlanRequestSchema (Some json) with
        | None => (inl (Some (messageOf (RequestInvalid json))), [])
        | Some input =>
            let cleanedPrd := cleanPrdText (PlanRequest.prd input) in
            let prompt := buildPrompt input cleanedPrd in
            match generate prompt [] with
            | (inl err, log) => (inl err, log)
            | (inr output, log) => (assemble output, log)
            end
        end
    end in
  match result with
  | inr validated => (Json200 validated, log)
  | inl err =>
      (Json500 (lit "PLAN_GENERATION_FAILED")
         (default (lit "Unknown error generating plan.") err), log)
  end.

End Route.

(** ** The specification's wording of the repaired ids *)

Definition repairedEpicId (idx : nat) (e : Epic.t) : jsstring :=
  if decide (trim (Epic.epicId e) = []) then lit "E" ++ showNat (idx + 1)
  else trim (Epic.epicId e).

Definition repairedTicketId (idx : nat) (t : Ticket.t) : jsstring :=
  if decide (trim (Ticket.ticketId t) = []) then lit "T" ++ showNat (idx + 1)
  else trim (Ticket.ticketId t).

(** The first epic's repaired id, or the literal ["E1"]. *)
Definition fallbackEpicId (epicIds : list jsstring) : jsstring :=
  default (lit "E1") (head epicIds).

Definition repairedTicketEpicId (epicIds : list jsstring) (t : Ticket.t) : jsstring :=
  if decide (trim (Ticket.epicId t) ∈ epicIds) then trim (Ticket.epicId t)
  else fallbackEpicId epicIds.

(** The ticket ids, in ticket order, of the tickets of epic [k]. *)
Definition ticketsOf (k : jsstring) (tickets : list Ticket.t) : list jsstring :=
  Ticket.ticketId <$> filter (fun t => Ticket.epicId t = k) tickets.

(** The plan the repair returns when it returns one: the repaired epics,
    each with the ids of its tickets, and the repaired tickets. *)
Definition repairSpec (p : PlanCore.t) : PlanCore.t :=
  PlanCore.mk (PlanCore.meta p) (PlanCore.summary p)
    ((fun e => setEpicTickets e (ticketsOf (Epic.epicId e) (normTickets p)))
       <$> normEpics p)
    (normTickets p).

(** No epic id of the raw plan is, once trimmed, the name of a member of
    [Object.prototype]. *)
Definition protoFree (p : PlanCore.t) : Prop :=
  Forall (fun e => trim (Epic.epicId e) ∉ objectPrototypeKeys) (PlanCore.epics p).

(** The raw ids of a list can be repaired to distinct ids: the trimmed
    non-blank ids are pairwise distinct and none of them is the id generated
    for a position whose id is blank. *)
Definition idsRepairable {A : Type} (getId : A -> jsstring) (prefix : N) (l : list A) : Prop :=
  (forall i j x y, i <> j -> l !! i = Some x -> l !! j = Some y ->
                   trim (getId x) <> [] -> trim (getId x) <> trim (getId y))
  /\ (forall x k y, x ∈ l -> l !! k = Some y -> trim (getId y) = [] ->
                    trim (getId x) <> prefix :: showNat (k + 1)).

(** ** The parts of the retry section *)

(** The two fixed parts of the retry section, around the error message. *)
Definition retryHead : jsstring :=
  [10; 10] ++ lit "IMPORTANT:" ++ [10]
  ++ lit "A previous attempt failed schema validation with this error:" ++ [10].

Definition retryTail : jsstring :=
  [10; 10] ++ lit "Fix it by ensuring:" ++ [10]
  ++ lit "- Every ticket includes epicId and it matches an existing epicId (E1, E2, ...)" ++ [10]
  ++ lit "- No keys are omitted anywhere" ++ [10]
  ++ lit "- acceptanceCriteria has 3+ items for every ticket" ++ [10]
  ++ lit "- qa.testCases has 2+ items for every ticket" ++ [10]
  ++ lit "- analytics.events has at least 1 event for every ticket".

(** ** The specification's wording of the issue links *)

(** [String.prototype.isWellFormed]: no unpaired surrogate. *)
Fixpoint isWellFormed (s : jsstring) : bool :=
  match s with
  | [] => true
  | c :: r =>
      if Linear.isTrailSurrogate c then false
      else if Linear.isLeadSurrogate c then
        match r with
        | d :: r' => Linear.isTrailSurrogate d && isWellFormed r'
        | [] => false
        end
      else isWellFormed r
  end.

(** URL-component encoding with the space character as [+]: a space becomes
    [+], an unreserved character stays, any other code point becomes the
    percent-escapes of its UTF-8 octets. *)
Fixpoint formEncode (s : jsstring) : jsstring :=
  match s with
  | [] => []
  | c :: r =>
      if c =? 32 then 43 :: formEncode r
      else if Linear.isUnreserved c then c :: formEncode r
      else if Linear.isLeadSurrogate c then
        match r with
        | d :: r' => Linear.escape (Linear.surrogatePair c d) ++ formEncode r'
        | [] => []
        end
      else Linear.escape c ++ formEncode r
  end.

(** The link of a ticket: the fixed endpoint with the encoded title and
    description. *)
Definition linearLink (t : Ticket.t) : LinearLink.t :=
  LinearLink.mk (Ticket.ticketId t)
    (lit "https://linear.new?title=" ++ formEncode (Ticket.title t)
     ++ lit "&description=" ++ formEncode (Linear.ticketMarkdownDescription t)).

Definition linkable (t : Ticket.t) : bool :=
  isWellFormed (Ticket.title t) && isWellFormed (Linear.ticketMarkdownDescription t).

(** ** The specification's wording of a cleaned text *)

(** White space other than the newline. *)
Definition isBlank (c : N) : bool := isSpace c && negb (c =? 10).

(** No line ends in white space: a blank is never the last character of
    the text nor followed by a newline. *)
Fixpoint tidy (s : jsstring) : bool :=
  match s with
  | [] => true
  | c :: r =>
      (negb (isBlank c) || match r with [] => false | d :: _ => negb (d =? 10) end)
      && tidy r
  end.

(** A character the first steps of the cleanup remove or replace: carriage
    return, zero-width character, non-breaking space, bullet glyph. *)
Definition isRaw (c : N) : bool :=
  (c =? 13) || isZeroWidth c || (c =? 0xA0) || isBullet c.

(** ** The specification's wording of the empty sections *)

(** What the ticket card shows from the dependencies to the heading of the
    QA section when both lists are empty. *)
Definition noneSections : jsstring :=
  [10; 10] ++ lit "Dependencies:" ++ [10] ++ lit "- None"
  ++ [10; 10] ++ lit "Out of scope:" ++ [10] ++ lit "- None"
  ++ [10; 10] ++ lit "QA test cases:" ++ [10].

(** ** Example data *)

(** A candidate with every leaf missing: empty [meta] and [summary]. *)
Definition bare_candidate : list (jsstring * json) :=
  [(lit "meta", JObj []); (lit "summary", JObj [])].

(** A candidate whose confidence is 150. *)
Definition overconfident : json :=
  JObj [(lit "meta", JObj [(lit "confidence", JNum 150%Q)]); (lit "summary", JObj [])].

(** The same candidate without its [summary]. *)
Definition overconfidentWithoutSummary : json :=
  JObj [(lit "meta", JObj [(lit "confidence", JNum 150%Q)])].

Definition sampleEpic (id : jsstring) : Epic.t :=
  Epic.mk id (lit "Onboarding") (lit "Users can sign up") [lit "T9"] [].

Definition sampleTicket (id epicId : jsstring) : Ticket.t :=
  Ticket.mk id epicId story (lit "Sign up form") (lit "As a user I sign up")
    (lit "Build the form") [lit "Form submits"] [] [] P1 Estimate.S [] []
    (TicketAnalytics.mk [AnalyticsEvent.mk (lit "signup") [lit "plan"; lit "source"]])
    (TicketQA.mk [lit "Submit with valid data"]).

Definition samplePlan (epics : list Epic.t) (tickets : list Ticket.t) : PlanCore.t :=
  PlanCore.mk (Meta.mk (lit "Tutor") web 70%Q [] []) (Summary.mk [] [] [] [] [])
    epics tickets.

(** Two epics, the second without an id; three tickets, one referring to an
    epic that does not exist, one without an id. *)
Definition rawPlan : PlanCore.t :=
  samplePlan [sampleEpic (lit "E1"); sampleEpic (lit "  ")]
             [sampleTicket (lit "T1") (lit "E9");
              sampleTicket (lit " T2 ") (lit "E2");
              sampleTicket [] (lit "E1")].

Definition repairedRawPlan : PlanCore.t :=
  samplePlan
    [Epic.mk (lit "E1") (lit "Onboarding") (lit "Users can sign up") [lit "T1"; lit "T3"] [];
     Epic.mk (lit "E2") (lit "Onboarding") (lit "Users can sign up") [lit "T2"] []]
    [sampleTicket (lit "T1") (lit "E1");
     sampleTicket (lit "T2") (lit "E2");
     sampleTicket (lit "T3") (lit "E1")].

(** Raw plans whose ids repeat. *)
Definition duplicateIdsPlan : PlanCore.t :=
  samplePlan [sampleEpic (lit "E1"); sampleEpic (lit "E1")]
             [sampleTicket (lit "T1") (lit "E1"); sampleTicket (lit "T1") (lit "E1")].

(** An epic named like an inherited member, without and with a ticket. *)
Definition constructorEpicPlan : PlanCore.t :=
  samplePlan [sampleEpic (lit "constructor")] [].

Definition constructorTicketPlan : PlanCore.t :=
  samplePlan [sampleEpic (lit "constructor")]
             [sampleTicket (lit "T1") (lit "constructor")].

(** An oracle that always raises the same error, and a well-formed
    request. *)
Definition failingOracle (n : nat) (prompt : jsstring) (temperature : Q)
  : thrown + PlanCore.t :=
  inl (Some (lit "rate limit")).

Definition sampleRequest : json :=
  JObj [(lit "prd", JStr (lit "Build a sign-up flow for the tutor app."))].

Definition sampleInput : PlanRequest.t :=
  PlanRequest.mk (lit "Build a sign-up flow for the tutor app.") None None None None None.

(** Stand-ins for the engine's message texts and for [Number::toString],
    which prints a non-negative integer by its decimal digits. *)
Definition plainMessages (e : builtinError) : jsstring := lit "error".

Definition integerToString (q : Q) : jsstring :=
  showNat (Z.to_nat (Qnum q / Zpos (Qden q))).

(** A repaired plan one of whose titles ends in half of a surrogate pair. *)
Definition brokenTitleTicket : Ticket.t :=
  Ticket.mk (lit "T1") (lit "E1") story (lit "Launch " ++ [0xD83D]) [] [] [] [] []
    P1 Estimate.S [] [] (TicketAnalytics.mk []) (TicketQA.mk []).

Definition brokenTitlePlan : PlanCore.t :=
  samplePlan [Epic.mk (lit "E1") (lit "Onboarding") [] [lit "T1"] []] [brokenTitleTicket].

(** A text with two chained line-break hyphenations, and one with lines of
    spaces between paragraphs. *)
Definition chainedHyphens : jsstring := lit "a-" ++ [10] ++ lit "b-" ++ [10] ++ lit "c".

Definition blankLines : jsstring := lit "a" ++ [10; 32; 10; 32; 10] ++ lit "b".

Definition draftText : jsstring :=
  lit "Goals  " ++ [13; 10; 10; 10; 10] ++ [0x2022] ++ lit " inter-" ++ [10]
  ++ lit "face" ++ [10] ++ lit "Page 2 of 9" ++ [10] ++ [0xA0] ++ lit "done  ".

(** A ticket with no dependencies and nothing out of scope, in a plan. *)
Definition loneTicket : Ticket.t := sampleTicket (lit "T1") (lit "E1").

Definition lonePlan : Plan.t :=
  Plan.mk (Meta.mk (lit "Tutor") web 70%Q [] []) (Summary.mk [] [] [] [] [])
    [Epic.mk (lit "E1") (lit "Onboarding") (lit "Users can sign up") [lit "T1"] []]
    [loneTicket] (Exports.mk [] []).

(** ** The extract route ([app/api/extract/route.ts]) *)

Module Extract.

Definition MAX_FILE_BYTES : N := 5 * 1024 * 1024.
Definition MAX_PDF_PAGES : nat := 50.
Definition MAX_EXTRACTED_CHARS : N := 120000.

(** [s.replace(/\s+/g, " ")]: [inRun] tells whether the previous character
    was white space, already replaced by the single space. *)
Fixpoint collapseSpaces (inRun : bool) (s : jsstring) : jsstring :=
  match s with
  | [] => []
  | c :: r =>
      if isSpace c
      then (if inRun then collapseSpaces true r else 32 :: collapseSpaces true r)
      else c :: collapseSpaces false r
  end.

Definition normalizeText (input : jsstring) : jsstring :=
  let s := filter (fun c => c <> 0) input in
  let s := replaceCRLF s in
  let s := collapseNewlines O s in
  let s := collapseSpaces false s in
  trim s.

Definition truncationMarker : jsstring := [10; 10] ++ lit "[TRUNCATED]".

Definition truncate (text : jsstring) (maxChars : N) : jsstring :=
  if N.of_nat (length text) <=? maxChars then text
  else take (N.to_nat maxChars) text ++ truncationMarker.

(** What the [catch] of the handler sees of a thrown value: [e.message] when
    [e instanceof Error]. *)
Definition failure := option jsstring.

(** A loaded PDF: the number of its pages and, for a page number, the items
    of its text content, each with its [str] when that is a string; [inl]
    when [getPage] or [getTextContent] rejects. *)
Record PdfDocument := {
  numPages : nat;
  pageItems : nat -> failure + list (option jsstring) }.

(** [items.map(...).filter(Boolean).join(" ")] *)
Definition pageText (items : list (option jsstring)) : jsstring :=
  join (lit " ") (List.filter truthy (map (default []) items)).

(** The loop over the pages from [i] on, [remaining] of them still to read;
    the second component lists the pages that were fetched. *)
Fixpoint readPages (doc : PdfDocument) (i remaining : nat) (out : jsstring)
  : (failure + jsstring) * list nat :=
  match remaining with
  | O => (inr out, [])
  | Datatypes.S k =>
      match pageItems doc i with
      | inl err => (inl err, [i])
      | inr items =>
          let out := out ++ pageText items ++ [10; 10] in
          if MAX_EXTRACTED_CHARS <? N.of_nat (length out) then (inr out, [i])
          else let '(res, fetched) := readPages doc (Datatypes.S i) k out in
               (res, i :: fetched)
      end
  end.

Definition extractPdfText (doc : PdfDocument) : (failure + jsstring) * list nat :=
  let totalPages := Nat.min (numPages doc) MAX_PDF_PAGES in
  let '(res, fetched) := readPages doc 1 totalPages [] in
  (match res with
   | inl err => inl err
   | inr out => inr (truncate (normalizeText out) MAX_EXTRACTED_CHARS)
   end, fetched).

(** [s.split(sep)] for a one-character separator. *)
Fixpoint splitOn (sep : N) (s : jsstring) : list jsstring :=
  match s with
  | [] => [[]]
  | c :: r =>
      if c =? sep then [] :: splitOn sep r
      else match splitOn sep r with
           | l :: ls => (c :: l) :: ls
           | [] => [[c]]
           end
  end.

(** An uploaded file: its name, MIME type and size, and what reading it as
    text or as a buffer yields. *)
Record File := {
  name : jsstring;
  type : jsstring;
  size : N;
  text : failure + jsstring;
  arrayBuffer : failure + list N }.

(** What the handler does with the file and the converters. *)
Inductive operation :=
| ReadText
| ReadBuffer
| Mammoth
| PdfLoad
| PdfPage (i : nat).

Inductive response :=
| Text (text : jsstring)
| Message (status : N) (message : jsstring).

Section Handler.

(** [String.prototype.toLowerCase], the Word converter and the PDF loader. *)
Variable toLowerCase : jsstring -> jsstring.
Variable extractRawText : list N -> failure + jsstring.
Variable getDocument : list N -> failure + PdfDocument.

(** [name.split(".").pop()?.toLowerCase() || ""] *)
Definition extension (fileName : jsstring) : jsstring :=
  toLowerCase (default [] (last (splitOn 46 fileName))).

Definition isText (file : File) : bool :=
  startsWith (lit "text/") (type file)
  || bool_decide (extension (if truthy (name file) then name file else lit "upload")
                    ∈ [lit "txt"; lit "md"; lit "markdown"; lit "csv"; lit "json"]).

(** The body of the [try]: a response or a thrown value, and the operations
    performed. *)
Definition handle (form : failure + option File) : (failure + response) * list operation :=
  match form with
  | inl err => (inl err, [])
  | inr None => (inr (Message 400 (lit "No file uploaded")), [])
  | inr (Some file) =>
      let name := if truthy (name file) then name file else lit "upload" in
      let ext := extension name in
      if MAX_FILE_BYTES <? size file then
        (inr (Message 413
                (lit "File too large for v1 (max 5MB). Paste the PRD text instead.")), [])
      else if isText file then
        match text file with
        | inl err => (inl err, [ReadText])
        | inr raw => (inr (Text (truncate (normalizeText raw) MAX_EXTRACTED_CHARS)), [ReadText])
        end
      else
        match arrayBuffer file with
        | inl err => (inl err, [ReadBuffer])
        | inr buf =>
            if bool_decide (ext = lit "docx") then
              match extractRawText buf with
              | inl err => (inl err, [ReadBuffer; Mammoth])
              | inr value =>
                  (inr (Text (truncate (normalizeText value) MAX_EXTRACTED_CHARS)),
                   [ReadBuffer; Mammoth])
              end
            else if bool_decide (ext = lit "pdf") then
              match getDocument buf with
              | inl err => (inl err, [ReadBuffer; PdfLoad])
              | inr doc =>
                  let '(res, fetched) := extractPdfText doc in
                  (match res with inl err => inl err | inr t => inr (Text t) end,
                   [ReadBuffer; PdfLoad] ++ map PdfPage fetched)
              end
            else
              (inr (Message 400 (lit "Unsupported file type. Use .txt, .md, .pdf, or .docx.")),
               [ReadBuffer])
        end
  end.

Definition POST (form : failure + option File) : response * list operation :=
  match handle form with
  | (inr resp, ops) => (resp, ops)
  | (inl err, ops) =>
      (Message 500 (default (lit "Failed to extract file text") err), ops)
  end.

End Handler.

(** The only white space of a text is single spaces, each followed by a
    character that is not white space. *)
Fixpoint singleSpaced (s : jsstring) : bool :=
  match s with
  | [] => true
  | c :: r =>
      (if isSpace c
       then (c =? 32) && match r with [] => true | d :: _ => negb (isSpace d) end
       else true)
      && singleSpaced r
  end.

End Extract.

(** ** Example data for the extract route *)

(** Two PDFs of 60 and of 70 pages with the same first 50 pages; the later
    pages of the first cannot be read. *)
Definition sixtyPages : Extract.PdfDocument :=
  {| Extract.numPages := 60;
     Extract.pageItems := fun i =>
       if (i <=? 50)%nat then inr [Some (lit "Goals"); None; Some []; Some (lit "Scope")]
       else inl None |}.

Definition seventyPages : Extract.PdfDocument :=
  {| Extract.numPages := 70;
     Extract.pageItems := fun i =>
       if (i <=? 50)%nat then inr [Some (lit "Goals"); None; Some []; Some (lit "Scope")]
       else inr [Some (lit "Appendix")] |}.

Definition asciiLower (s : jsstring) : jsstring :=
  map (fun c => if (65 <=? c) && (c <=? 90) then c + 32 else c) s.

Definition noWord (buf : list N) : Extract.failure + jsstring := inl None.
Definition noPdf (buf : list N) : Extract.failure + Extract.PdfDocument := inl None.

Definition hugePdf : Extract.File :=
  {| Extract.name := lit "spec.pdf"; Extract.type := lit "application/pdf";
     Extract.size := 6 * 1024 * 1024;
     Extract.text := inr []; Extract.arrayBuffer := inr [] |}.

Definition notesFile : Extract.File :=
  {| Extract.name := lit "Notes.TXT"; Extract.type := [];
     Extract.size := 40;
     Extract.text := inr (lit "Build   a sign-up" ++ [13; 10; 10] ++ lit "flow  ");
     Extract.arrayBuffer := inr [] |}.

(** ** The form of [app/page.tsx] *)

(** [prd.trim().length >= 20] *)
Definition canGenerate (prd : jsstring) : bool := (20 <=? length (trim prd))%nat.

(** [value || undefined]: [JSON.stringify] leaves out a member that is
    [undefined]. *)
Definition optionalMember (key value : jsstring) : list (jsstring * json) :=
  if truthy value then [(key, JStr value)] else [].

(** The body [handleGenerate] sends, as the route's [req.json()] reads it. *)
Definition generateBody (prd productName targetUser : jsstring) (platform : Platform)
    (constraints releaseDate : jsstring) : json :=
  JObj ([(lit "prd", JStr prd)]
        ++ optionalMember (lit "productName") productName
        ++ optionalMember (lit "targetUser") targetUser
        ++ [(lit "platform", JStr (showPlatform platform))]
        ++ optionalMember (lit "constraints") constraints
        ++ optionalMember (lit "releaseDate") releaseDate).

(** [plan.exports.linear.find((l) => l.ticketId === t.ticketId)?.linearNewUrl] *)
Definition findLinearUrl (links : list LinearLink.t) (ticketId : jsstring) : option jsstring :=
  LinearLink.linearNewUrl
    <$> List.find (fun l => jsstring_eqb (LinearLink.ticketId l) ticketId) links.

(** The field of a request when the form field is empty or not. *)
Definition nonEmpty (value : jsstring) : option jsstring :=
  if truthy value then Some value else None.

(** A text ends with a given text. *)
Definition endsWith (suffix s : jsstring) : Prop := exists pre, s = pre ++ suffix.

(** A text that is not trimmed away and that ends, once trimmed at its end,
    with [suffix]. *)
Definition trimsTo (suffix s : jsstring) : Prop :=
  trimEnd s <> [] /\ endsWith suffix (trimEnd s).

(** The plan the route answers with for a repaired plan all of whose
    tickets can be linked: the links, the Markdown rendering of the plan
    with its links, and the final validation. *)
Definition exported (numberToString : Q -> jsstring) (core : PlanCore.t) : Plan.t :=
  let links := linearLink <$> PlanCore.tickets core in
  let withLinks :=
    Plan.mk (PlanCore.meta core) (PlanCore.summary core) (PlanCore.epics core)
      (PlanCore.tickets core) (Exports.mk [] links) in
  PlanSchema_parse
    (Plan.mk (PlanCore.meta core) (PlanCore.summary core) (PlanCore.epics core)
       (PlanCore.tickets core)
       (Exports.mk (Markdown.planToMarkdown numberToString withLinks) links)).

(** A plan with another confidence score. *)
Definition withConfidence (plan : Plan.t) (confidence : Q) : Plan.t :=
  let m := Plan.meta plan in
  Plan.mk (Meta.mk (Meta.productName m) (Meta.platform m) confidence
             (Meta.assumptions m) (Meta.openQuestions m))
    (Plan.summary plan) (Plan.epics plan) (Plan.tickets plan) (Plan.exports plan).

(** A score the schema accepts. *)
Definition inRange (confidence : Q) : Prop := (0 <= confidence /\ confidence <= 100)%Q.

(** An id as the repair leaves it: not empty, no white space around it. *)
Definition properId (id : jsstring) : Prop := id <> [] /\ trim id = id.

(** A text that is not trimmed away and that is, once trimmed at its end,
    [suffix]. *)
Definition trimsExactly (suffix s : jsstring) : Prop :=
  trimEnd s <> [] /\ trimEnd s = suffix.

(** An oracle that answers the first invocation with a given plan. *)
Definition answeringOracle (output : PlanCore.t) (n : nat) (prompt : jsstring) (temperature : Q)
  : thrown + PlanCore.t :=
  inr output.

Definition twentyBlanks : jsstring := repeat 32 20.

(** A plan without epics, whose ticket names an epic. *)
Definition orphanPlan : PlanCore.t :=
  samplePlan [] [sampleTicket (lit "T1") (lit "E7")].

(** An epic or a ticket with its ids (and, for an epic, its ticket list)
    blanked: what the repair is to leave alone. *)
Definition epicContent (e : Epic.t) : Epic.t := setEpicTickets (setEpicId e []) [].
Definition ticketContent (t : Ticket.t) : Ticket.t := setTicketIds t [] [].

(** The characters that delimit the parts of the query of a URL: space,
    [#], [&], [=] and [?]. *)
Definition isDelimiter (c : N) : bool :=
  (c =? 32) || (c =? 35) || (c =? 38) || (c =? 61) || (c =? 63).

(** Number of occurrences of a character. *)
Definition occurrences (c : N) (s : jsstring) : nat := length (filter (fun d => d = c) s).

(** Two tickets with the same id and different titles. *)
Definition twinTickets : list Ticket.t :=
  [sampleTicket (lit "T1") (lit "E1");
   Ticket.mk (lit "T1") (lit "E1") bug (lit "Fix login") [] [] [] [] [] P0 Estimate.S [] []
     (TicketAnalytics.mk []) (TicketQA.mk [])].

(** ** [PlanSchema] of [lib/schema.ts] *)

Definition LinearLinkSchema : Zod.schema LinearLink.t :=
  Zod.object (fun o =>
    ticketId ← Schema.zStr (get (lit "ticketId") o);
    linearNewUrl ← Schema.zStr (get (lit "linearNewUrl") o);
    Some (LinearLink.mk ticketId linearNewUrl)).

Definition ExportsSchema : Zod.schema Exports.t :=
  Zod.object (fun o =>
    markdown ← Schema.zStr (get (lit "markdown") o);
    linear ← Zod.catch (Zod.array LinearLinkSchema) [] (get (lit "linear") o);
    Some (Exports.mk markdown linear)).

(** [PlanCoreSchema.extend({ exports: ... })] *)
Definition PlanSchema : Zod.schema Plan.t :=
  Zod.object (fun o =>
    meta ← Schema.MetaSchema (get (lit "meta") o);
    summary ← Schema.SummarySchema (get (lit "summary") o);
    epics ← Zod.catch (Zod.array Schema.EpicSchema) [] (get (lit "epics") o);
    tickets ← Zod.catch (Zod.array Schema.TicketSchema) [] (get (lit "tickets") o);
    exports ← ExportsSchema (get (lit "exports") o);
    Some (Plan.mk meta summary epics tickets exports)).

(** ** Plans as JSON values

    The value that [JSON.parse] yields for the serialization of a plan
    ([Response.json(validated)] in the route, [response.json()] in the
    page): an object per record, with the members in the order of the
    schema. *)

Module Encode.

Definition strings (l : list jsstring) : json := JArr (JStr <$> l).

Definition eventMembers (e : AnalyticsEvent.t) : list (jsstring * json) :=
  [(lit "name", JStr (AnalyticsEvent.name e));
   (lit "properties", strings (AnalyticsEvent.properties e))].

Definition ticketMembers (t : Ticket.t) : list (jsstring * json) :=
  [(lit "ticketId", JStr (Ticket.ticketId t));
   (lit "epicId", JStr (Ticket.epicId t));
   (lit "type", JStr (showTicketType (Ticket.type t)));
   (lit "title", JStr (Ticket.title t));
   (lit "userStory", JStr (Ticket.userStory t));
   (lit "description", JStr (Ticket.description t));
   (lit "acceptanceCriteria", strings (Ticket.acceptanceCriteria t));
   (lit "outOfScope", strings (Ticket.outOfScope t));
   (lit "dependencies", strings (Ticket.dependencies t));
   (lit "priority", JStr (showPriority (Ticket.priority t)));
   (lit "estimate", JStr (showEstimate (Ticket.estimate t)));
   (lit "labels", strings (Ticket.labels t));
   (lit "components", strings (Ticket.components t));
   (lit "analytics",
    JObj [(lit "events",
           JArr ((fun e => JObj (eventMembers e))
                   <$> TicketAnalytics.events (Ticket.analytics t)))]);
   (lit "qa", JObj [(lit "testCases", strings (TicketQA.testCases (Ticket.qa t)))])].

Definition epicMembers (e : Epic.t) : list (jsstring * json) :=
  [(lit "epicId", JStr (Epic.epicId e));
   (lit "title", JStr (Epic.title e));
   (lit "outcome", JStr (Epic.outcome e));
   (lit "tickets", strings (Epic.tickets e));
   (lit "edgeCases", strings (Epic.edgeCases e))].

Definition metaMembers (m : Meta.t) : list (jsstring * json) :=
  [(lit "productName", JStr (Meta.productName m));
   (lit "platform", JStr (showPlatform (Meta.platform m)));
   (lit "confidence", JNum (Meta.confidence m));
   (lit "assumptions", strings (Meta.assumptions m));
   (lit "openQuestions", strings (Meta.openQuestions m))].

Definition summaryMembers (s : Summary.t) : list (jsstring * json) :=
  [(lit "problem", JStr (Summary.problem s));
   (lit "targetUsers", strings (Summary.targetUsers s));
   (lit "goals", strings (Summary.goals s));
   (lit "nonGoals", strings (Summary.nonGoals s));
   (lit "successMetrics", strings (Summary.successMetrics s))].

Definition linkMembers (l : LinearLink.t) : list (jsstring * json) :=
  [(lit "ticketId", JStr (LinearLink.ticketId l));
   (lit "linearNewUrl", JStr (LinearLink.linearNewUrl l))].

Definition coreMembers (meta : Meta.t) (summary : Summary.t) (epics : list Epic.t)
    (tickets : list Ticket.t) : list (jsstring * json) :=
  [(lit "meta", JObj (metaMembers meta));
   (lit "summary", JObj (summaryMembers summary));
   (lit "epics", JArr ((fun e => JObj (epicMembers e)) <$> epics));
   (lit "tickets", JArr ((fun t => JObj (ticketMembers t)) <$> tickets))].

Definition planCore (p : PlanCore.t) : json :=
  JObj (coreMembers (PlanCore.meta p) (PlanCore.summary p) (PlanCore.epics p)
          (PlanCore.tickets p)).

Definition plan (p : Plan.t) : json :=
  JObj (coreMembers (Plan.meta p) (Plan.summary p) (Plan.epics p) (Plan.tickets p)
        ++ [(lit "exports",
             JObj [(lit "markdown", JStr (Exports.markdown (Plan.exports p)));
                   (lit "linear",
                    JArr ((fun l => JObj (linkMembers l))
                            <$> Exports.linear (Plan.exports p)))])]).

End Encode.

(** The lenient reading of a link. *)
Definition lenientLink (o : list (jsstring * json)) : LinearLink.t :=
  LinearLink.mk (Lenient.leaf_string [] (get (lit "ticketId") o))
                (Lenient.leaf_string [] (get (lit "linearNewUrl") o)).

(** The plan with the confidence the schema gives it. *)
Definition validConfidence (confidence : Q) : Q :=
  if Qle_bool 0 confidence && Qle_bool confidence 100 then confidence else 70%Q.

Definition validCore (p : PlanCore.t) : PlanCore.t :=
  let m := PlanCore.meta p in
  PlanCore.mk
    (Meta.mk (Meta.productName m) (Meta.platform m) (validConfidence (Meta.confidence m))
       (Meta.assumptions m) (Meta.openQuestions m))
    (PlanCore.summary p) (PlanCore.epics p) (PlanCore.tickets p).

(** A plan with a score the schema refuses. *)
Definition overconfidentPlan : PlanCore.t :=
  PlanCore.mk (Meta.mk (lit "Tutor") web 150%Q [] []) (Summary.mk [] [] [] [] [])
    [sampleEpic (lit "E1")] [sampleTicket (lit "T1") (lit "E1")].

(** ** The upload of [app/page.tsx] *)

(** What [handleUploadFile] leaves behind: the PRD field set to a text, or
    the error shown under the upload. *)
Inductive uploadOutcome :=
| PrdSet (text : jsstring)
| ExtractError (message : jsstring).

Section Upload.

Variable toLowerCase : jsstring -> jsstring.
Variable extractRawText : list N -> Extract.failure + jsstring.
Variable getDocument : list N -> Extract.failure + Extract.PdfDocument.

(** [file.type.startsWith('text/') || [...].includes(ext || '')] *)
Definition uploadIsText (file : Extract.File) : bool :=
  startsWith (lit "text/") (Extract.type file)
  || bool_decide (Extract.extension toLowerCase (Extract.name file)
                    ∈ [lit "txt"; lit "md"; lit "markdown"; lit "csv"; lit "json"]).

(** [handleUploadFile]: a text-like file is read in the page; any other
    file is posted to [/api/extract], whose handler answers. *)
Definition handleUploadFile (file : Extract.File) : uploadOutcome :=
  if uploadIsText file then
    match Extract.text file with
    | inr text => PrdSet text
    | inl err => ExtractError (default (lit "File extraction failed") err)
    end
  else
    match fst (Extract.POST toLowerCase extractRawText getDocument (inr (Some file))) with
    | Extract.Message _ message =>
        ExtractError (if truthy message then message
                      else lit "Failed to extract file text")
    | Extract.Text text =>
        if (length (trim text) <? 20)%nat
        then ExtractError
               (lit "Extracted text was too short. Try a different file or paste the PRD directly.")
        else PrdSet text
    end.

End Upload.

(** A Word file and a converter that reads it. *)
Definition wordFile : Extract.File :=
  {| Extract.name := lit "Spec.DOCX"; Extract.type := [];
     Extract.size := 2048;
     Extract.text := inl None; Extract.arrayBuffer := inr [80; 75] |}.

Definition wordText (buf : list N) : Extract.failure + jsstring :=
  inr (lit "Build a sign-up" ++ [10; 10; 10] ++ lit "flow for  the tutor app.").

(** ** The confidence badge of [app/page.tsx] *)

Definition atLeast (bound : Z) (score : Q) : bool := Qle_bool (inject_Z bound) score.

Definition confidenceLabel (score : Q) : jsstring :=
  if atLeast 85 score then lit "High"
  else if atLeast 70 score then lit "Medium"
  else if atLeast 50 score then lit "Low"
  else lit "Very low".

Definition confidenceColor (score : Q) : jsstring :=
  if atLeast 70 score then lit "border-sky-200 bg-sky-50 text-sky-900"
  else if atLeast 50 score then lit "border-amber-200 bg-amber-50 text-amber-900"
  else lit "border-rose-200 bg-rose-50 text-rose-900".

(** The ranges are written with an en dash, U+2013. *)
Definition confidenceRange (score : Q) : jsstring :=
  if atLeast 85 score then lit "85" ++ [0x2013] ++ lit "100"
  else if atLeast 70 score then lit "70" ++ [0x2013] ++ lit "84"
  else if atLeast 50 score then lit "50" ++ [0x2013] ++ lit "69"
  else lit "0" ++ [0x2013] ++ lit "49".

(** ** The context block of a prompt, as the page's fields determine it *)

(** What a context line shows for a form field: its text, or the default
    of the route when the field is empty. *)
Definition shown (value fallback : jsstring) : jsstring :=
  if truthy value then value else fallback.

Definition contextBlock (productName targetUser : jsstring) (platform : Platform)
    (constraints releaseDate : jsstring) : jsstring :=
  join [10]
    [ lit "Context fields:";
      lit "- productName: " ++ shown productName (lit "Unnamed product");
      lit "- targetUser: " ++ shown targetUser (lit "Not specified");
      lit "- platform: " ++ showPlatform platform;
      lit "- constraints: " ++ shown constraints (lit "None provided");
      lit "- releaseDate: " ++ shown releaseDate (lit "Not specified");
      [];
      lit "PRD:" ].

(** ** Extracted text in the cleanup *)

(** [cleanPrdText] without the step that joins words hyphenated at a line
    break. *)
Definition cleanWithoutJoin (raw : jsstring) : jsstring :=
  let s := raw in
  let s := map (fun c => if c =? 13 then 10 else c) (replaceCRLF s) in
  let s := filter (fun c => isZeroWidth c = false) s in
  let s := map (fun c => if c =? 0xA0 then 0x20 else c) s in
  let s := map (fun c => if isBullet c then 45 else c) s in
  let s := dropPageMarkers O true s in
  let s := collapseNewlines O s in
  let s := stripLineEnds s in
  trim s.

(** Every line feed is the last character or is followed by a character
    that is neither a letter nor of zero width. *)
Fixpoint guarded (s : jsstring) : bool :=
  match s with
  | [] => true
  | c :: r =>
      (negb (c =? 10)
       || match r with
          | d :: _ => negb (isLetter d) && negb (isZeroWidth d)
          | [] => true
          end)
      && guarded r
  end.

(** What the extract route answers for a text. *)
Definition extracted (raw : jsstring) : jsstring :=
  Extract.truncate (Extract.normalizeText raw) Extract.MAX_EXTRACTED_CHARS.

Definition hyphenatedPages : jsstring :=
  lit "The inter-" ++ [13; 10] ++ lit "face is new." ++ [10; 10] ++ lit "Page 2" ++ [10]
  ++ lit "It ships in May.".

(** * Properties *)

(** ** Lenient decoding ([lib/schema.ts]) *)

Section LeafLemmas.

Import Zod.

Lemma catch_string d v : catch string_ d v = Some (Lenient.leaf_string d v).
Proof. by destruct v as [[]|]. Qed.

Lemma all_some_strings l :
  all_some (map (fun x => string_ (Some x)) l)
  = if forallb Lenient.is_string l
    then Some (map (fun x => Lenient.leaf_string [] (Some x)) l) else None.
Proof.
  induction l as [|x l IH]; [done|].
  cbn [map all_some forallb]. rewrite IH.
  destruct x; simpl; try done. by destruct (forallb _ l).
Qed.

Lemma zStrArr_leaf v : Schema.zStrArr v = Some (Lenient.leaf_strings v).
Proof.
  unfold Schema.zStrArr, catch. f_equal.
  destruct v as [[]|]; try done. simpl.
  rewrite all_some_strings. by destruct (forallb _ _).
Qed.

Lemma zStr_leaf v : Schema.zStr v = Some (Lenient.leaf_string [] v).
Proof. apply catch_string. Qed.

(** An array of records whose members all have fallbacks: the array fails
    only on an element that is not an object. *)
Lemma all_some_records {A} (s : schema A) (f : list (jsstring * json) -> A) l :
  (forall o, s (Some (JObj o)) = Some (f o)) ->
  (forall x, Lenient.is_object x = false -> s (Some x) = None) ->
  all_some (map (fun x => s (Some x)) l)
  = if forallb Lenient.is_object l
    then Some (map (fun x => match x with JObj o => f o | _ => f [] end) l)
    else None.
Proof.
  intros Hobj Hnot. induction l as [|x l IH]; [done|].
  cbn [map all_some forallb]. rewrite IH.
  destruct x; try (rewrite Hnot by done; done).
  rewrite Hobj. simpl. by destruct (forallb _ l).
Qed.

Lemma catch_records {A} (s : schema A) (f : list (jsstring * json) -> A) v :
  (forall o, s (Some (JObj o)) = Some (f o)) ->
  (forall x, Lenient.is_object x = false -> s (Some x) = None) ->
  catch (array s) [] v = Some (Lenient.leaf_records f v).
Proof.
  intros Hobj Hnot. unfold catch. f_equal.
  destruct v as [[]|]; try done. simpl.
  rewrite (all_some_records s f) by done. by destruct (forallb _ _).
Qed.

Lemma PlatformEnum_leaf v : Schema.PlatformEnum v = Some (Lenient.leaf_platform v).
Proof.
  unfold Schema.PlatformEnum, catch. f_equal.
  destruct v as [[]|]; try done. simpl.
  unfold jsstring_eqb.
  repeat (case_bool_decide; simpl; subst; try done).
Qed.

Lemma TicketTypeEnum_leaf v : Schema.TicketTypeEnum v = Some (Lenient.leaf_type v).
Proof.
  unfold Schema.TicketTypeEnum, catch. f_equal.
  destruct v as [[]|]; try done. simpl.
  unfold jsstring_eqb.
  repeat (case_bool_decide; simpl; subst; try done).
Qed.

Lemma PriorityEnum_leaf v : Schema.PriorityEnum v = Some (Lenient.leaf_priority v).
Proof.
  unfold Schema.PriorityEnum, catch. f_equal.
  destruct v as [[]|]; try done. simpl.
  unfold jsstring_eqb.
  repeat (case_bool_decide; simpl; subst; try done).
Qed.

Lemma EstimateEnum_leaf v : Schema.EstimateEnum v = Some (Lenient.leaf_estimate v).
Proof.
  unfold Schema.EstimateEnum, catch. f_equal.
  destruct v as [[]|]; try done. simpl.
  unfold jsstring_eqb.
  repeat (case_bool_decide; simpl; subst; try done).
Qed.

Lemma confidence_leaf v :
  catch (number_min_max 0 100) 70%Q v = Some (Lenient.leaf_confidence v).
Proof.
  unfold catch. f_equal. destruct v as [[]|]; try done. simpl.
  by destruct (_ && _).
Qed.

End LeafLemmas.

Lemma EventSchema_object o :
  Schema.AnalyticsEventSchema (Some (JObj o)) = Some (Lenient.event o).
Proof.
  unfold Schema.AnalyticsEventSchema, Zod.object.
  by rewrite zStr_leaf, zStrArr_leaf.
Qed.

Lemma EventSchema_other x :
  Lenient.is_object x = false -> Schema.AnalyticsEventSchema (Some x) = None.
Proof. by destruct x. Qed.

Lemma TicketAnalyticsSchema_leaf v :
  Schema.TicketAnalyticsSchema v = Some (Lenient.analytics v).
Proof.
  unfold Schema.TicketAnalyticsSchema. unfold Zod.catch at 1. f_equal.
  destruct v as [[]|]; try done. unfold Zod.object.
  by rewrite (catch_records _ Lenient.event _ EventSchema_object EventSchema_other).
Qed.

Lemma TicketQASchema_leaf v : Schema.TicketQASchema v = Some (Lenient.qa v).
Proof.
  unfold Schema.TicketQASchema, Zod.catch. f_equal.
  destruct v as [[]|]; try done. unfold Zod.object.
  by rewrite zStrArr_leaf.
Qed.

Lemma TicketSchema_object o :
  Schema.TicketSchema (Some (JObj o)) = Some (Lenient.ticket o).
Proof.
  unfold Schema.TicketSchema, Zod.object.
  rewrite !zStr_leaf, !zStrArr_leaf, catch_string, TicketTypeEnum_leaf,
    TicketAnalyticsSchema_leaf, TicketQASchema_leaf.
  unfold Zod.catch at 1 2. rewrite PriorityEnum_leaf, EstimateEnum_leaf.
  done.
Qed.

Lemma TicketSchema_other x :
  Lenient.is_object x = false -> Schema.TicketSchema (Some x) = None.
Proof. by destruct x. Qed.

Lemma EpicSchema_object o :
  Schema.EpicSchema (Some (JObj o)) = Some (Lenient.epic o).
Proof.
  unfold Schema.EpicSchema, Zod.object. by rewrite !zStr_leaf, !zStrArr_leaf.
Qed.

Lemma EpicSchema_other x :
  Lenient.is_object x = false -> Schema.EpicSchema (Some x) = None.
Proof. by destruct x. Qed.

Lemma MetaSchema_object m :
  Schema.MetaSchema (Some (JObj m)) = Some (Lenient.meta m).
Proof.
  unfold Schema.MetaSchema, Zod.object.
  by rewrite zStr_leaf, !zStrArr_leaf, PlatformEnum_leaf, confidence_leaf.
Qed.

Lemma SummarySchema_object s :
  Schema.SummarySchema (Some (JObj s)) = Some (Lenient.summary s).
Proof.
  unfold Schema.SummarySchema, Zod.object. by rewrite zStr_leaf, !zStrArr_leaf.
Qed.

(** C1, as amended.  A candidate that is an object whose [meta] and [summary]
    members are objects always decodes, and the result is the plan in which
    every missing or wrong-typed leaf has its default: the empty string for
    strings (["E1"] for a ticket's [epicId]), the empty list for string
    lists and for the lists of epics, tickets and events, [{events: []}] and
    [{testCases: []}] for a ticket's nested records, 70 for the confidence
    and web, task, P2, M for the enumerations. *)
Theorem PlanCoreSchema_lenient (o m s : list (jsstring * json)) :
  get (lit "meta") o = Some (JObj m) ->
  get (lit "summary") o = Some (JObj s) ->
  Schema.PlanCoreSchema (Some (JObj o)) = Some (Lenient.planCore o m s).
Proof.
  intros Hm Hs. unfold Schema.PlanCoreSchema, Zod.object.
  rewrite Hm, Hs, MetaSchema_object, SummarySchema_object.
  rewrite (catch_records _ Lenient.epic _ EpicSchema_object EpicSchema_other).
  rewrite (catch_records _ Lenient.ticket _ TicketSchema_object TicketSchema_other).
  done.
Qed.

Lemma PlanCoreSchema_lenient_witness :
  Schema.PlanCoreSchema (Some (JObj bare_candidate))
  = Some (PlanCore.mk (Meta.mk [] web 70%Q [] []) (Summary.mk [] [] [] [] []) [] []).
Proof.
  by rewrite (PlanCoreSchema_lenient bare_candidate [] []).
Defined.

(** C1 as stated fails: the empty object, a candidate with all leaves
    missing, does not decode at all, because [meta] and [summary] have no
    fallback; and the [epicId] of a ticket, a string field, falls back to
    ["E1"], not to the empty string. *)
Lemma PlanCoreSchema_rejects_empty_object :
  Schema.PlanCoreSchema (Some (JObj [])) = None
  /\ Ticket.epicId <$> Schema.TicketSchema (Some (JObj [])) = Some (lit "E1")
  /\ lit "E1" <> [].
Proof. by vm_compute. Qed.

(** The decoder yields a plan only for an object whose [meta] is an object,
    and the plan's [meta] is then the lenient reading of it. *)
Lemma PlanCoreSchema_meta c p :
  Schema.PlanCoreSchema (Some c) = Some p ->
  exists m, Lenient.member (lit "meta") c = Some (JObj m)
            /\ PlanCore.meta p = Lenient.meta m.
Proof.
  intros Hp. destruct c as [| | | | |o]; try done.
  unfold Schema.PlanCoreSchema, Zod.object in Hp. simpl.
  destruct (get (lit "meta") o) as [[| | | | |m]|] eqn:Hm; try done.
  rewrite MetaSchema_object in Hp. exists m. split; [done|].
  destruct (Schema.SummarySchema _) as [s|]; [|done].
  cbn [mbind option_bind] in Hp.
  destruct (Zod.catch (Zod.array Schema.EpicSchema) _ _) as [es|]; [|done].
  destruct (Zod.catch (Zod.array Schema.TicketSchema) _ _) as [ts|]; [|done].
  by injection Hp as <-.
Qed.

(** C10, as amended.  Whenever the decoder yields a plan for a candidate whose
    [meta.confidence] is missing, not a number, or a number outside 0..100,
    the decoded confidence is 70. *)
Theorem confidence_fallback_70 (c : json) (p : PlanCore.t) :
  Schema.PlanCoreSchema (Some c) = Some p ->
  Lenient.confidence_invalid
    (m ← Lenient.member (lit "meta") c; Lenient.member (lit "confidence") m) ->
  Meta.confidence (PlanCore.meta p) = 70%Q.
Proof.
  intros Hp Hbad.
  destruct (PlanCoreSchema_meta c p Hp) as (m & Hm & ->).
  rewrite Hm in Hbad. simpl in *.
  unfold Lenient.leaf_confidence, Lenient.confidence_invalid in *.
  destruct (get (lit "confidence") m) as [[| |q| | |]|]; try done.
  destruct (Qle_bool 0 q) eqn:H0, (Qle_bool q 100) eqn:H1; try done.
  apply Qle_bool_iff in H0, H1. tauto.
Qed.

Lemma confidence_fallback_70_witness :
  exists p, Schema.PlanCoreSchema (Some overconfident) = Some p
            /\ Meta.confidence (PlanCore.meta p) = 70%Q.
Proof.
  eexists. split; [by vm_compute|].
  apply (confidence_fallback_70 overconfident).
  - by vm_compute.
  - simpl. intros [_ H]. by vm_compute in H.
Defined.

(** C10 as stated fails: a candidate whose confidence is out of range, but
    which has no [summary], yields no plan at all, hence no confidence;
    only [meta.confidence] has a fallback, the [summary] object has none. *)
Lemma confidence_invalid_not_decoded :
  Lenient.confidence_invalid
    (m ← Lenient.member (lit "meta") overconfidentWithoutSummary;
     Lenient.member (lit "confidence") m)
  /\ Schema.PlanCoreSchema (Some overconfidentWithoutSummary) = None.
Proof. split; [|by vm_compute]. simpl. intros [_ H]. by vm_compute in H. Qed.

(** ** Strings: trimming and decimal numbers *)

Lemma trimEnd_idem s : trimEnd (trimEnd s) = trimEnd s.
Proof.
  induction s as [|c r IH]; [done|]. simpl.
  destruct (trimEnd r) as [|d r'] eqn:E.
  - destruct (isSpace c) eqn:Hc; [done|]. simpl. by rewrite Hc.
  - simpl in *. by rewrite IH.
Qed.

Lemma trimStart_idem s : trimStart (trimStart s) = trimStart s.
Proof.
  induction s as [|c r IH]; [done|]. simpl.
  destruct (isSpace c) eqn:Hc; [done|]. simpl. by rewrite Hc.
Qed.

(** A text that does not begin with white space keeps its beginning when
    its end is trimmed. *)
Lemma trimStart_trimEnd s : trimStart s = s -> trimStart (trimEnd s) = trimEnd s.
Proof.
  destruct s as [|c r]; [done|]. simpl.
  destruct (isSpace c) eqn:Hc.
  - intros H. apply (f_equal length) in H. simpl in H.
    assert (length (trimStart r) <= length r)%nat.
    { clear. induction r as [|d r IH]; simpl; [lia|].
      destruct (isSpace d); simpl; lia. }
    lia.
  - intros _. destruct (trimEnd r); simpl; by rewrite Hc.
Qed.

Lemma trim_idem s : trim (trim s) = trim s.
Proof.
  unfold trim.
  rewrite (trimStart_trimEnd (trimStart s)) by apply trimStart_idem.
  apply trimEnd_idem.
Qed.

Lemma trimEnd_no_space s : Forall (fun c => isSpace c = false) s -> trimEnd s = s.
Proof.
  induction 1 as [|c r Hc _ IH]; [done|]. simpl. rewrite IH.
  destruct r; [by rewrite Hc|done].
Qed.

Lemma trim_no_space s : Forall (fun c => isSpace c = false) s -> trim s = s.
Proof.
  intros H. unfold trim.
  assert (trimStart s = s) as ->; [|by apply trimEnd_no_space].
  destruct H as [|c r Hc _]; [done|]. simpl. by rewrite Hc.
Qed.

Lemma digits_no_space u : Forall (fun c => isSpace c = false) (digits u).
Proof. induction u; simpl; by constructor. Qed.

Lemma digits_inj u v : digits u = digits v -> u = v.
Proof.
  revert v. induction u; intros []; simpl; intros H; try done;
    injection H as H; f_equal; auto.
Qed.

Lemma showNat_inj n m : showNat n = showNat m -> n = m.
Proof. intros H. by apply DecimalNat.Unsigned.to_uint_inj, digits_inj. Qed.

(** A generated id: a letter followed by a decimal number. *)
Lemma trim_generated (c : N) n :
  isSpace c = false -> trim (c :: showNat n) = c :: showNat n.
Proof.
  intros Hc. apply trim_no_space. constructor; [done|]. apply digits_no_space.
Qed.

(** ** The id repair ([normalizeIds]) *)

Lemma cond_truthy {A} (s : jsstring) (x y : A) :
  (if truthy s then x else y) = if decide (s = []) then y else x.
Proof. destruct s; by case_decide. Qed.

Lemma normEpics_ids p :
  Epic.epicId <$> normEpics p = imap repairedEpicId (PlanCore.epics p).
Proof.
  unfold normEpics. rewrite fmap_imap. apply imap_ext. intros i e _. simpl.
  unfold repairedEpicId. by rewrite cond_truthy.
Qed.

Lemma normEpics_nil p : normEpics p = [] <-> PlanCore.epics p = [].
Proof. unfold normEpics. by destruct (PlanCore.epics p). Qed.

Lemma repairedEpicId_trimmed i e :
  repairedEpicId i e <> [] /\ trim (repairedEpicId i e) = repairedEpicId i e.
Proof.
  unfold repairedEpicId. case_decide as H.
  - split; [done|]. by apply trim_generated.
  - split; [done|]. apply trim_idem.
Qed.

Lemma repairedTicketId_trimmed i t :
  repairedTicketId i t <> [] /\ trim (repairedTicketId i t) = repairedTicketId i t.
Proof.
  unfold repairedTicketId. case_decide as H.
  - split; [done|]. by apply trim_generated.
  - split; [done|]. apply trim_idem.
Qed.

Lemma imap_elem_of {A B} (f : nat -> A -> B) l y :
  y ∈ imap f l -> exists i x, l !! i = Some x /\ y = f i x.
Proof.
  intros H. apply list_elem_of_lookup in H as [i H].
  rewrite list_lookup_imap in H.
  destruct (l !! i) as [x|] eqn:E; [|done]. injection H as <-. eauto.
Qed.

Lemma normEpics_id_trimmed p id :
  id ∈ Epic.epicId <$> normEpics p -> id <> [] /\ trim id = id.
Proof.
  rewrite normEpics_ids. intros (i & e & _ & ->)%imap_elem_of.
  apply repairedEpicId_trimmed.
Qed.

Lemma firstEpicId_normEpics p :
  firstEpicId (normEpics p) = fallbackEpicId (Epic.epicId <$> normEpics p).
Proof.
  unfold firstEpicId, fallbackEpicId.
  destruct (normEpics p) as [|e l] eqn:E; [done|]. simpl.
  destruct (normEpics_id_trimmed p (Epic.epicId e)) as [Hne _].
  { rewrite E. simpl. left. }
  by destruct (Epic.epicId e).
Qed.

Lemma fallbackEpicId_elem ids : ids <> [] -> fallbackEpicId ids ∈ ids.
Proof. destruct ids; [done|]. intros _. left. Qed.

Lemma normTickets_ticketIds p :
  Ticket.ticketId <$> normTickets p = imap repairedTicketId (PlanCore.tickets p).
Proof.
  unfold normTickets. rewrite fmap_imap. apply imap_ext. intros i t _. simpl.
  unfold repairedTicketId. by rewrite cond_truthy.
Qed.

(** The two-step choice of the source and the one-step wording of the
    specification agree. *)
Lemma normTickets_epicIds p :
  Ticket.epicId <$> normTickets p
  = repairedTicketEpicId (Epic.epicId <$> normEpics p) <$> PlanCore.tickets p.
Proof.
  unfold normTickets. rewrite fmap_imap.
  rewrite <- (imap_const (repairedTicketEpicId (Epic.epicId <$> normEpics p))).
  apply imap_ext.
  intros i t _. simpl. rewrite firstEpicId_normEpics.
  change (map Epic.epicId (normEpics p)) with (Epic.epicId <$> normEpics p).
  set (ids := Epic.epicId <$> normEpics p).
  assert ([] ∉ ids) as Hnil.
  { intros H. by destruct (normEpics_id_trimmed p [] H). }
  unfold repairedTicketEpicId. rewrite cond_truthy.
  case_decide as Hblank.
  - rewrite Hblank. rewrite decide_False by done. by case_bool_decide.
  - case_bool_decide as Hin; rewrite elem_of_list_to_set in Hin; by case_decide.
Qed.

Lemma normTickets_epicId_valid p t :
  PlanCore.epics p <> [] -> t ∈ normTickets p ->
  Ticket.epicId t ∈ Epic.epicId <$> normEpics p.
Proof.
  intros Hne Ht. apply (list_elem_of_fmap_2 Ticket.epicId) in Ht.
  rewrite normTickets_epicIds in Ht.
  apply list_elem_of_fmap in Ht as (t0 & -> & _).
  unfold repairedTicketEpicId. case_decide; [done|].
  apply fallbackEpicId_elem. intros Hnil%fmap_nil_inv. by apply normEpics_nil in Hnil.
Qed.

(** The loop over the tickets: when it ends without a [TypeError], every
    key holds what it held before followed by the ids of its tickets. *)
Lemma groupTickets_inr ts own own' :
  groupTickets ts own = inr own' ->
  forall k, own' !! k
            = match own !! k, ticketsOf k ts with
              | Some l, new => Some (l ++ new)
              | None, [] => None
              | None, new => Some new
              end.
Proof.
  revert own. induction ts as [|t ts IH]; intros own H k; simpl in H.
  - injection H as <-. unfold ticketsOf. simpl.
    destruct (own !! k); by rewrite ?app_nil_r.
  - unfold readSlot in H.
    destruct (own !! Ticket.epicId t) as [l|] eqn:Hl.
    + rewrite (IH _ H k). unfold ticketsOf. rewrite filter_cons.
      destruct (decide (Ticket.epicId t = k)) as [<-|Hk].
      * rewrite lookup_insert_eq, Hl. simpl. by rewrite <- app_assoc.
      * by rewrite lookup_insert_ne.
    + case_bool_decide; [done|].
      rewrite (IH _ H k). unfold ticketsOf. rewrite filter_cons.
      destruct (decide (Ticket.epicId t = k)) as [<-|Hk].
      * rewrite lookup_insert_eq, Hl. simpl. done.
      * by rewrite lookup_insert_ne.
Qed.

Lemma groupTickets_ok ts own :
  Forall (fun t => Ticket.epicId t ∉ objectPrototypeKeys) ts ->
  exists own', groupTickets ts own = inr own'.
Proof.
  intros H. revert own. induction H as [|t ts Ht _ IH]; intros own; simpl; [eauto|].
  unfold readSlot. destruct (own !! Ticket.epicId t); [apply IH|].
  case_bool_decide; [done|apply IH].
Qed.

Lemma attachTickets_inr own es es' :
  attachTickets own es = inr es' ->
  es' = (fun e => setEpicTickets e (default [] (own !! Epic.epicId e))) <$> es.
Proof.
  revert es'. induction es as [|e es IH]; intros es' H; simpl in H.
  - by injection H as <-.
  - unfold readSlot in H. destruct (own !! Epic.epicId e) as [l|] eqn:Hl.
    + destruct (attachTickets own es); [done|]. injection H as <-.
      simpl. rewrite Hl. simpl. f_equal. by apply IH.
    + case_bool_decide; [done|].
      destruct (attachTickets own es); [done|]. injection H as <-.
      simpl. rewrite Hl. simpl. f_equal. by apply IH.
Qed.

Lemma attachTickets_ok own es :
  Forall (fun e => Epic.epicId e ∉ objectPrototypeKeys) es ->
  exists es', attachTickets own es = inr es'.
Proof.
  induction 1 as [|e es He _ [es' IH]]; simpl; [eauto|].
  unfold readSlot. rewrite IH. destruct (own !! Epic.epicId e); [eauto|].
  case_bool_decide; [done|eauto].
Qed.

(** Whatever plan the repair returns is the plan described by
    [repairSpec]. *)
Lemma normalizeIds_Repaired p q : normalizeIds p = Repaired q -> q = repairSpec p.
Proof.
  unfold normalizeIds. intros H.
  destruct (groupTickets _ _) as [|own] eqn:Hg; [done|].
  destruct (attachTickets _ _) as [|es] eqn:Ha; [done|].
  injection H as <-. unfold repairSpec. f_equal.
  rewrite (attachTickets_inr _ _ _ Ha). apply list_fmap_ext. intros _ e _.
  f_equal. rewrite (groupTickets_inr _ _ _ Hg), lookup_empty.
  by destruct (ticketsOf _ _).
Qed.

Lemma generated_not_inherited (c : N) n :
  c = 69 -> c :: showNat n ∉ objectPrototypeKeys.
Proof.
  intros -> H. unfold objectPrototypeKeys in H. simpl in H.
  repeat (apply elem_of_cons in H as [H|H]; [discriminate H|]).
  by apply elem_of_nil in H.
Qed.

Lemma normEpics_protoFree p :
  protoFree p ->
  Forall (fun e => Epic.epicId e ∉ objectPrototypeKeys) (normEpics p).
Proof.
  intros Hp. apply Forall_forall. intros e' He'.
  unfold normEpics in He'. apply imap_elem_of in He' as (i & e & Hi & ->). simpl.
  rewrite cond_truthy. case_decide.
  - by apply generated_not_inherited.
  - unfold protoFree in Hp. rewrite Forall_forall in Hp.
    apply Hp. by eapply list_elem_of_lookup_2.
Qed.

(** The repair returns a plan whenever no epic id is the name of an
    inherited member. *)
Lemma normalizeIds_returns p : protoFree p -> normalizeIds p = Repaired (repairSpec p).
Proof.
  intros Hp. pose proof (normEpics_protoFree p Hp) as He.
  assert (Forall (fun t => Ticket.epicId t ∉ objectPrototypeKeys) (normTickets p)) as Ht.
  { apply Forall_forall. intros t Ht.
    apply (list_elem_of_fmap_2 Ticket.epicId) in Ht.
    rewrite normTickets_epicIds in Ht.
    apply list_elem_of_fmap in Ht as (t0 & -> & _).
    rewrite Forall_forall in He.
    unfold repairedTicketEpicId. case_decide as Hin.
    - apply list_elem_of_fmap in Hin as (e & -> & Hin). by apply He.
    - unfold fallbackEpicId. destruct (normEpics p) as [|e es] eqn:E; simpl.
      + by apply (generated_not_inherited 69 1).
      + apply He. left. }
  destruct (groupTickets_ok _ ∅ Ht) as [own Hg].
  destruct (attachTickets_ok own _ He) as [es Ha].
  assert (normalizeIds p
          = Repaired (PlanCore.mk (PlanCore.meta p) (PlanCore.summary p) es (normTickets p)))
    as H.
  { unfold normalizeIds. by rewrite Hg, Ha. }
  rewrite H. f_equal. by apply normalizeIds_Repaired.
Qed.

(** C2.  The repair pass gives each epic, in order, its trimmed id when that
    is not empty and "E" followed by its 1-based index otherwise; each
    ticket its trimmed id or "T" followed by its 1-based index; and each
    ticket the trimmed epic id it names when that is a repaired epic id,
    else the first epic's repaired id, else "E1".  With at least one epic
    every ticket names a repaired epic id.  These ids are the ones of the
    returned plan, and a plan is returned whenever no epic id is the name of
    a member of [Object.prototype]. *)
Theorem normalizeIds_assigns_ids (p : PlanCore.t) :
  let ids := Epic.epicId <$> normEpics p in
  ids = imap repairedEpicId (PlanCore.epics p)
  /\ Ticket.ticketId <$> normTickets p = imap repairedTicketId (PlanCore.tickets p)
  /\ Ticket.epicId <$> normTickets p = repairedTicketEpicId ids <$> PlanCore.tickets p
  /\ (PlanCore.epics p <> [] -> forall t, t ∈ normTickets p -> Ticket.epicId t ∈ ids)
  /\ (forall q, normalizeIds p = Repaired q ->
        Epic.epicId <$> PlanCore.epics q = ids /\ PlanCore.tickets q = normTickets p)
  /\ (protoFree p -> exists q, normalizeIds p = Repaired q).
Proof.
  repeat split.
  - apply normEpics_ids.
  - apply normTickets_ticketIds.
  - apply normTickets_epicIds.
  - intros. by apply normTickets_epicId_valid.
  - apply normalizeIds_Repaired in H as ->. simpl.
    rewrite <- list_fmap_compose. by apply list_fmap_ext.
  - by apply normalizeIds_Repaired in H as ->.
  - intros Hp. eexists. by apply normalizeIds_returns.
Qed.

Lemma normalizeIds_assigns_ids_witness :
  normalizeIds rawPlan = Repaired repairedRawPlan
  /\ Epic.epicId <$> PlanCore.epics repairedRawPlan = [lit "E1"; lit "E2"]
  /\ forall t, t ∈ normTickets rawPlan ->
               Ticket.epicId t ∈ Epic.epicId <$> normEpics rawPlan.
Proof.
  destruct (normalizeIds_assigns_ids rawPlan) as (_ & _ & _ & Hin & Hq & Hret).
  split; [by vm_compute|]. split; [by vm_compute|].
  apply Hin. by vm_compute.
Defined.

(** In a returned plan every epic lists, in ticket order, the ids of the
    tickets that name it. *)
Lemma normalizeIds_epic_tickets p q e :
  normalizeIds p = Repaired q -> e ∈ PlanCore.epics q ->
  Epic.tickets e = ticketsOf (Epic.epicId e) (PlanCore.tickets q).
Proof.
  intros -> %normalizeIds_Repaired. simpl.
  by intros (e0 & -> & _)%list_elem_of_fmap.
Qed.

(** C3 at the failing input.  For an epic whose id is "constructor" and that
    no ticket names, [ticketsByEpic[e.epicId] ?? []] finds the inherited
    member instead of the empty list, so the returned object is not a plan
    whose epic has an empty ticket list; when a ticket names that epic,
    [.push] throws. *)
Theorem normalizeIds_inherited_member :
  normalizeIds constructorEpicPlan = TicketsNotAList (lit "constructor")
  /\ normalizeIds constructorTicketPlan = PushNotAFunction (lit "constructor").
Proof. by vm_compute. Qed.

(** C4 as stated fails: ids that repeat in the raw plan repeat in the
    repaired plan. *)
Lemma normalizeIds_keeps_duplicates :
  exists q, normalizeIds duplicateIdsPlan = Repaired q
            /\ ~ NoDup (Epic.epicId <$> PlanCore.epics q)
            /\ ~ NoDup (Ticket.ticketId <$> PlanCore.tickets q).
Proof.
  eexists. split; [by vm_compute|]. simpl.
  split; intros H; apply NoDup_cons_1_1 in H; apply H; left.
Qed.

Lemma imap_NoDup {A} (f : nat -> A -> jsstring) (l : list A) :
  (forall i j x y, i <> j -> l !! i = Some x -> l !! j = Some y -> f i x <> f j y) ->
  NoDup (imap f l).
Proof.
  intros Hf. apply NoDup_alt. intros i j s Hi Hj.
  rewrite list_lookup_imap in Hi, Hj.
  destruct (l !! i) as [x|] eqn:Ei; [|done].
  destruct (l !! j) as [y|] eqn:Ej; [|done].
  injection Hi as <-. injection Hj as Hj.
  destruct (decide (i = j)) as [|Hne]; [done|].
  by destruct (Hf i j x y Hne Ei Ej).
Qed.

(** Ids that are repairable become pairwise distinct. *)
Lemma repaired_ids_NoDup {A} (getId : A -> jsstring) (prefix : N) (l : list A) :
  idsRepairable getId prefix l ->
  NoDup (imap (fun idx x => if decide (trim (getId x) = [])
                            then prefix :: showNat (idx + 1)
                            else trim (getId x)) l).
Proof.
  intros [Hdistinct Hfresh]. apply imap_NoDup. intros i j x y Hne Hi Hj.
  repeat case_decide.
  - intros [= Heq%showNat_inj]. lia.
  - intros Heq. symmetry in Heq. revert Heq.
    eapply Hfresh; [by eapply list_elem_of_lookup_2|done..].
  - eapply Hfresh; [by eapply list_elem_of_lookup_2|done..].
  - by eapply Hdistinct.
Qed.

(** C4, as amended.  In a returned plan the ids are the trimmed raw ids
    where present and "E" or "T" followed by the 1-based index where the
    raw id was blank; the epic ids are pairwise distinct when the raw epic
    ids are repairable (the trimmed non-blank ones pairwise distinct and
    none equal to an id generated for a blank one), and likewise the ticket
    ids. *)
Theorem normalizeIds_distinct_ids (p q : PlanCore.t) :
  normalizeIds p = Repaired q ->
  Epic.epicId <$> PlanCore.epics q = imap repairedEpicId (PlanCore.epics p)
  /\ Ticket.ticketId <$> PlanCore.tickets q = imap repairedTicketId (PlanCore.tickets p)
  /\ (idsRepairable Epic.epicId 69 (PlanCore.epics p) ->
      NoDup (Epic.epicId <$> PlanCore.epics q))
  /\ (idsRepairable Ticket.ticketId 84 (PlanCore.tickets p) ->
      NoDup (Ticket.ticketId <$> PlanCore.tickets q)).
Proof.
  intros Hq.
  assert (Epic.epicId <$> PlanCore.epics q = imap repairedEpicId (PlanCore.epics p)) as He.
  { apply normalizeIds_Repaired in Hq as ->. simpl.
    rewrite <- list_fmap_compose, <- normEpics_ids. by apply list_fmap_ext. }
  assert (Ticket.ticketId <$> PlanCore.tickets q
          = imap repairedTicketId (PlanCore.tickets p)) as Ht.
  { apply normalizeIds_Repaired in Hq as ->. apply normTickets_ticketIds. }
  rewrite He, Ht. repeat split.
  - apply (repaired_ids_NoDup Epic.epicId 69).
  - apply (repaired_ids_NoDup Ticket.ticketId 84).
Qed.

Lemma rawPlan_ids_repairable :
  idsRepairable Epic.epicId 69 (PlanCore.epics rawPlan)
  /\ idsRepairable Ticket.ticketId 84 (PlanCore.tickets rawPlan).
Proof.
  split; split.
  - intros [|[|i]] [|[|j]] x y Hne [= <-] [= <-]; done.
  - intros x [|[|k]] y Hx [= <-] Hblank; vm_compute in Hblank; try done.
    simpl in Hx. repeat (apply elem_of_cons in Hx as [->|Hx]; [done|]).
    by apply elem_of_nil in Hx.
  - intros [|[|[|i]]] [|[|[|j]]] x y Hne [= <-] [= <-]; done.
  - intros x [|[|[|k]]] y Hx [= <-] Hblank; vm_compute in Hblank; try done.
    simpl in Hx. repeat (apply elem_of_cons in Hx as [->|Hx]; [done|]).
    by apply elem_of_nil in Hx.
Qed.

Lemma normalizeIds_distinct_ids_witness :
  NoDup (Epic.epicId <$> PlanCore.epics repairedRawPlan)
  /\ NoDup (Ticket.ticketId <$> PlanCore.tickets repairedRawPlan).
Proof.
  assert (normalizeIds rawPlan = Repaired repairedRawPlan) as H by by vm_compute.
  destruct (normalizeIds_distinct_ids rawPlan repairedRawPlan H) as (_ & _ & He & Ht).
  destruct rawPlan_ids_repairable as [Hre Hrt].
  split; [by apply He|by apply Ht].
Defined.

(** *** Idempotence *)

Lemma groupTickets_no_inherited ts own own' :
  groupTickets ts own = inr own' ->
  (forall k, k ∈ objectPrototypeKeys -> own !! k = None) ->
  forall k, k ∈ objectPrototypeKeys -> own' !! k = None.
Proof.
  revert own. induction ts as [|t ts IH]; intros own H Hown; simpl in H.
  - by injection H as <-.
  - unfold readSlot in H.
    destruct (own !! Ticket.epicId t) as [l|] eqn:Hl.
    + apply (IH _ H). intros k Hk. rewrite lookup_insert_ne; [by apply Hown|].
      intros <-. by rewrite (Hown _ Hk) in Hl.
    + case_bool_decide as Hin; [done|].
      apply (IH _ H). intros k Hk. rewrite lookup_insert_ne; [by apply Hown|].
      by intros <-.
Qed.

Lemma attachTickets_inr_free own es es' :
  attachTickets own es = inr es' ->
  (forall k, k ∈ objectPrototypeKeys -> own !! k = None) ->
  Forall (fun e => Epic.epicId e ∉ objectPrototypeKeys) es.
Proof.
  intros H Hown. revert es' H. induction es as [|e es IH]; intros es' H; [done|].
  simpl in H. unfold readSlot in H.
  destruct (own !! Epic.epicId e) as [l|] eqn:Hl.
  - destruct (attachTickets own es) eqn:Ha; [done|]. constructor; [|by eapply IH].
    intros Hk. by rewrite (Hown _ Hk) in Hl.
  - case_bool_decide as Hin; [done|].
    destruct (attachTickets own es) eqn:Ha; [done|]. constructor; [done|by eapply IH].
Qed.

(** A plan is returned only when no repaired epic id is the name of an
    inherited member. *)
Lemma normalizeIds_Repaired_free p q :
  normalizeIds p = Repaired q ->
  Forall (fun e => Epic.epicId e ∉ objectPrototypeKeys) (normEpics p).
Proof.
  unfold normalizeIds. intros H.
  destruct (groupTickets _ _) as [|own] eqn:Hg; [done|].
  destruct (attachTickets _ _) as [|es] eqn:Ha; [done|].
  apply (attachTickets_inr_free _ _ _ Ha).
  apply (groupTickets_no_inherited _ _ _ Hg). intros k _. apply lookup_empty.
Qed.

Lemma imap_fixed {A} (f : nat -> A -> A) (l : list A) :
  (forall i x, l !! i = Some x -> f i x = x) -> imap f l = l.
Proof.
  intros Hf. apply list_eq. intros i. rewrite list_lookup_imap.
  destruct (l !! i) as [x|] eqn:E; [|done]. simpl. by rewrite (Hf i x E).
Qed.

Lemma normEpics_eq p :
  normEpics p = imap (fun i e => setEpicId e (repairedEpicId i e)) (PlanCore.epics p).
Proof.
  unfold normEpics. apply imap_ext. intros i e _. simpl.
  unfold repairedEpicId. by rewrite cond_truthy.
Qed.

Lemma normTickets_eq p :
  normTickets p
  = imap (fun i t => setTicketIds t (repairedTicketId i t)
                       (repairedTicketEpicId (Epic.epicId <$> normEpics p) t))
         (PlanCore.tickets p).
Proof.
  apply list_eq. intros i.
  pose proof (f_equal (fun l => l !! i) (normTickets_ticketIds p)) as Hid.
  pose proof (f_equal (fun l => l !! i) (normTickets_epicIds p)) as Heid.
  simpl in Hid, Heid. rewrite list_lookup_fmap, list_lookup_imap in Hid.
  rewrite !list_lookup_fmap in Heid. rewrite list_lookup_imap.
  unfold normTickets in *. rewrite list_lookup_imap in *.
  destruct (PlanCore.tickets p !! i) as [t|]; [|done]. simpl in *.
  injection Hid as Hid. injection Heid as Heid. by rewrite Hid, Heid.
Qed.

Lemma setEpicId_same e : setEpicId e (Epic.epicId e) = e.
Proof. by destruct e. Qed.

Lemma setTicketIds_same t : setTicketIds t (Ticket.ticketId t) (Ticket.epicId t) = t.
Proof. by destruct t. Qed.

Lemma repairedTicketEpicId_stable ids t0 t :
  (forall id, id ∈ ids -> trim id = id) ->
  Ticket.epicId t = repairedTicketEpicId ids t0 ->
  repairedTicketEpicId ids t = Ticket.epicId t.
Proof.
  intros Hids Ht. unfold repairedTicketEpicId in *.
  destruct (decide (trim (Ticket.epicId t0) ∈ ids)) as [Hin|Hnot].
  - rewrite Ht, trim_idem. by rewrite decide_True.
  - assert (trim (Ticket.epicId t) = Ticket.epicId t) as ->.
    { rewrite Ht. unfold fallbackEpicId. destruct ids as [|id ids]; [done|].
      apply Hids. left. }
    by case_decide.
Qed.

(** The epics and tickets of a returned plan are left as they are by a
    second repair. *)
Lemma repairSpec_epics_fixed p :
  normEpics (repairSpec p) = PlanCore.epics (repairSpec p).
Proof.
  rewrite normEpics_eq. apply imap_fixed. intros i e He. simpl in He.
  apply list_elem_of_lookup_2, list_elem_of_fmap in He as (e0 & -> & He0).
  destruct (normEpics_id_trimmed p (Epic.epicId e0)) as [Hne Htrim].
  { by apply list_elem_of_fmap_2. }
  unfold repairedEpicId. simpl. rewrite Htrim. rewrite decide_False by done.
  by destruct e0.
Qed.

Lemma repairSpec_ids p :
  Epic.epicId <$> PlanCore.epics (repairSpec p) = Epic.epicId <$> normEpics p.
Proof. simpl. rewrite <- list_fmap_compose. by apply list_fmap_ext. Qed.

Lemma repairSpec_tickets_fixed p :
  normTickets (repairSpec p) = normTickets p.
Proof.
  rewrite normTickets_eq, repairSpec_epics_fixed, repairSpec_ids.
  change (PlanCore.tickets (repairSpec p)) with (normTickets p).
  apply imap_fixed. intros i t Ht.
  pose proof Ht as Ht'. rewrite normTickets_eq, list_lookup_imap in Ht'.
  destruct (PlanCore.tickets p !! i) as [t0|]; [|done]. injection Ht' as Ht'.
  assert (repairedTicketId i t = Ticket.ticketId t) as ->.
  { rewrite <- Ht'. simpl. destruct (repairedTicketId_trimmed i t0) as [Hne Htrim].
    unfold repairedTicketId at 1. simpl. rewrite Htrim. by rewrite decide_False. }
  rewrite (repairedTicketEpicId_stable _ t0).
  - apply setTicketIds_same.
  - intros id Hid. by apply (normEpics_id_trimmed p).
  - by rewrite <- Ht'.
Qed.

Lemma repairSpec_idem p : repairSpec (repairSpec p) = repairSpec p.
Proof.
  unfold repairSpec at 1.
  rewrite repairSpec_tickets_fixed, repairSpec_epics_fixed.
  unfold repairSpec. f_equal. simpl.
  rewrite <- list_fmap_compose. by apply list_fmap_ext.
Qed.

Lemma repairSpec_protoFree p q : normalizeIds p = Repaired q -> protoFree q.
Proof.
  intros H. pose proof (normalizeIds_Repaired_free p q H) as Hfree.
  apply normalizeIds_Repaired in H as ->.
  unfold protoFree. apply Forall_forall. intros e He. simpl in He.
  apply list_elem_of_fmap in He as (e0 & -> & He0). simpl.
  destruct (normEpics_id_trimmed p (Epic.epicId e0)) as [_ ->].
  { by apply list_elem_of_fmap_2. }
  rewrite Forall_forall in Hfree. by apply Hfree.
Qed.

(** C5.  Repairing a repaired plan returns that same plan.  The repair is a
    function of its argument alone: it is deterministic and builds its
    result without touching the plan it is given. *)
Theorem normalizeIds_idempotent (p q : PlanCore.t) :
  normalizeIds p = Repaired q -> normalizeIds q = Repaired q.
Proof.
  intros H. rewrite (normalizeIds_returns q) by by eapply repairSpec_protoFree.
  apply normalizeIds_Repaired in H as ->. by rewrite repairSpec_idem.
Qed.

Lemma normalizeIds_idempotent_witness :
  normalizeIds rawPlan = Repaired repairedRawPlan
  /\ normalizeIds repairedRawPlan = Repaired repairedRawPlan.
Proof.
  assert (normalizeIds rawPlan = Repaired repairedRawPlan) as H by by vm_compute.
  split; [done|]. exact (normalizeIds_idempotent rawPlan repairedRawPlan H).
Defined.

(** ** The generation protocol ([POST]) *)

Lemma trimEnd_app (a b : jsstring) : trimEnd b <> [] -> trimEnd (a ++ b) = a ++ trimEnd b.
Proof.
  intros Hb. induction a as [|c a IH]; [done|]. simpl. rewrite IH.
  by destruct (a ++ trimEnd b) eqn:E; [apply app_eq_nil in E as [_ ?]|].
Qed.

Lemma retrySection_parts msg : retrySection msg = retryHead ++ msg ++ retryTail.
Proof. reflexivity. Qed.

Lemma trimEnd_retrySection msg :
  trimEnd (retrySection msg ++ [10]) = retrySection msg
  /\ retrySection msg <> [].
Proof.
  split; [|done]. rewrite retrySection_parts, <- !app_assoc.
  assert (trimEnd (retryTail ++ [10]) = retryTail) as Htail by by vm_compute.
  assert (trimEnd (msg ++ retryTail ++ [10]) = msg ++ retryTail) as Hmid.
  { rewrite trimEnd_app by by rewrite Htail. by rewrite Htail. }
  rewrite trimEnd_app; rewrite Hmid; [done|].
  intros H. by apply app_eq_nil in H as [_ H].
Qed.

(** A prompt begins with the letter of "You are". *)
Lemma buildPrompt_head input cleaned :
  exists rest, buildPrompt input cleaned = 89 :: rest.
Proof.
  unfold buildPrompt, trim. cbn [join].
  change (trimStart ([] ++ [10] ++ lit "You are a PRD-to-Ticket agent." ++ ?x))
    with (89 :: (lit "ou are a PRD-to-Ticket agent." ++ x)).
  match goal with |- context [trimEnd (89 :: ?r)] =>
    change (trimEnd (89 :: r))
      with (match trimEnd r with [] => [89] | r' => 89 :: r' end);
    destruct (trimEnd r); eauto
  end.
Qed.

(** The retry prompt is the first prompt with the retry section appended. *)
Lemma retryPrompt_appends input cleaned msg :
  retryPrompt (buildPrompt input cleaned) msg
  = buildPrompt input cleaned ++ retrySection msg.
Proof.
  destruct (buildPrompt_head input cleaned) as [rest ->].
  unfold retryPrompt, trim.
  transitivity (trimEnd ((89 :: rest) ++ retrySection msg ++ [10])); [done|].
  destruct (trimEnd_retrySection msg) as [Hend Hne].
  rewrite (trimEnd_app (89 :: rest)); by rewrite Hend.
Qed.

(** The text of the retry section, around the error message. *)
Lemma retrySection_text msg :
  retrySection msg
  = [10; 10]
    ++ lit "IMPORTANT:" ++ [10]
    ++ lit "A previous attempt failed schema validation with this error:" ++ [10]
    ++ msg ++ [10; 10]
    ++ lit "Fix it by ensuring:" ++ [10]
    ++ lit "- Every ticket includes epicId and it matches an existing epicId (E1, E2, ...)"
    ++ [10]
    ++ lit "- No keys are omitted anywhere" ++ [10]
    ++ lit "- acceptanceCriteria has 3+ items for every ticket" ++ [10]
    ++ lit "- qa.testCases has 2+ items for every ticket" ++ [10]
    ++ lit "- analytics.events has at least 1 event for every ticket".
Proof. reflexivity. Qed.

Ltac protocol_split :=
  repeat split; try (simpl; lia); try (by repeat constructor).

Section Protocol.

Variable generateText : nat -> jsstring -> Q -> thrown + PlanCore.t.
Variable messageOf : builtinError -> jsstring.
Variable numberToString : Q -> jsstring.

(** C6.  A request makes no oracle invocation when it is invalid, one when
    the first invocation returns, and two when the first raises; there is
    never a third.  Every invocation is at temperature zero.  The second
    prompt is the first one followed by a section that cites the message of
    the first error (the word unknown when it has none) and restates the
    rules on epic ids, omitted keys and minimum list lengths, in the text
    given below; when the second invocation raises as well the answer is
    the failure payload with that error's message. *)
Theorem POST_retry_protocol (body : option json) :
  let '(resp, log) := POST generateText messageOf numberToString body in
  (length log <= 2)%nat
  /\ Forall (fun c => Call.temperature c = 0%Q) log
  /\ match body ≫= (fun j => PlanRequestSchema (Some j)) with
     | None => log = []
     | Some input =>
         let prompt := buildPrompt input (cleanPrdText (PlanRequest.prd input)) in
         match generateText 0 prompt 0%Q with
         | inr _ => log = [Call.mk prompt 0%Q]
         | inl err =>
             let retry :=
               prompt ++ [10; 10]
               ++ lit "IMPORTANT:" ++ [10]
               ++ lit "A previous attempt failed schema validation with this error:"
               ++ [10]
               ++ default (lit "unknown") err ++ [10; 10]
               ++ lit "Fix it by ensuring:" ++ [10]
               ++ lit "- Every ticket includes epicId and it matches an existing epicId (E1, E2, ...)"
               ++ [10]
               ++ lit "- No keys are omitted anywhere" ++ [10]
               ++ lit "- acceptanceCriteria has 3+ items for every ticket" ++ [10]
               ++ lit "- qa.testCases has 2+ items for every ticket" ++ [10]
               ++ lit "- analytics.events has at least 1 event for every ticket" in
             log = [Call.mk prompt 0%Q; Call.mk retry 0%Q]
             /\ forall err2,
                 generateText 1 retry 0%Q = inl err2 ->
                 resp = Json500 (lit "PLAN_GENERATION_FAILED")
                          (default (lit "Unknown error generating plan.") err2)
         end
     end.
Proof.
  unfold POST. destruct body as [j|]; [|by protocol_split].
  change (Some j ≫= (fun j => PlanRequestSchema (Some j)))
    with (PlanRequestSchema (Some j)).
  destruct (PlanRequestSchema (Some j)) as [input|]; [|by protocol_split].
  unfold generate, tryCatch, generatePlanObject. cbn [length app].
  destruct (generateText 0 _ _) as [err|output] eqn:Hfirst.
  - rewrite retryPrompt_appends, retrySection_text.
    destruct (generateText 1 _ _) as [err2|output] eqn:Hsecond.
    + protocol_split. by intros ? [= <-].
    + destruct (assemble _ _ _); by protocol_split.
  - destruct (assemble _ _ _); by protocol_split.
Qed.

End Protocol.

Lemma POST_retry_protocol_witness :
  POST failingOracle plainMessages integerToString (Some sampleRequest)
  = (Json500 (lit "PLAN_GENERATION_FAILED") (lit "rate limit"),
     let prompt := buildPrompt sampleInput (cleanPrdText (PlanRequest.prd sampleInput)) in
     [Call.mk prompt 0%Q;
      Call.mk
        (prompt ++ [10; 10]
         ++ lit "IMPORTANT:" ++ [10]
         ++ lit "A previous attempt failed schema validation with this error:" ++ [10]
         ++ lit "rate limit" ++ [10; 10]
         ++ lit "Fix it by ensuring:" ++ [10]
         ++ lit "- Every ticket includes epicId and it matches an existing epicId (E1, E2, ...)"
         ++ [10]
         ++ lit "- No keys are omitted anywhere" ++ [10]
         ++ lit "- acceptanceCriteria has 3+ items for every ticket" ++ [10]
         ++ lit "- qa.testCases has 2+ items for every ticket" ++ [10]
         ++ lit "- analytics.events has at least 1 event for every ticket") 0%Q]).
Proof.
  pose proof (POST_retry_protocol failingOracle plainMessages integerToString
                (Some sampleRequest)) as H.
  destruct (POST _ _ _ _) as [resp log].
  destruct H as (_ & _ & H).
  change (Some sampleRequest ≫= (fun j => PlanRequestSchema (Some j)))
    with (Some sampleInput) in H.
  simpl in H. destruct H as [-> H]. by rewrite (H _ eq_refl).
Defined.

(** ** The issue links ([lib/linear.ts]) *)

Lemma hexDigit_not_percent d : Linear.hexDigit d <> 37.
Proof. unfold Linear.hexDigit. destruct (d <? 10) eqn:E; lia. Qed.

Lemma plusForSpace_other c s : c <> 37 -> Linear.plusForSpace (c :: s) = c :: Linear.plusForSpace s.
Proof.
  intros Hc. apply N.eqb_neq in Hc.
  destruct s as [|d [|e r]]; simpl; by rewrite ?Hc.
Qed.

(** An escaped octet other than the space is left alone by the
    replacement. *)
Lemma plusForSpace_percent b s :
  b <> 32 ->
  Linear.plusForSpace (Linear.percent b ++ s) = Linear.percent b ++ Linear.plusForSpace s.
Proof.
  intros Hb. unfold Linear.percent. cbn [app].
  assert ((Linear.hexDigit (b / 16) =? 50) && (Linear.hexDigit (b mod 16) =? 48) = false) as Hno.
  { apply andb_false_iff.
    destruct (Linear.hexDigit (b / 16) =? 50) eqn:H1; [|by left].
    destruct (Linear.hexDigit (b mod 16) =? 48) eqn:H2; [|by right].
    exfalso. apply Hb. apply N.eqb_eq in H1, H2.
    unfold Linear.hexDigit in H1, H2.
    destruct (b / 16 <? 10) eqn:E1; destruct (b mod 16 <? 10) eqn:E2;
      apply N.ltb_lt in E1 || apply N.ltb_ge in E1;
      apply N.ltb_lt in E2 || apply N.ltb_ge in E2;
      pose proof (N.div_mod b 16); lia. }
  change (Linear.plusForSpace (37 :: ?h1 :: ?h2 :: s))
    with (if (37 =? 37) && (h1 =? 50) && (h2 =? 48) then 43 :: Linear.plusForSpace s
          else 37 :: Linear.plusForSpace (h1 :: h2 :: s)).
  rewrite <- andb_assoc, Hno, andb_false_r.
  by rewrite !plusForSpace_other by apply hexDigit_not_percent.
Qed.

Lemma high_octet_not_space a b : 128 <= a -> a + b <> 32.
Proof. lia. Qed.

Lemma plusForSpace_escape cp s :
  cp <> 32 ->
  Linear.plusForSpace (Linear.escape cp ++ s) = Linear.escape cp ++ Linear.plusForSpace s.
Proof.
  intros Hcp. unfold Linear.escape, Linear.utf8.
  repeat (case_match; [rewrite N.ltb_lt in *|rewrite N.ltb_ge in *]);
    cbn [map concat]; rewrite ?app_nil_r, <- ?app_assoc;
    rewrite !plusForSpace_percent; try done; by apply high_octet_not_space.
Qed.

Lemma plusForSpace_space s :
  Linear.plusForSpace (Linear.escape 32 ++ s) = 43 :: Linear.plusForSpace s.
Proof. reflexivity. Qed.

Lemma unreserved_not_percent c : Linear.isUnreserved c = true -> c <> 37 /\ c <> 32.
Proof.
  unfold Linear.isUnreserved, isLetter, isDigit. intros H.
  split; intros ->; by vm_compute in H.
Qed.

Lemma unreserved_not_surrogate c :
  Linear.isUnreserved c = true ->
  Linear.isTrailSurrogate c = false /\ Linear.isLeadSurrogate c = false.
Proof.
  unfold Linear.isUnreserved, isLetter, isDigit, Linear.isTrailSurrogate,
    Linear.isLeadSurrogate. intros H.
  split; apply andb_false_iff; rewrite !N.leb_gt;
    repeat (apply orb_prop in H as [H|H]);
    try (apply andb_prop in H as [H1 H2]; apply N.leb_le in H1, H2);
    try (apply N.eqb_eq in H); lia.
Qed.

Lemma surrogatePair_not_space c d : Linear.surrogatePair c d <> 32.
Proof. unfold Linear.surrogatePair. lia. Qed.

(** The encoder followed by the replacement is the form encoding, on every
    well-formed text; on any other text the encoder throws. *)
Lemma encodeForQuery_spec s :
  Linear.encodeForQuery s = if isWellFormed s then Some (formEncode s) else None.
Proof.
  remember (length s) as n eqn:Hn. revert s Hn.
  induction n as [n IH] using lt_wf_ind. intros s ->.
  destruct s as [|c r]; [done|].
  assert (forall r0, (length r0 < length (c :: r))%nat ->
            Linear.encodeForQuery r0
            = if isWellFormed r0 then Some (formEncode r0) else None) as IH'.
  { intros r0 Hlt. by eapply IH. }
  clear IH. unfold Linear.encodeForQuery in *.
  cbn [Linear.encodeURIComponent isWellFormed formEncode].
  destruct (Linear.isUnreserved c) eqn:Hu.
  - destruct (unreserved_not_percent c Hu) as [H37 H32].
    destruct (unreserved_not_surrogate c Hu) as [-> ->].
    apply N.eqb_neq in H32. rewrite H32.
    specialize (IH' r ltac:(simpl; lia)).
    destruct (Linear.encodeURIComponent r) as [e|];
      cbn [fmap option_fmap option_map] in *;
      destruct (isWellFormed r); try done.
    injection IH' as <-. by rewrite plusForSpace_other.
  - destruct (Linear.isTrailSurrogate c) eqn:Ht; [done|].
    destruct (Linear.isLeadSurrogate c) eqn:Hl.
    + assert ((c =? 32) = false) as ->.
      { apply N.eqb_neq. intros ->. by vm_compute in Hl. }
      destruct r as [|d r']; [done|].
      destruct (Linear.isTrailSurrogate d) eqn:Hd; [|done]. cbn [andb].
      specialize (IH' r' ltac:(simpl; lia)).
      destruct (Linear.encodeURIComponent r') as [e|];
        cbn [fmap option_fmap option_map] in *;
        destruct (isWellFormed r'); try done.
      injection IH' as <-.
      by rewrite plusForSpace_escape by apply surrogatePair_not_space.
    + specialize (IH' r ltac:(simpl; lia)).
      destruct (Linear.encodeURIComponent r) as [e|];
        cbn [fmap option_fmap option_map] in *;
        destruct (isWellFormed r); destruct (c =? 32) eqn:Hc; try done;
        injection IH' as <-.
      * apply N.eqb_eq in Hc as ->. by rewrite plusForSpace_space.
      * apply N.eqb_neq in Hc. by rewrite plusForSpace_escape.
Qed.

Lemma buildLinearNewUrl_spec title description :
  Linear.buildLinearNewUrl title description
  = if isWellFormed title && isWellFormed description
    then Some (lit "https://linear.new?title=" ++ formEncode title
               ++ lit "&description=" ++ formEncode description)
    else None.
Proof.
  unfold Linear.buildLinearNewUrl. rewrite !encodeForQuery_spec.
  by destruct (isWellFormed title), (isWellFormed description).
Qed.

Lemma buildLinearLinks_spec tickets :
  Linear.buildLinearLinks tickets
  = if forallb linkable tickets then Some (linearLink <$> tickets) else None.
Proof.
  induction tickets as [|t ts IH]; [done|].
  cbn [Linear.buildLinearLinks forallb]. rewrite buildLinearNewUrl_spec, IH.
  change (isWellFormed (Ticket.title t) && isWellFormed _) with (linkable t).
  destruct (linkable t); cbn [mbind option_bind andb]; [|done].
  by destruct (forallb _ _).
Qed.

(** C7, as amended.  When the title and the issue body of every ticket are
    well-formed UTF-16, the builder returns exactly one link per ticket, in
    ticket order, each carrying the ticket's id and the fixed new-issue
    endpoint with the title and the body form-encoded (UTF-8
    percent-escapes, each space as [+]). *)
Theorem buildLinearLinks_one_per_ticket (tickets : list Ticket.t) :
  Forall (fun t => linkable t = true) tickets ->
  Linear.buildLinearLinks tickets = Some (linearLink <$> tickets)
  /\ length (linearLink <$> tickets) = length tickets
  /\ LinearLink.ticketId <$> (linearLink <$> tickets) = Ticket.ticketId <$> tickets.
Proof.
  intros H. rewrite buildLinearLinks_spec.
  assert (forallb linkable tickets = true) as ->.
  { induction H as [|t ts Ht _ IH]; [done|]. simpl. by rewrite Ht, IH. }
  repeat split; [by rewrite length_fmap|].
  rewrite <- list_fmap_compose. by apply list_fmap_ext.
Qed.

Lemma buildLinearLinks_one_per_ticket_witness :
  Linear.buildLinearLinks (PlanCore.tickets repairedRawPlan)
  = Some (linearLink <$> PlanCore.tickets repairedRawPlan).
Proof.
  apply (buildLinearLinks_one_per_ticket (PlanCore.tickets repairedRawPlan)).
  repeat constructor; by vm_compute.
Defined.

(** C7 as stated fails: on a repaired plan with a title that holds an
    unpaired surrogate [encodeURIComponent] throws and no link is built. *)
Lemma buildLinearLinks_throws_on_lone_surrogate :
  normalizeIds brokenTitlePlan = Repaired brokenTitlePlan
  /\ Linear.buildLinearLinks (PlanCore.tickets brokenTitlePlan) = None.
Proof. by vm_compute. Qed.

(** ** The renderings ([lib/markdown.ts] and the ticket card) *)

Lemma includes_skip pat a s : includes pat s = true -> includes pat (a ++ s) = true.
Proof.
  intros H. induction a as [|c a IH]; [done|].
  simpl. rewrite IH. apply orb_true_r.
Qed.

Lemma ticket_in_planLines numberToString plan t :
  t ∈ Plan.tickets plan ->
  Markdown.ticketToMarkdown t ∈ Markdown.planLines numberToString plan.
Proof.
  intros Ht. unfold Markdown.planLines.
  repeat (apply elem_of_app; right).
  apply list_elem_of_In, in_concat.
  exists [Markdown.ticketToMarkdown t; []; lit "---"; []]. split; [|by left].
  apply in_map_iff. exists t. split; [done|]. by apply list_elem_of_In.
Qed.

(** C8, as amended.  For a ticket with no dependencies and nothing out of
    scope, the ticket card shows "- None" under "Dependencies:" and under
    "Out of scope:"; the block of the Markdown export for that ticket, which
    is one of the lines of the export, has neither section: after the
    acceptance criteria comes the QA section. *)
Theorem none_on_card_sections_omitted_in_export
    (numberToString : Q -> jsstring) (plan : Plan.t) (t : Ticket.t) :
  t ∈ Plan.tickets plan ->
  Ticket.dependencies t = [] ->
  Ticket.outOfScope t = [] ->
  includes noneSections (Page.ticketToMarkdown t) = true
  /\ Markdown.ticketToMarkdown t ∈ Markdown.planLines numberToString plan
  /\ Markdown.ticketToMarkdown t
     = join [10]
         ([lit "### " ++ Ticket.ticketId t ++ lit " - " ++ Ticket.title t;
           lit "Type: " ++ showTicketType (Ticket.type t)
             ++ lit " | Priority: " ++ showPriority (Ticket.priority t)
             ++ lit " | Estimate: " ++ showEstimate (Ticket.estimate t);
           [];
           lit "User story: " ++ Ticket.userStory t;
           [];
           Ticket.description t;
           [];
           lit "Acceptance criteria:"]
          ++ bullets (Ticket.acceptanceCriteria t)
          ++ [[]; lit "QA test cases:"]
          ++ bullets (TicketQA.testCases (Ticket.qa t))
          ++ [[]; lit "Analytics events:"]
          ++ concat (map (fun ev => (lit "- " ++ AnalyticsEvent.name ev)
                                    :: map (fun p => lit "  - " ++ p)
                                         (AnalyticsEvent.properties ev))
                         (TicketAnalytics.events (Ticket.analytics t)))).
Proof.
  intros Ht Hdeps Hoos. split; [|split].
  - unfold Page.ticketToMarkdown. rewrite Hdeps, Hoos.
    do 25 apply includes_skip. by vm_compute.
  - by apply ticket_in_planLines.
  - unfold Markdown.ticketToMarkdown, Markdown.ticketParts.
    by rewrite Hdeps, Hoos.
Qed.

Lemma none_on_card_sections_omitted_in_export_witness :
  includes noneSections (Page.ticketToMarkdown loneTicket) = true
  /\ Markdown.ticketToMarkdown loneTicket ∈ Markdown.planLines integerToString lonePlan.
Proof.
  destruct (none_on_card_sections_omitted_in_export integerToString lonePlan loneTicket)
    as (Hcard & Hin & _); [left|done|done|].
  by split.
Defined.

(** C8 as stated fails: the Markdown export of a plan whose only ticket has
    no dependencies and nothing out of scope contains no "None" at all, and
    neither heading. *)
Lemma markdown_export_has_no_None :
  Ticket.dependencies loneTicket = [] /\ Ticket.outOfScope loneTicket = []
  /\ includes (lit "None") (Markdown.planToMarkdown integerToString lonePlan) = false
  /\ includes (lit "Dependencies:") (Markdown.planToMarkdown integerToString lonePlan) = false
  /\ includes (lit "Out of scope:") (Markdown.planToMarkdown integerToString lonePlan) = false.
Proof. by vm_compute. Qed.

(** ** The text cleanup ([cleanPrdText]) *)

(** C9 as stated fails: of two chained hyphenations only the first is
    joined in one pass, and lines of blanks leave a run of three newlines
    behind; a second pass changes both texts. *)
Lemma cleanPrdText_not_idempotent :
  cleanPrdText (cleanPrdText chainedHyphens) <> cleanPrdText chainedHyphens
  /\ cleanPrdText (cleanPrdText blankLines) <> cleanPrdText blankLines.
Proof. by vm_compute. Qed.

Lemma join_cons_cons sep (c : N) (l : jsstring) ls :
  join sep ((c :: l) :: ls) = c :: join sep (l :: ls).
Proof. by destruct ls. Qed.

Lemma splitLines_not_nil s : splitLines s <> [].
Proof.
  destruct s as [|c r]; [done|]. simpl.
  destruct (c =? 10); [done|]. by destruct (splitLines r).
Qed.

Lemma splitLines_no_newline s l : l ∈ splitLines s -> 10 ∉ l.
Proof.
  revert l. induction s as [|c r IH]; intros l Hl; simpl in Hl.
  - apply list_elem_of_singleton in Hl as ->. apply not_elem_of_nil.
  - destruct (c =? 10) eqn:Hc.
    + apply elem_of_cons in Hl as [->|Hl]; [apply not_elem_of_nil|by apply IH].
    + destruct (splitLines r) as [|l0 ls] eqn:E; [by destruct (splitLines_not_nil r)|].
      apply elem_of_cons in Hl as [->|Hl].
      * apply not_elem_of_cons. split; [by apply N.eqb_neq in Hc|]. apply IH. left.
      * apply IH. by right.
Qed.

Lemma trimEnd_head (s : jsstring) : trimEnd s <> [] -> head (trimEnd s) = head s.
Proof.
  destruct s as [|c r]; [done|]. simpl.
  destruct (trimEnd r); [|done]. by destruct (isSpace c).
Qed.

Lemma trimEnd_subset (s : jsstring) c : c ∈ trimEnd s -> c ∈ s.
Proof.
  revert c. induction s as [|d r IH]; intros c Hc; [done|]. simpl in Hc.
  destruct (trimEnd r) as [|e r'] eqn:E.
  - destruct (isSpace d); [by apply elem_of_nil in Hc|].
    apply list_elem_of_singleton in Hc as ->. left.
  - apply elem_of_cons in Hc as [->|Hc]; [left|right; by apply IH].
Qed.

(** The lines of a text, stripped of trailing white space and joined again:
    what the text is when its first character is not a newline. *)
Lemma stripLineEnds_cons c r :
  c <> 10 ->
  exists l ls, splitLines r = l :: ls
    /\ stripLineEnds r = join [10] (trimEnd l :: map trimEnd ls)
    /\ stripLineEnds (c :: r) = join [10] (trimEnd (c :: l) :: map trimEnd ls).
Proof.
  intros Hc%N.eqb_neq. unfold stripLineEnds. simpl. rewrite Hc.
  destruct (splitLines r) as [|l ls] eqn:E; [by destruct (splitLines_not_nil r)|].
  by exists l, ls.
Qed.

Lemma stripLineEnds_newline r : stripLineEnds (10 :: r) = 10 :: stripLineEnds r.
Proof.
  unfold stripLineEnds. simpl.
  destruct (splitLines r) as [|l ls] eqn:E; [by destruct (splitLines_not_nil r)|].
  done.
Qed.

Lemma join_nil_head ls :
  match join [10] ([] :: ls) with [] => True | d :: _ => d = 10 end.
Proof. by destruct ls. Qed.

Lemma trimEnd_cons c l :
  trimEnd (c :: l)
  = match trimEnd l with
    | [] => if isSpace c then [] else [c]
    | r' => c :: r'
    end.
Proof. done. Qed.

Lemma tidy_cons c d s :
  tidy (c :: d :: s) = (negb (isBlank c) || negb (d =? 10)) && tidy (d :: s).
Proof. done. Qed.

(** After the per-line strip no line ends in white space. *)
Lemma stripLineEnds_tidy s : tidy (stripLineEnds s) = true.
Proof.
  induction s as [|c r IH]; [done|].
  destruct (decide (c = 10)) as [->|Hc].
  - rewrite stripLineEnds_newline. by simpl.
  - destruct (stripLineEnds_cons c r Hc) as (l & ls & Hsplit & Hr & ->).
    rewrite Hr in IH. rewrite trimEnd_cons.
    destruct (trimEnd l) as [|d l'] eqn:El.
    + destruct (isSpace c) eqn:Hsp; [done|].
      rewrite join_cons_cons. cbn [tidy]. rewrite IH.
      unfold isBlank. by rewrite Hsp.
    + rewrite !join_cons_cons, tidy_cons. rewrite join_cons_cons in IH.
      rewrite IH, andb_true_r.
      assert (d <> 10) as Hd%N.eqb_neq.
      { intros ->. apply (splitLines_no_newline r l); [rewrite Hsplit; left|].
        apply trimEnd_subset. rewrite El. left. }
      rewrite Hd. apply orb_true_r.
Qed.

(** A text none of whose lines ends in white space is left as it is. *)
Lemma tidy_stripLineEnds s : tidy s = true -> stripLineEnds s = s.
Proof.
  induction s as [|c r IH]; [done|]. intros Ht.
  cbn [tidy] in Ht. apply andb_prop in Ht as [Hc Hr]. specialize (IH Hr).
  destruct (decide (c = 10)) as [->|Hne].
  - by rewrite stripLineEnds_newline, IH.
  - destruct (stripLineEnds_cons c r Hne) as (l & ls & Hsplit & Hr' & ->).
    rewrite Hr' in IH. rewrite trimEnd_cons.
    destruct (trimEnd l) as [|d l'] eqn:El.
    + destruct (isSpace c) eqn:Hsp.
      * exfalso. unfold isBlank in Hc. rewrite Hsp in Hc.
        apply N.eqb_neq in Hne. rewrite Hne in Hc. simpl in Hc.
        pose proof (join_nil_head (map trimEnd ls)) as Hhead. rewrite IH in Hhead.
        destruct r as [|d r']; [done|]. subst d. done.
      * by rewrite join_cons_cons, IH.
    + by rewrite join_cons_cons, IH.
Qed.

Lemma tidy_trimStart s : tidy s = true -> tidy (trimStart s) = true.
Proof.
  induction s as [|c r IH]; [done|]. intros Ht. simpl.
  destruct (isSpace c); [|done]. apply IH.
  cbn [tidy] in Ht. by apply andb_prop in Ht as [_ Hr].
Qed.

Lemma tidy_trimEnd s : tidy s = true -> tidy (trimEnd s) = true.
Proof.
  induction s as [|c r IH]; [done|]. intros Ht.
  cbn [tidy] in Ht. apply andb_prop in Ht as [Hc Hr]. specialize (IH Hr).
  pose proof (trimEnd_head r) as Hhead. simpl.
  destruct (trimEnd r) as [|d r'] eqn:E.
  - destruct (isSpace c) eqn:Hsp; [done|]. simpl. unfold isBlank. by rewrite Hsp.
  - cbn [tidy] in *. rewrite IH, andb_true_r.
    destruct r as [|d0 r0]; [done|]. simpl in Hhead.
    specialize (Hhead ltac:(done)). by injection Hhead as ->.
Qed.

Lemma cleanPrdText_tidy s : tidy (cleanPrdText s) = true.
Proof.
  unfold cleanPrdText, trim. apply tidy_trimEnd, tidy_trimStart, stripLineEnds_tidy.
Qed.

(** *** The later steps only delete characters or insert newlines *)

Lemma dehyphenate_cons a r :
  dehyphenate (a :: r)
  = match r with
    | h :: n :: b :: r' =>
        if isLetter a && (h =? 45) && (n =? 10) && isLetter b
        then a :: b :: dehyphenate r'
        else a :: dehyphenate r
    | _ => a :: dehyphenate r
    end.
Proof. done. Qed.

Lemma dehyphenate_subset s x : x ∈ dehyphenate s -> x ∈ s.
Proof.
  remember (length s) as n eqn:Hn. revert s Hn x.
  induction n as [n IH] using lt_wf_ind. intros s -> x.
  assert (forall r, (length r < length s)%nat -> x ∈ dehyphenate r -> x ∈ r) as IH'.
  { intros r Hlt. by eapply IH. }
  clear IH. destruct s as [|a r]; [done|]. rewrite dehyphenate_cons.
  assert (x ∈ a :: dehyphenate r -> x ∈ a :: r) as Hplain.
  { intros Hx. apply elem_of_cons in Hx as [->|Hx]; [left|right].
    apply IH'; [simpl; lia|done]. }
  destruct r as [|h [|nl [|b r']]]; try exact Hplain.
  destruct (isLetter a && (h =? 45) && (nl =? 10) && isLetter b); [|exact Hplain].
  intros Hx. apply elem_of_cons in Hx as [->|Hx]; [left|].
  apply elem_of_cons in Hx as [->|Hx]; [do 3 right; left|].
  do 4 right. apply IH'; [simpl; lia|done].
Qed.

Lemma dropPageMarkers_subset skip bol s x : x ∈ dropPageMarkers skip bol s -> x ∈ s.
Proof.
  revert skip bol. induction s as [|c r IH]; intros skip bol; [done|]. simpl.
  destruct skip as [|k].
  - destruct (if bol then pageMarker (c :: r) else None) as [[|k]|];
      intros Hx; try (right; by eapply IH);
      apply elem_of_cons in Hx as [->|Hx]; [left|right; by eapply IH
                                           |left|right; by eapply IH].
  - intros Hx. right. by eapply IH.
Qed.

Lemma flushNewlines_elem pending x : x ∈ flushNewlines pending -> x = 10.
Proof.
  unfold flushNewlines. destruct (3 <=? pending)%nat.
  - intros Hx. apply elem_of_cons in Hx as [->|Hx]; [done|].
    by apply list_elem_of_singleton in Hx.
  - intros Hx. apply list_elem_of_In in Hx. by apply repeat_spec in Hx.
Qed.

Lemma collapseNewlines_subset pending s x :
  x ∈ collapseNewlines pending s -> x ∈ s \/ x = 10.
Proof.
  revert pending. induction s as [|c r IH]; intros pending; simpl.
  - intros Hx. right. by eapply flushNewlines_elem.
  - destruct (c =? 10).
    + intros Hx. destruct (IH _ Hx) as [Hr | ->]; [left; by right|by right].
    + intros Hx. apply elem_of_app in Hx as [Hx|Hx].
      * right. by eapply flushNewlines_elem.
      * apply elem_of_cons in Hx as [->|Hx]; [left; left|].
        destruct (IH _ Hx) as [Hr | ->]; [left; by right|by right].
Qed.

Lemma stripLineEnds_step c r :
  stripLineEnds (c :: r) = stripLineEnds r
  \/ stripLineEnds (c :: r) = c :: stripLineEnds r.
Proof.
  destruct (decide (c = 10)) as [->|Hc].
  - right. apply stripLineEnds_newline.
  - destruct (stripLineEnds_cons c r Hc) as (l & ls & _ & -> & ->).
    rewrite trimEnd_cons. destruct (trimEnd l) as [|d l'].
    + destruct (isSpace c); [by left|right]. by rewrite join_cons_cons.
    + right. by rewrite join_cons_cons.
Qed.

Lemma stripLineEnds_subset s x : x ∈ stripLineEnds s -> x ∈ s.
Proof.
  induction s as [|c r IH]; [done|].
  destruct (stripLineEnds_step c r) as [-> | ->].
  - intros Hx. right. by apply IH.
  - intros Hx. apply elem_of_cons in Hx as [->|Hx]; [left|right; by apply IH].
Qed.

Lemma trimStart_subset (s : jsstring) x : x ∈ trimStart s -> x ∈ s.
Proof.
  induction s as [|c r IH]; [done|]. simpl.
  destruct (isSpace c); [|done]. intros Hx. right. by apply IH.
Qed.

Lemma trim_subset (s : jsstring) x : x ∈ trim s -> x ∈ s.
Proof. intros Hx. by apply trimStart_subset, trimEnd_subset. Qed.

Lemma replaceCRLF_cons c r :
  replaceCRLF (c :: r)
  = match r with
    | d :: r' => if (c =? 13) && (d =? 10) then 10 :: replaceCRLF r'
                 else c :: replaceCRLF r
    | [] => [c]
    end.
Proof. done. Qed.

(** The cleaned text holds none of the characters the first steps remove or
    replace. *)
Lemma cleanPrdText_no_raw s : Forall (fun c => isRaw c = false) (cleanPrdText s).
Proof.
  apply Forall_forall. intros x Hx. unfold cleanPrdText in Hx.
  apply trim_subset, stripLineEnds_subset, collapseNewlines_subset in Hx.
  destruct Hx as [Hx | ->]; [|done].
  apply dropPageMarkers_subset, list_elem_of_In, in_map_iff in Hx
    as (y & Hy & Hin).
  destruct (isBullet y) eqn:Hb; [by subst x|]. subst y.
  apply list_elem_of_In, dehyphenate_subset, list_elem_of_In, in_map_iff in Hin
    as (y & Hy & Hin).
  apply list_elem_of_In, list_elem_of_filter in Hin as [Hzw Hin].
  apply list_elem_of_In, in_map_iff in Hin as (z & Hz & Hin).
  unfold isRaw. rewrite Hb, orb_false_r.
  destruct (y =? 160) eqn:Hnb.
  - subst x. done.
  - subst x. rewrite Hzw, Hnb, !orb_false_r.
    destruct (z =? 13) eqn:H13; [by subst y|]. by subst y.
Qed.

(** *** The first steps leave a cleaned text alone *)

Lemma replaceCRLF_id s : Forall (fun c => isRaw c = false) s -> replaceCRLF s = s.
Proof.
  induction 1 as [|c r Hc _ IH]; [done|]. rewrite replaceCRLF_cons, IH.
  destruct r as [|d r]; [done|].
  assert ((c =? 13) = false) as ->; [|done].
  unfold isRaw in Hc. by destruct (c =? 13).
Qed.

Lemma map_id_on {A} (f : A -> A) (P : A -> Prop) l :
  (forall x, P x -> f x = x) -> Forall P l -> map f l = l.
Proof. intros Hf. induction 1 as [|x l Hx _ IH]; [done|]. simpl. by rewrite Hf, IH. Qed.

Lemma filter_id_on (s : jsstring) :
  Forall (fun c => isRaw c = false) s ->
  filter (fun c => isZeroWidth c = false) s = s.
Proof.
  induction 1 as [|c r Hc _ IH]; [done|].
  rewrite filter_cons_True, IH; [done|].
  unfold isRaw in Hc. destruct (isZeroWidth c); [|done].
  by rewrite orb_true_r in Hc.
Qed.

(** A text that is already clean, and in which the three pattern steps find
    nothing, is a fixed point of the cleanup. *)
Lemma cleanPrdText_fixed x :
  Forall (fun c => isRaw c = false) x -> tidy x = true -> trim x = x ->
  dehyphenate x = x -> dropPageMarkers O true x = x -> collapseNewlines O x = x ->
  cleanPrdText x = x.
Proof.
  intros Hraw Htidy Htrim Hhyph Hpage Hnl. unfold cleanPrdText.
  rewrite (replaceCRLF_id x Hraw).
  rewrite (map_id_on _ (fun c => isRaw c = false) x); [|clear|done].
  2: { intros c Hc. unfold isRaw in Hc. by destruct (c =? 13). }
  rewrite (filter_id_on x Hraw).
  rewrite (map_id_on _ (fun c => isRaw c = false) x); [|clear|done].
  2: { intros c Hc. unfold isRaw in Hc. destruct (c =? 160); [|done].
       by rewrite orb_true_r in Hc. }
  rewrite Hhyph.
  rewrite (map_id_on _ (fun c => isRaw c = false) x); [|clear|done].
  2: { intros c Hc. unfold isRaw in Hc. destruct (isBullet c); [|done].
       by rewrite orb_true_r in Hc. }
  by rewrite Hpage, Hnl, (tidy_stripLineEnds x Htidy).
Qed.

(** C9, as amended.  The cleanup is a function, defined on every text.  Its
    result has no leading or trailing white space, no line that ends in
    white space, and no carriage return, zero-width character, non-breaking
    space or bullet glyph; cleaning it a second time changes nothing
    whenever the hyphen-joining, page-marker and newline-collapsing steps
    find nothing more in it. *)
Theorem cleanPrdText_idempotent_when_settled (s : jsstring) :
  let x := cleanPrdText s in
  trim x = x
  /\ stripLineEnds x = x
  /\ Forall (fun c => isRaw c = false) x
  /\ (dehyphenate x = x -> dropPageMarkers O true x = x -> collapseNewlines O x = x ->
      cleanPrdText x = x).
Proof.
  intros x. pose proof (cleanPrdText_tidy s) as Htidy.
  pose proof (cleanPrdText_no_raw s) as Hraw.
  assert (trim x = x) as Htrim by apply trim_idem.
  repeat split; try done.
  - by apply tidy_stripLineEnds.
  - intros. by apply cleanPrdText_fixed.
Qed.

Lemma cleanPrdText_idempotent_when_settled_witness :
  cleanPrdText (cleanPrdText draftText) = cleanPrdText draftText.
Proof.
  destruct (cleanPrdText_idempotent_when_settled draftText) as (_ & _ & _ & H).
  apply H; by vm_compute.
Defined.

(** * Further properties *)

(** ** The extract route: [normalizeText] and [truncate] *)

Lemma replaceCRLF_subset s x : x ∈ replaceCRLF s -> x ∈ s.
Proof.
  remember (length s) as n eqn:Hn. revert s Hn x.
  induction n as [n IH] using lt_wf_ind. intros s -> x.
  assert (forall r, (length r < length s)%nat -> x ∈ replaceCRLF r -> x ∈ r) as IH'.
  { intros r Hlt. by eapply IH. }
  clear IH. destruct s as [|c r]; [done|]. rewrite replaceCRLF_cons.
  destruct r as [|d r]; [done|].
  destruct ((c =? 13) && (d =? 10)) eqn:E.
  - apply andb_prop in E as [_ ->%N.eqb_eq].
    intros Hx. apply elem_of_cons in Hx as [->|Hx]; [right; left|].
    do 2 right. apply IH'; [simpl; lia|done].
  - intros Hx. apply elem_of_cons in Hx as [->|Hx]; [left|right].
    apply (IH' (d :: r)); [simpl; lia|done].
Qed.

Lemma replaceCRLF_no_cr s : 13 ∉ s -> replaceCRLF s = s.
Proof.
  induction s as [|c r IH]; [done|]. intros Hno.
  apply not_elem_of_cons in Hno as [Hc Hr].
  rewrite replaceCRLF_cons, IH by done.
  destruct r as [|d r]; [done|].
  assert ((c =? 13) = false) as ->; [|done]. apply N.eqb_neq. congruence.
Qed.

Lemma collapseNewlines_no_newline s : 10 ∉ s -> collapseNewlines O s = s.
Proof.
  induction s as [|c r IH]; [done|]. intros Hno.
  apply not_elem_of_cons in Hno as [Hc Hr]. simpl.
  assert ((c =? 10) = false) as ->. { apply N.eqb_neq. congruence. }
  by rewrite IH.
Qed.

Lemma collapseSpaces_subset b s x :
  x ∈ Extract.collapseSpaces b s -> x ∈ s \/ x = 32.
Proof.
  revert b. induction s as [|c r IH]; intros b; simpl.
  - intros Hx. by apply elem_of_nil in Hx.
  - assert (forall b', x ∈ Extract.collapseSpaces b' r -> x ∈ c :: r \/ x = 32) as IH'.
    { intros b' Hx. destruct (IH _ Hx) as [Hr | ->]; [left; by right|by right]. }
    destruct (isSpace c).
    + destruct b; [apply IH'|].
      intros Hx. apply elem_of_cons in Hx as [->|Hx]; [by right|by eapply IH'].
    + intros Hx. apply elem_of_cons in Hx as [->|Hx]; [left; left|by eapply IH'].
Qed.

(** What [collapseSpaces] returns is single-spaced, and does not begin with
    white space when it continues a run. *)
Lemma collapseSpaces_shape b s :
  Extract.singleSpaced (Extract.collapseSpaces b s) = true
  /\ (b = true ->
      match Extract.collapseSpaces b s with [] => True | d :: _ => isSpace d = false end).
Proof.
  revert b. induction s as [|c r IH]; intros b; [done|]. simpl.
  destruct (isSpace c) eqn:Hc.
  - destruct b.
    + apply IH.
    + destruct (IH true) as [Hs Hhead]. specialize (Hhead eq_refl).
      split; [|done]. cbn [Extract.singleSpaced]. rewrite Hs, andb_true_r.
      change (isSpace 32) with true. cbn [N.eqb Pos.eqb andb].
      destruct (Extract.collapseSpaces true r); [done|]. by rewrite Hhead.
  - destruct (IH false) as [Hs _]. split; [|done].
    cbn [Extract.singleSpaced]. by rewrite Hc, Hs.
Qed.

Lemma singleSpaced_tail c r :
  Extract.singleSpaced (c :: r) = true -> Extract.singleSpaced r = true.
Proof. cbn [Extract.singleSpaced]. by intros [_ ?]%andb_prop. Qed.

Lemma singleSpaced_trimStart s :
  Extract.singleSpaced s = true -> Extract.singleSpaced (trimStart s) = true.
Proof.
  induction s as [|c r IH]; [done|]. intros Hs. simpl.
  destruct (isSpace c); [|done]. by eapply IH, singleSpaced_tail.
Qed.

Lemma singleSpaced_trimEnd s :
  Extract.singleSpaced s = true -> Extract.singleSpaced (trimEnd s) = true.
Proof.
  induction s as [|c r IH]; [done|]. intros Hs.
  pose proof (singleSpaced_tail _ _ Hs) as Hr. specialize (IH Hr).
  pose proof (trimEnd_head r) as Hhead. rewrite trimEnd_cons.
  cbn [Extract.singleSpaced] in Hs. apply andb_prop in Hs as [Hc _].
  destruct (trimEnd r) as [|d r'] eqn:E.
  - destruct (isSpace c) eqn:Hsp; [done|]. cbn [Extract.singleSpaced]. by rewrite Hsp.
  - cbn [Extract.singleSpaced] in *. rewrite IH, andb_true_r.
    destruct r as [|d0 r0]; [done|]. simpl in Hhead.
    specialize (Hhead ltac:(done)). by injection Hhead as ->.
Qed.

Lemma singleSpaced_space s c :
  Extract.singleSpaced s = true -> c ∈ s -> isSpace c = true -> c = 32.
Proof.
  induction s as [|d r IH]; intros Hs Hc Hsp; [by apply elem_of_nil in Hc|].
  apply elem_of_cons in Hc as [->|Hc]; [|by eapply IH, Hsp; [eapply singleSpaced_tail|]].
  cbn [Extract.singleSpaced] in Hs. rewrite Hsp in Hs.
  apply andb_prop in Hs as [[Heq _]%andb_prop _]. by apply N.eqb_eq.
Qed.

(** A single-spaced text is left as it is by [collapseSpaces]. *)
Lemma collapseSpaces_fixed s :
  Extract.singleSpaced s = true ->
  Extract.collapseSpaces false s = s
  /\ (match s with [] => True | d :: _ => isSpace d = false end ->
      Extract.collapseSpaces true s = s).
Proof.
  induction s as [|c r IH]; [done|]. intros Hs.
  destruct (IH (singleSpaced_tail _ _ Hs)) as [IHf IHt].
  cbn [Extract.singleSpaced] in Hs. apply andb_prop in Hs as [Hc _]. simpl.
  destruct (isSpace c) eqn:Hsp.
  - apply andb_prop in Hc as [->%N.eqb_eq Hnext]. split; [|done].
    rewrite IHt; [done|]. destruct r; [done|]. by apply negb_true_iff.
  - by rewrite IHf.
Qed.

Lemma normalizeText_shape x :
  Extract.singleSpaced (Extract.normalizeText x) = true
  /\ trim (Extract.normalizeText x) = Extract.normalizeText x
  /\ (0 ∉ Extract.normalizeText x).
Proof.
  unfold Extract.normalizeText. repeat split.
  - apply singleSpaced_trimEnd, singleSpaced_trimStart, collapseSpaces_shape.
  - apply trim_idem.
  - intros H0. apply trim_subset, collapseSpaces_subset in H0 as [H0|?]; [|done].
    apply collapseNewlines_subset in H0 as [H0|?]; [|done].
    apply replaceCRLF_subset, list_elem_of_filter in H0 as [H0 _]. done.
Qed.

Lemma singleSpaced_no_break s c :
  Extract.singleSpaced s = true -> isSpace c = true -> c <> 32 -> c ∉ s.
Proof. intros Hs Hsp Hne Hin. by apply Hne, (singleSpaced_space s). Qed.

(** A text of the shape [normalizeText] returns is a fixed point of it. *)
Lemma normalizeText_fixed y :
  Extract.singleSpaced y = true -> trim y = y -> 0 ∉ y -> Extract.normalizeText y = y.
Proof.
  intros Hs Htrim H0. unfold Extract.normalizeText.
  assert (filter (fun c => c <> 0) y = y) as ->.
  { clear -H0. induction y as [|c r IH]; [done|].
    apply not_elem_of_cons in H0 as [Hc Hr].
    rewrite filter_cons_True by congruence. by rewrite IH. }
  rewrite replaceCRLF_no_cr by by apply singleSpaced_no_break.
  rewrite collapseNewlines_no_newline by by apply singleSpaced_no_break.
  by rewrite (proj1 (collapseSpaces_fixed y Hs)).
Qed.

(** X1.  The text normalizer of the extract route is idempotent.  Its result
    holds no NUL character, no leading or trailing white space, and no white
    space other than single spaces (so no line break survives). *)
Theorem normalizeText_idempotent (x : jsstring) :
  Extract.normalizeText (Extract.normalizeText x) = Extract.normalizeText x
  /\ Extract.singleSpaced (Extract.normalizeText x) = true
  /\ trim (Extract.normalizeText x) = Extract.normalizeText x
  /\ (0 ∉ Extract.normalizeText x)
  /\ (10 ∉ Extract.normalizeText x).
Proof.
  destruct (normalizeText_shape x) as (Hs & Htrim & H0).
  repeat split; try done.
  - by apply normalizeText_fixed.
  - by apply singleSpaced_no_break.
Qed.

Lemma truncationMarker_length : length Extract.truncationMarker = 13%nat.
Proof. done. Qed.

(** X2.  A truncated text is at most the limit plus the 13 characters of the
    marker long, a text within the limit is returned as it is, and
    truncating twice is truncating once: the marker is never stacked. *)
Theorem truncate_bounded_idempotent (text : jsstring) (maxChars : N) :
  (N.of_nat (length (Extract.truncate text maxChars)) <= maxChars + 13)%N
  /\ ((N.of_nat (length text) <= maxChars)%N -> Extract.truncate text maxChars = text)
  /\ Extract.truncate (Extract.truncate text maxChars) maxChars
     = Extract.truncate text maxChars.
Proof.
  unfold Extract.truncate.
  destruct (N.of_nat (length text) <=? maxChars) eqn:E.
  - rewrite E. apply N.leb_le in E. split; [lia|]. by split.
  - apply N.leb_gt in E. split; [|split].
    + rewrite length_app, length_take, truncationMarker_length. lia.
    + lia.
    + assert (length (take (N.to_nat maxChars) text) = N.to_nat maxChars) as Hlen.
      { rewrite length_take. lia. }
      assert ((N.of_nat (length (take (N.to_nat maxChars) text ++ Extract.truncationMarker))
               <=? maxChars) = false) as ->.
      { apply N.leb_gt. rewrite length_app, Hlen, truncationMarker_length. lia. }
      by rewrite take_app_length'.
Qed.

Lemma truncate_bounded_idempotent_witness :
  Extract.truncate (lit "short") 10 = lit "short".
Proof.
  destruct (truncate_bounded_idempotent (lit "short") 10) as (_ & Hshort & _).
  apply Hshort. by vm_compute.
Defined.

(** ** The extract route: PDF pages and the handler *)

Lemma truncate_length text maxChars :
  (N.of_nat (length (Extract.truncate text maxChars)) <= maxChars + 13)%N.
Proof.
  unfold Extract.truncate.
  destruct (N.of_nat (length text) <=? maxChars) eqn:E.
  - apply N.leb_le in E. lia.
  - rewrite length_app, length_take, truncationMarker_length. lia.
Qed.

Lemma readPages_fetched doc i remaining out :
  exists k, (k <= remaining)%nat /\ snd (Extract.readPages doc i remaining out) = seq i k.
Proof.
  revert i out. induction remaining as [|rem IH]; intros i out; simpl.
  - by exists O.
  - destruct (Extract.pageItems doc i) as [err|items].
    + exists 1%nat. split; [lia|done].
    + destruct (_ <? _).
      * exists 1%nat. split; [lia|done].
      * destruct (IH (Datatypes.S i) (out ++ Extract.pageText items ++ [10; 10]))
          as (k & Hk & Hseq).
        destruct (Extract.readPages doc _ rem _) as [res fetched]. simpl in *.
        exists (Datatypes.S k). split; [lia|]. by rewrite Hseq.
Qed.

Lemma readPages_ext doc doc' i remaining out :
  (forall j, (i <= j < i + remaining)%nat ->
             Extract.pageItems doc j = Extract.pageItems doc' j) ->
  Extract.readPages doc i remaining out = Extract.readPages doc' i remaining out.
Proof.
  revert i out. induction remaining as [|rem IH]; intros i out Hsame; [done|].
  simpl. rewrite <- (Hsame i) by lia.
  destruct (Extract.pageItems doc i) as [err|items]; [done|].
  destruct (_ <? _); [done|]. rewrite IH; [done|]. intros j Hj. apply Hsame. lia.
Qed.

(** X3.  The PDF extraction fetches pages 1, 2, ... in order and never more
    than 50 of them nor more than the document has; two documents with the
    same first 50 pages give the same result. *)
Theorem extractPdfText_first_50_pages (doc : Extract.PdfDocument) :
  (exists k, (k <= 50)%nat /\ (k <= Extract.numPages doc)%nat
             /\ snd (Extract.extractPdfText doc) = seq 1 k)
  /\ forall doc',
      Nat.min (Extract.numPages doc) 50 = Nat.min (Extract.numPages doc') 50 ->
      (forall j, (1 <= j <= 50)%nat -> Extract.pageItems doc j = Extract.pageItems doc' j) ->
      Extract.extractPdfText doc = Extract.extractPdfText doc'.
Proof.
  unfold Extract.extractPdfText, Extract.MAX_PDF_PAGES. split.
  - destruct (readPages_fetched doc 1 (Nat.min (Extract.numPages doc) 50) [])
      as (k & Hk & Hseq).
    destruct (Extract.readPages _ _ _ _) as [res fetched]. simpl in *.
    exists k. repeat split; [lia..|done].
  - intros doc' Hmin Hsame. rewrite <- Hmin.
    rewrite (readPages_ext doc doc'); [done|]. intros j Hj. apply Hsame. lia.
Qed.

Lemma extractPdfText_first_50_pages_witness :
  Extract.extractPdfText sixtyPages = Extract.extractPdfText seventyPages.
Proof.
  destruct (extractPdfText_first_50_pages sixtyPages) as [_ Hsame].
  apply Hsame; [reflexivity|].
  intros j [_ Hj]. simpl. apply Nat.leb_le in Hj. by rewrite Hj.
Defined.

Section ExtractHandler.

Variable toLowerCase : jsstring -> jsstring.
Variable extractRawText : list N -> Extract.failure + jsstring.
Variable getDocument : list N -> Extract.failure + Extract.PdfDocument.

#[local] Abbreviation POST := (Extract.POST toLowerCase extractRawText getDocument).
#[local] Abbreviation extension := (Extract.extension toLowerCase).

(** X4.  A file above 5 MB is answered with status 413 whatever its name and
    type, and nothing is read or converted. *)
Theorem extract_rejects_oversized (file : Extract.File) :
  (Extract.MAX_FILE_BYTES < Extract.size file)%N ->
  POST (inr (Some file))
  = (Extract.Message 413
       (lit "File too large for v1 (max 5MB). Paste the PRD text instead."), []).
Proof.
  intros Hsize%N.ltb_lt. unfold Extract.POST, Extract.handle. by rewrite Hsize.
Qed.

(** X5.  A response that carries text comes from a file of at most 5 MB, and
    the text is at most 120,013 characters long. *)
Theorem extract_text_bounded form (text : jsstring) ops :
  POST form = (Extract.Text text, ops) ->
  (N.of_nat (length text) <= 120013)%N
  /\ exists file, form = inr (Some file)
                  /\ (Extract.size file <= Extract.MAX_FILE_BYTES)%N.
Proof.
  unfold Extract.POST, Extract.handle, Extract.extractPdfText.
  pose proof (fun t => truncate_length t Extract.MAX_EXTRACTED_CHARS) as Hlen.
  destruct form as [err|[file|]]; [done| |done].
  destruct (_ <? Extract.size file) eqn:Hsize; [done|]. apply N.ltb_ge in Hsize.
  intros H. split; [|by exists file].
  destruct (Extract.isText _ file).
  - destruct (Extract.text file); [done|]. injection H as <- _. apply Hlen.
  - destruct (Extract.arrayBuffer file) as [|buf]; [done|].
    case_bool_decide.
    + destruct (extractRawText buf); [done|]. injection H as <- _. apply Hlen.
    + case_bool_decide; [|done].
      destruct (getDocument buf) as [|doc]; [done|].
      destruct (Extract.readPages _ _ _ _) as [[|out] fetched]; [done|].
      injection H as <- _. apply Hlen.
Qed.

(** X6.  Each converter runs only for its own kind of file: the text of the
    file is read only when the file is text-like, the Word converter only for
    the extension docx and the PDF loader only for the extension pdf, both
    only when the file is not text-like. *)
Theorem extract_converter_by_kind (file : Extract.File) resp ops :
  POST (inr (Some file)) = (resp, ops) ->
  let ext := extension (if truthy (Extract.name file) then Extract.name file
                        else lit "upload") in
  (Extract.ReadText ∈ ops -> Extract.isText toLowerCase file = true)
  /\ (Extract.Mammoth ∈ ops ->
      ext = lit "docx" /\ Extract.isText toLowerCase file = false)
  /\ (Extract.PdfLoad ∈ ops ->
      ext = lit "pdf" /\ Extract.isText toLowerCase file = false).
Proof.
  intros H ext. unfold Extract.POST, Extract.handle in H. fold ext in H.
  assert (forall op, op ∈ @nil Extract.operation -> False) as Hnil.
  { intros op Hop. by apply elem_of_nil in Hop. }
  destruct (_ <? Extract.size file).
  { injection H as _ <-. split; [|split]; intros Hop; by apply Hnil in Hop. }
  destruct (Extract.isText _ file) eqn:Htext.
  - assert (ops = [Extract.ReadText]) as ->.
    { destruct (Extract.text file); by injection H as _ <-. }
    split; [done|]. split; intros Hop; apply list_elem_of_singleton in Hop; done.
  - destruct (Extract.arrayBuffer file) as [|buf].
    { injection H as _ <-. split; [|split]; intros Hop;
        apply list_elem_of_singleton in Hop; done. }
    case_bool_decide as Hdocx.
    + assert (ops = [Extract.ReadBuffer; Extract.Mammoth]) as ->.
      { destruct (extractRawText buf); by injection H as _ <-. }
      split; [|split]; [|done|]; intros Hop;
        repeat (apply elem_of_cons in Hop as [Hop|Hop]; [done|]);
        by apply Hnil in Hop.
    + case_bool_decide as Hpdf.
      * assert (forall op, op ∈ ops -> op <> Extract.ReadText /\ op <> Extract.Mammoth)
          as Hno.
        { intros op Hop. destruct (getDocument buf) as [|doc].
          - injection H as _ <-.
            repeat (apply elem_of_cons in Hop as [->|Hop]; [done|]).
            by apply Hnil in Hop.
          - destruct (Extract.extractPdfText doc) as [[err|t] fetched];
              injection H as _ <-;
              (repeat (apply elem_of_cons in Hop as [->|Hop]; [done|]));
              by apply list_elem_of_In, in_map_iff in Hop as (? & <- & _). }
        split; [|split]; [| |done]; intros Hop; by destruct (Hno _ Hop).
      * injection H as _ <-. split; [|split]; intros Hop;
          apply list_elem_of_singleton in Hop; done.
Qed.

End ExtractHandler.

Lemma extract_rejects_oversized_witness :
  Extract.POST asciiLower noWord noPdf (inr (Some hugePdf))
  = (Extract.Message 413
       (lit "File too large for v1 (max 5MB). Paste the PRD text instead."), []).
Proof. apply extract_rejects_oversized. by vm_compute. Defined.

Lemma extract_text_bounded_witness :
  (N.of_nat (length (lit "Build a sign-up flow")) <= 120013)%N.
Proof.
  apply (extract_text_bounded asciiLower noWord noPdf (inr (Some notesFile))
           (lit "Build a sign-up flow") [Extract.ReadText]).
  by vm_compute.
Defined.

Lemma extract_converter_by_kind_witness :
  Extract.isText asciiLower notesFile = true.
Proof.
  destruct (extract_converter_by_kind asciiLower noWord noPdf notesFile
              (Extract.Text (lit "Build a sign-up flow")) [Extract.ReadText])
    as (Htext & _); [by vm_compute|].
  apply Htext. left.
Defined.

(** ** The plan route: requests and prompts *)

Lemma get_here k v (r : list (jsstring * json)) : get k ((k, v) :: r) = Some v.
Proof. simpl. unfold jsstring_eqb. by rewrite bool_decide_eq_true_2. Qed.

Lemma get_skip k k' v (r : list (jsstring * json)) :
  k <> k' -> get k ((k', v) :: r) = get k r.
Proof. intros Hne. simpl. unfold jsstring_eqb. by rewrite bool_decide_eq_false_2. Qed.

Lemma trimStart_length (s : jsstring) : (length (trimStart s) <= length s)%nat.
Proof. induction s as [|c r IH]; simpl; [lia|]. destruct (isSpace c); simpl; lia. Qed.

Lemma trimEnd_length (s : jsstring) : (length (trimEnd s) <= length s)%nat.
Proof.
  induction s as [|c r IH]; [done|]. rewrite trimEnd_cons.
  destruct (trimEnd r); simpl in *; [destruct (isSpace c); simpl; lia|lia].
Qed.

Lemma trim_length (s : jsstring) : (length (trim s) <= length s)%nat.
Proof.
  unfold trim. pose proof (trimEnd_length (trimStart s)).
  pose proof (trimStart_length s). lia.
Qed.

Lemma codePoints_cons c r :
  codePoints (c :: r)
  = match r with
    | d :: r' =>
        if isSurrogatePair c d then Datatypes.S (codePoints r')
        else Datatypes.S (codePoints r)
    | [] => 1%nat
    end.
Proof. done. Qed.

Lemma surrogate_pair_lead c d : isSurrogatePair c d = true -> isSurrogate c = true.
Proof.
  unfold isSurrogatePair, isSurrogate.
  rewrite !andb_true_iff, !N.leb_le. lia.
Qed.

(** Without surrogates the characters of a string are its code units. *)
Lemma codePoints_length (s : jsstring) :
  Forall (fun c => isSurrogate c = false) s -> codePoints s = length s.
Proof.
  induction 1 as [|c r Hc _ IH]; [done|]. rewrite codePoints_cons.
  destruct r as [|d r']; [done|].
  destruct (isSurrogatePair c d) eqn:Hpair; [|by rewrite IH].
  apply surrogate_pair_lead in Hpair. congruence.
Qed.

Lemma space_not_surrogate c : isSpace c = true -> isSurrogate c = false.
Proof.
  intros Hc. destruct (isSurrogate c) eqn:Hs; [exfalso|done].
  unfold isSpace, isSurrogate in *.
  rewrite !orb_true_iff, !andb_true_iff, !N.eqb_eq, !N.leb_le in Hc.
  rewrite !andb_true_iff, !N.leb_le in Hs. lia.
Qed.

Lemma generateBody_parses (prd productName targetUser : jsstring)
    (platform : Platform) (constraints releaseDate : jsstring) :
  (20 <= codePoints prd)%nat ->
  PlanRequestSchema
    (Some (generateBody prd productName targetUser platform constraints releaseDate))
  = Some (PlanRequest.mk prd (nonEmpty productName) (nonEmpty targetUser)
            (Some platform) (nonEmpty constraints) (nonEmpty releaseDate)).
Proof.
  intros Hlen.
  assert ((20 <=? codePoints prd)%nat = true) as Hmin by by apply Nat.leb_le.
  unfold PlanRequestSchema, generateBody, Zod.object. cbn [app].
  rewrite get_here. unfold Zod.string_min. rewrite Hmin. clear.
  destruct platform, productName, targetUser, constraints, releaseDate; reflexivity.
Qed.

(** X7.  Whatever the page lets the user send passes the request validation
    of the route, when the PRD holds no surrogate (no character outside the
    Basic Multilingual Plane): if the trimmed PRD has at least 20
    characters, the body built from the form decodes to the request with
    that PRD, the chosen platform, and each optional field present exactly
    when the form field is not empty. *)
Theorem page_request_is_valid (prd productName targetUser : jsstring)
    (platform : Platform) (constraints releaseDate : jsstring) :
  canGenerate prd = true ->
  Forall (fun c => isSurrogate c = false) prd ->
  PlanRequestSchema
    (Some (generateBody prd productName targetUser platform constraints releaseDate))
  = Some (PlanRequest.mk prd (nonEmpty productName) (nonEmpty targetUser)
            (Some platform) (nonEmpty constraints) (nonEmpty releaseDate)).
Proof.
  intros Hgate Hbmp. unfold canGenerate in Hgate. apply Nat.leb_le in Hgate.
  pose proof (trim_length prd) as Hlen. apply generateBody_parses.
  rewrite (codePoints_length prd Hbmp). lia.
Qed.

Lemma page_request_is_valid_witness :
  PlanRequestSchema
    (Some (generateBody (lit "Build a sign-up flow for the tutor app.")
             (lit "Tutor") [] mobile [] (lit "Q3")))
  = Some (PlanRequest.mk (lit "Build a sign-up flow for the tutor app.")
            (Some (lit "Tutor")) None (Some mobile) None (Some (lit "Q3"))).
Proof.
  apply (page_request_is_valid _ (lit "Tutor") [] mobile [] (lit "Q3"));
    [by vm_compute|by repeat constructor].
Defined.

Lemma endsWith_app (suffix pre s : jsstring) : endsWith suffix s -> endsWith suffix (pre ++ s).
Proof. intros [a ->]. exists (pre ++ a). by rewrite app_assoc. Qed.

(** White space at the end of a text is trimmed with it. *)
Lemma trimEnd_app_space (s w : jsstring) :
  Forall (fun c => isSpace c = true) w -> trimEnd (s ++ w) = trimEnd s.
Proof.
  intros Hw. induction s as [|c s IH].
  - simpl. induction Hw as [|d w Hd _ IHw]; [done|].
    rewrite trimEnd_cons, IHw. by rewrite Hd.
  - change ((c :: s) ++ w) with (c :: (s ++ w)). by rewrite !trimEnd_cons, IH.
Qed.

(** What trimming leaves of the last lines of a prompt. *)
Lemma trimEnd_prd_lines (cleaned : jsstring) :
  trimEnd cleaned = cleaned ->
  trimEnd (lit "PRD:" ++ [10] ++ cleaned ++ [10] ++ [])
  = lit "PRD:" ++ (if truthy cleaned then [10] ++ cleaned else []).
Proof.
  intros Hc. destruct cleaned as [|c r]; [by vm_compute|].
  cbn [truthy]. set (x := c :: r) in *.
  assert (trimEnd (x ++ [10] ++ []) = x) as Hx.
  { rewrite trimEnd_app_space; [done|]. by repeat constructor. }
  assert (trimEnd ([10] ++ x ++ [10] ++ []) = [10] ++ x) as Hnl.
  { rewrite trimEnd_app; by rewrite Hx. }
  rewrite trimEnd_app; by rewrite Hnl.
Qed.

Lemma trimsTo_app (suffix pre s : jsstring) : trimsTo suffix s -> trimsTo suffix (pre ++ s).
Proof.
  intros [Hne Hend]. unfold trimsTo. rewrite trimEnd_app by done. split.
  - intros H. by apply app_eq_nil in H as [_ H].
  - by apply endsWith_app.
Qed.

Ltac peel_prompt_lines :=
  lazymatch goal with
  | |- trimsTo _ (lit "PRD:" ++ _) => idtac
  | |- trimsTo _ (_ ++ _) => apply trimsTo_app; peel_prompt_lines
  end.

Lemma buildPrompt_tail input cleaned :
  trimEnd cleaned = cleaned ->
  endsWith (lit "PRD:" ++ (if truthy cleaned then [10] ++ cleaned else []))
    (buildPrompt input cleaned).
Proof.
  intros Hc. unfold buildPrompt, trim. cbn [join].
  change (trimStart ([] ++ [10] ++ lit "You are a PRD-to-Ticket agent." ++ ?x))
    with ([89] ++ lit "ou are a PRD-to-Ticket agent." ++ x).
  match goal with |- endsWith ?suffix (trimEnd ?s) =>
    cut (trimsTo suffix s); [by intros [_ ?]|]
  end.
  peel_prompt_lines. unfold trimsTo. rewrite (trimEnd_prd_lines cleaned Hc).
  split; [done|]. by exists [].
Qed.

Lemma cleanPrdText_trimmed s : trimEnd (cleanPrdText s) = cleanPrdText s.
Proof. unfold cleanPrdText, trim. apply trimEnd_idem. Qed.

(** X8.  Whatever the request, the prompt ends with the line PRD: followed,
    on the next line, by the cleaned PRD text, and by nothing else; when the
    cleaned text is empty the prompt ends with PRD: itself. *)
Theorem buildPrompt_ends_with_prd (input : PlanRequest.t) (prd : jsstring) :
  let cleaned := cleanPrdText prd in
  endsWith (lit "PRD:" ++ (if truthy cleaned then [10] ++ cleaned else []))
    (buildPrompt input cleaned)
  /\ exists rest, buildPrompt input cleaned = lit "You are a PRD-to-Ticket agent." ++ rest.
Proof.
  intros cleaned. split; [apply buildPrompt_tail, cleanPrdText_trimmed|].
  unfold buildPrompt, trim. cbn [join].
  change (trimStart ([] ++ [10] ++ lit "You are a PRD-to-Ticket agent." ++ ?x))
    with (lit "You are a PRD-to-Ticket agent." ++ x).
  match goal with |- context [trimEnd (_ ++ ?x)] =>
    assert (trimsTo [] x) as [Hne _]; [|rewrite trimEnd_app by done; eauto]
  end.
  peel_prompt_lines. unfold trimsTo.
  rewrite (trimEnd_prd_lines cleaned (cleanPrdText_trimmed prd)).
  split; [done|]. eexists. by rewrite app_nil_r.
Qed.

(** ** The plan route: blank texts *)

Lemma space_not_bullet c : isSpace c = true -> isBullet c = false.
Proof.
  intros Hc. destruct (isBullet c) eqn:Hb; [exfalso|done].
  unfold isSpace, isBullet in *.
  rewrite !orb_true_iff, !andb_true_iff, !N.eqb_eq, !N.leb_le in Hc.
  rewrite !orb_true_iff, !N.eqb_eq in Hb. lia.
Qed.

Lemma trimStart_blank (s : jsstring) : Forall (fun c => isSpace c = true) s -> trimStart s = [].
Proof. induction 1 as [|c r Hc _ IH]; [done|]. simpl. by rewrite Hc. Qed.

Lemma trim_blank (s : jsstring) : Forall (fun c => isSpace c = true) s -> trim s = [].
Proof. intros H. unfold trim. by rewrite trimStart_blank. Qed.

(** The cleanup of white space is empty. *)
Lemma cleanPrdText_blank (s : jsstring) :
  Forall (fun c => isSpace c = true) s -> cleanPrdText s = [].
Proof.
  intros Hs. unfold cleanPrdText. apply trim_blank, Forall_forall. intros x Hx.
  apply stripLineEnds_subset, collapseNewlines_subset in Hx.
  destruct Hx as [Hx | ->]; [|done].
  apply dropPageMarkers_subset, list_elem_of_In, in_map_iff in Hx as (y & Hy & Hin).
  apply list_elem_of_In, dehyphenate_subset, list_elem_of_In, in_map_iff in Hin
    as (z & Hz & Hin).
  apply list_elem_of_In, list_elem_of_filter in Hin as [Hzw Hin].
  apply list_elem_of_In, in_map_iff in Hin as (u & Hu & Hin).
  apply list_elem_of_In, replaceCRLF_subset in Hin.
  assert (isSpace z = true) as Hz'.
  { rewrite Forall_forall in Hs. specialize (Hs u Hin).
    destruct (u =? 13); [by subst z|]. by subst z. }
  assert (isSpace y = true) as Hy'.
  { destruct (z =? 160); by subst y. }
  rewrite (space_not_bullet y Hy') in Hy. by subst x.
Qed.

(** ** The plan route: what a successful answer holds *)

Lemma protoFree_normEpics p :
  Forall (fun e => Epic.epicId e ∉ objectPrototypeKeys) (normEpics p) -> protoFree p.
Proof.
  intros Hfree. unfold protoFree. apply Forall_forall. intros e He.
  apply list_elem_of_lookup in He as [i Hi].
  destruct (trim (Epic.epicId e)) as [|c r] eqn:Htrim.
  { apply (bool_decide_eq_false_1 _). by vm_compute. }
  rewrite Forall_forall in Hfree.
  specialize (Hfree (setEpicId e (trim (Epic.epicId e)))). rewrite Htrim in Hfree.
  apply Hfree. apply list_elem_of_lookup. exists i.
  unfold normEpics. rewrite list_lookup_imap, Hi. simpl. by rewrite Htrim.
Qed.

Lemma forallb_imap {A} (g : A -> bool) (f : nat -> A -> A) (l : list A) :
  (forall i x, g (f i x) = g x) -> forallb g (imap f l) = forallb g l.
Proof.
  revert f. induction l as [|x l IH]; intros f Hf; [done|].
  simpl. rewrite Hf. f_equal. apply IH. intros i y. apply Hf.
Qed.

(** Whether a ticket can be linked does not depend on its ids. *)
Lemma linkable_normTickets p :
  forallb linkable (normTickets p) = forallb linkable (PlanCore.tickets p).
Proof. unfold normTickets. by apply forallb_imap. Qed.

Section Answer.

Variable generateText : nat -> jsstring -> Q -> thrown + PlanCore.t.
Variable messageOf : builtinError -> jsstring.
Variable numberToString : Q -> jsstring.

Lemma assemble_returns output :
  protoFree output -> forallb linkable (PlanCore.tickets output) = true ->
  assemble messageOf numberToString output
  = inr (exported numberToString (repairSpec output)).
Proof.
  intros Hfree Hlink. unfold assemble.
  rewrite (normalizeIds_returns output Hfree), buildLinearLinks_spec.
  change (PlanCore.tickets (repairSpec output)) with (normTickets output).
  by rewrite linkable_normTickets, Hlink.
Qed.

Lemma assemble_inr output plan :
  assemble messageOf numberToString output = inr plan ->
  protoFree output /\ forallb linkable (PlanCore.tickets output) = true.
Proof.
  unfold assemble. intros H.
  destruct (normalizeIds output) as [q|k|k] eqn:Hq.
  - split; [by eapply protoFree_normEpics, normalizeIds_Repaired_free|].
    apply normalizeIds_Repaired in Hq as ->.
    rewrite buildLinearLinks_spec in H.
    change (PlanCore.tickets (repairSpec output)) with (normTickets output) in H.
    rewrite linkable_normTickets in H.
    by destruct (forallb linkable (PlanCore.tickets output)).
  - done.
  - by destruct (Linear.buildLinearLinks _).
Qed.

(** A successful answer is the exported repair of what the oracle answered
    to the first or to the second invocation. *)
Lemma POST_Json200 body plan log :
  POST generateText messageOf numberToString body = (Json200 plan, log) ->
  exists output n prompt,
    plan = exported numberToString (repairSpec output)
    /\ protoFree output
    /\ forallb linkable (PlanCore.tickets output) = true
    /\ (n < 2)%nat /\ generateText n prompt 0%Q = inr output
    /\ log !! n = Some (Call.mk prompt 0%Q) /\ length log = Datatypes.S n.
Proof.
  unfold POST. destruct body as [j|]; [|done].
  destruct (PlanRequestSchema (Some j)) as [input|]; [|done].
  unfold generate, tryCatch, generatePlanObject. cbn [length app].
  destruct (generateText 0 _ _) as [e1|output] eqn:Hfirst.
  - destruct (generateText 1 _ _) as [e2|output] eqn:Hsecond; [done|].
    destruct (assemble _ _ output) as [e3|p] eqn:Hp; [done|].
    intros [= <- <-]. exists output, 1%nat.
    destruct (assemble_inr _ _ Hp) as [Hfree Hlink].
    rewrite (assemble_returns _ Hfree Hlink) in Hp. injection Hp as <-.
    eexists. repeat split; [done|done|lia|exact Hsecond].
  - destruct (assemble _ _ output) as [e3|p] eqn:Hp; [done|].
    intros [= <- <-]. exists output, 0%nat.
    destruct (assemble_inr _ _ Hp) as [Hfree Hlink].
    rewrite (assemble_returns _ Hfree Hlink) in Hp. injection Hp as <-.
    eexists. repeat split; [done|done|lia|exact Hfirst].
Qed.

(** X9.  A PRD of white space only, twenty characters or more, is refused
    by the page but accepted by the route: its cleaned text is empty, and
    the oracle is invoked with a prompt that ends with the line PRD: and
    carries no PRD text. *)
Theorem blank_prd_reaches_the_oracle (prd productName targetUser : jsstring)
    (platform : Platform) (constraints releaseDate : jsstring) :
  Forall (fun c => isSpace c = true) prd -> (20 <= length prd)%nat ->
  canGenerate prd = false
  /\ cleanPrdText prd = []
  /\ exists prompt rest,
       snd (POST generateText messageOf numberToString
              (Some (generateBody prd productName targetUser platform
                       constraints releaseDate)))
       = Call.mk prompt 0%Q :: rest
       /\ endsWith (lit "PRD:") prompt.
Proof.
  intros Hblank Hlen. split; [|split].
  - unfold canGenerate. by rewrite (trim_blank prd Hblank).
  - by apply cleanPrdText_blank.
  - assert (codePoints prd = length prd) as Hchars.
    { apply codePoints_length. eapply Forall_impl; [exact Hblank|].
      apply space_not_surrogate. }
    rewrite <- Hchars in Hlen.
    unfold POST. rewrite (generateBody_parses _ _ _ _ _ _ Hlen).
    cbn [PlanRequest.prd]. rewrite (cleanPrdText_blank prd Hblank).
    unfold generate, tryCatch, generatePlanObject. cbn [length app].
    pose proof (buildPrompt_tail
                  (PlanRequest.mk prd (nonEmpty productName) (nonEmpty targetUser)
                     (Some platform) (nonEmpty constraints) (nonEmpty releaseDate))
                  [] eq_refl) as Htail.
    cbn [truthy] in Htail. rewrite app_nil_r in Htail.
    destruct (generateText 0 _ _) as [e1|output].
    + destruct (generateText 1 _ _) as [e2|output].
      * eexists _, _. by split.
      * destruct (assemble _ _ output); eexists _, _; by split.
    + destruct (assemble _ _ output); eexists _, _; by split.
Qed.

(** X10.  Whatever the oracle answers, a plan that the route returns with
    status 200 is well formed: there is one Linear link per ticket, in
    ticket order, each carrying its ticket's id; every epic lists exactly
    the ids of the tickets that refer to it; when there is an epic, every
    ticket refers to an existing epic; no id is empty or has white space
    around it; no epic id is the name of a member of Object.prototype; the
    confidence lies between 0 and 100; the Markdown export is the rendering
    of the returned plan, up to the confidence score when the oracle's was
    out of range; and the oracle was invoked once or twice. *)
Theorem POST_success_is_well_formed (body : option json) (plan : Plan.t) (log : list Call.t) :
  POST generateText messageOf numberToString body = (Json200 plan, log) ->
  Exports.linear (Plan.exports plan) = linearLink <$> Plan.tickets plan
  /\ LinearLink.ticketId <$> Exports.linear (Plan.exports plan)
     = Ticket.ticketId <$> Plan.tickets plan
  /\ Forall (fun e => Epic.tickets e = ticketsOf (Epic.epicId e) (Plan.tickets plan))
       (Plan.epics plan)
  /\ (Plan.epics plan <> [] ->
      Forall (fun t => Ticket.epicId t ∈ Epic.epicId <$> Plan.epics plan)
        (Plan.tickets plan))
  /\ Forall (fun t => properId (Ticket.ticketId t)) (Plan.tickets plan)
  /\ Forall (fun e => properId (Epic.epicId e) /\ Epic.epicId e ∉ objectPrototypeKeys)
       (Plan.epics plan)
  /\ inRange (Meta.confidence (Plan.meta plan))
  /\ (exists confidence,
        Exports.markdown (Plan.exports plan)
        = Markdown.planToMarkdown numberToString (withConfidence plan confidence)
        /\ (inRange confidence -> confidence = Meta.confidence (Plan.meta plan)))
  /\ (1 <= length log <= 2)%nat.
Proof.
  intros H.
  apply POST_Json200 in H
    as (output & n & prompt & -> & Hfree & Hlink & Hn & _ & _ & Hlen).
  split; [done|]. split.
  { cbn. rewrite <- list_fmap_compose. by apply list_fmap_ext. }
  split.
  { apply Forall_forall. intros e He. cbn in He.
    by apply list_elem_of_fmap in He as (e0 & -> & _). }
  split.
  { intros Hne. apply Forall_forall. intros t Ht.
    change (Plan.epics (exported numberToString (repairSpec output)))
      with (PlanCore.epics (repairSpec output)) in *.
    rewrite repairSpec_ids. apply normTickets_epicId_valid; [|done].
    intros Hnil. apply Hne. cbn. by rewrite (proj2 (normEpics_nil output) Hnil). }
  split.
  { apply Forall_forall. intros t Ht.
    assert (Ticket.ticketId t ∈ Ticket.ticketId <$> normTickets output) as Hid
      by by apply list_elem_of_fmap_2.
    rewrite normTickets_ticketIds in Hid.
    apply imap_elem_of in Hid as (i & t0 & _ & ->). apply repairedTicketId_trimmed. }
  split.
  { apply Forall_forall. intros e He.
    assert (Epic.epicId e ∈ Epic.epicId <$> normEpics output) as Hid.
    { rewrite <- repairSpec_ids. by apply list_elem_of_fmap_2. }
    split; [by apply (normEpics_id_trimmed output)|].
    apply list_elem_of_fmap in Hid as (e0 & -> & He0).
    pose proof (normEpics_protoFree output Hfree) as Hall.
    rewrite Forall_forall in Hall. by apply Hall. }
  split.
  { unfold inRange. cbn.
    destruct (Qle_bool 0 _ && Qle_bool _ 100) eqn:E.
    - apply andb_true_iff in E as [E1 E2]. by rewrite !Qle_bool_iff in *.
    - split; by apply Qle_bool_iff. }
  split.
  { exists (Meta.confidence (PlanCore.meta output)). split; [done|].
    intros [H0 H100]. cbn. apply Qle_bool_iff in H0, H100. by rewrite H0, H100. }
  lia.
Qed.

(** X11.  When the request is valid and the first invocation of the oracle
    returns a plan, the route answers with status 200 exactly when no epic
    id of that plan is, once trimmed, the name of a member of
    Object.prototype, and no ticket title or description holds an unpaired
    surrogate; the answer is then the exported repair of that plan, after
    that one invocation. *)
Theorem POST_succeeds_iff (body : json) (input : PlanRequest.t) (output : PlanCore.t) :
  PlanRequestSchema (Some body) = Some input ->
  generateText 0 (buildPrompt input (cleanPrdText (PlanRequest.prd input))) 0%Q
  = inr output ->
  let success := protoFree output
                 /\ Forall (fun t => linkable t = true) (PlanCore.tickets output) in
  (success ->
   POST generateText messageOf numberToString (Some body)
   = (Json200 (exported numberToString (repairSpec output)),
      [Call.mk (buildPrompt input (cleanPrdText (PlanRequest.prd input))) 0%Q]))
  /\ ((exists plan log,
         POST generateText messageOf numberToString (Some body) = (Json200 plan, log))
      -> success).
Proof.
  intros Hinput Hfirst success. unfold POST. rewrite Hinput.
  unfold generate, tryCatch, generatePlanObject. cbn [length app]. rewrite Hfirst.
  split.
  - intros [Hfree Hlink].
    assert (forallb linkable (PlanCore.tickets output) = true) as Hall.
    { apply forallb_forall. intros t Ht. rewrite Forall_forall in Hlink.
      apply Hlink. by apply list_elem_of_In. }
    by rewrite (assemble_returns _ Hfree Hall).
  - intros (plan & log & H).
    destruct (assemble _ _ output) as [e|p] eqn:Hp; [done|].
    destruct (assemble_inr _ _ Hp) as [Hfree Hlink]. split; [done|].
    apply Forall_forall. intros t Ht. rewrite forallb_forall in Hlink.
    apply Hlink. by apply list_elem_of_In.
Qed.

End Answer.

Lemma blank_prd_reaches_the_oracle_witness :
  canGenerate twentyBlanks = false /\ cleanPrdText twentyBlanks = [].
Proof.
  destruct (blank_prd_reaches_the_oracle failingOracle plainMessages integerToString
              twentyBlanks [] [] web [] [])
    as (Hgate & Hclean & _); [by repeat constructor|simpl; lia|].
  by split.
Defined.

Lemma POST_success_is_well_formed_witness :
  inRange (Meta.confidence (Plan.meta (exported integerToString (repairSpec rawPlan)))).
Proof.
  refine (proj1 (proj2 (proj2 (proj2 (proj2 (proj2 (proj2
    (POST_success_is_well_formed (answeringOracle rawPlan) plainMessages integerToString
       (Some sampleRequest) (exported integerToString (repairSpec rawPlan))
       [Call.mk (buildPrompt sampleInput (cleanPrdText (PlanRequest.prd sampleInput))) 0%Q]
       _)))))))).
  by vm_compute.
Defined.

Lemma POST_succeeds_iff_witness :
  POST (answeringOracle rawPlan) plainMessages integerToString (Some sampleRequest)
  = (Json200 (exported integerToString (repairSpec rawPlan)),
     [Call.mk (buildPrompt sampleInput (cleanPrdText (PlanRequest.prd sampleInput))) 0%Q]).
Proof.
  apply (POST_succeeds_iff (answeringOracle rawPlan) plainMessages integerToString
           sampleRequest sampleInput rawPlan); [by vm_compute|done|].
  split.
  - unfold protoFree. apply Forall_forall. intros e He.
    apply (bool_decide_eq_false_1 _).
    repeat (apply elem_of_cons in He as [-> | He]; [by vm_compute|]).
    by apply elem_of_nil in He.
  - by repeat constructor.
Defined.

(** ** The id repair: failures, contents, grouping *)

Lemma groupTickets_inl ts own k :
  groupTickets ts own = inl k ->
  k ∈ objectPrototypeKeys /\ k ∈ Ticket.epicId <$> ts.
Proof.
  revert own. induction ts as [|t ts IH]; intros own; simpl; [done|].
  unfold readSlot. destruct (own !! Ticket.epicId t).
  - intros H. apply IH in H as [? ?]. split; [done|by right].
  - case_bool_decide as Hk.
    + intros [= <-]. split; [done|by left].
    + intros H. apply IH in H as [? ?]. split; [done|by right].
Qed.

Lemma attachTickets_inl own es k :
  attachTickets own es = inl k ->
  k ∈ objectPrototypeKeys /\ k ∈ Epic.epicId <$> es.
Proof.
  induction es as [|e es IH]; simpl; [done|].
  unfold readSlot. destruct (own !! Epic.epicId e).
  - destruct (attachTickets own es); [|done].
    intros [= <-]. destruct IH as [? ?]; [done|]. split; [done|by right].
  - case_bool_decide as Hk.
    + intros [= <-]. split; [done|by left].
    + destruct (attachTickets own es); [|done].
      intros [= <-]. destruct IH as [? ?]; [done|]. split; [done|by right].
Qed.

(** An inherited name among the repaired epic ids is a raw epic id,
    trimmed. *)
Lemma inherited_epic_id p k :
  k ∈ objectPrototypeKeys -> k ∈ Epic.epicId <$> normEpics p ->
  k ∈ (fun e => trim (Epic.epicId e)) <$> PlanCore.epics p.
Proof.
  intros Hk Hin. rewrite normEpics_ids in Hin.
  apply imap_elem_of in Hin as (i & e & He & ->).
  unfold repairedEpicId in *. case_decide as Hblank.
  - by apply generated_not_inherited in Hk.
  - apply list_elem_of_fmap. exists e. split; [done|].
    by apply list_elem_of_lookup_2 in He.
Qed.

Lemma normTickets_epicId_inherited p k :
  k ∈ objectPrototypeKeys -> k ∈ Ticket.epicId <$> normTickets p ->
  k ∈ Epic.epicId <$> normEpics p.
Proof.
  intros Hk Hin. rewrite normTickets_epicIds in Hin.
  apply list_elem_of_fmap in Hin as (t & -> & _).
  unfold repairedTicketEpicId in *. case_decide as Hvalid; [done|].
  destruct (Epic.epicId <$> normEpics p) as [|id ids] eqn:E.
  - exfalso. revert Hk. apply (bool_decide_eq_false_1 _). by vm_compute.
  - apply fallbackEpicId_elem. done.
Qed.

(** X12.  The repair returns a plan exactly when no epic id is, once
    trimmed, the name of a member of Object.prototype; when it does not,
    the name on which it fails is such an epic id. *)
Theorem normalizeIds_returns_iff (p : PlanCore.t) :
  (normalizeIds p = Repaired (repairSpec p) <-> protoFree p)
  /\ (forall k,
        normalizeIds p = PushNotAFunction k \/ normalizeIds p = TicketsNotAList k ->
        k ∈ objectPrototypeKeys
        /\ k ∈ (fun e => trim (Epic.epicId e)) <$> PlanCore.epics p).
Proof.
  split.
  - split; [|apply normalizeIds_returns].
    intros H. by eapply protoFree_normEpics, normalizeIds_Repaired_free.
  - intros k H. unfold normalizeIds in H.
    destruct (groupTickets (normTickets p) ∅) as [k'|own] eqn:Hgroup.
    + destruct H as [[= ->] | ?]; [|done].
      apply groupTickets_inl in Hgroup as [Hk Hin]. split; [done|].
      by apply inherited_epic_id, normTickets_epicId_inherited.
    + destruct (attachTickets own (normEpics p)) as [k'|es] eqn:Hattach.
      * destruct H as [? | [= ->]]; [done|].
        apply attachTickets_inl in Hattach as [Hk Hin]. split; [done|].
        by apply inherited_epic_id.
      * by destruct H.
Qed.

Lemma normalizeIds_returns_iff_witness :
  lit "constructor" ∈ objectPrototypeKeys
  /\ lit "constructor"
     ∈ (fun e => trim (Epic.epicId e)) <$> PlanCore.epics constructorTicketPlan.
Proof.
  apply (proj2 (normalizeIds_returns_iff constructorTicketPlan) (lit "constructor")).
  left. by vm_compute.
Defined.

(** X13.  The repair changes ids and nothing else: the plan it returns has
    the meta and summary of the raw plan, as many epics and tickets, in the
    same order, and each of them equals its original once the ids (and the
    ticket list of an epic) are set aside. *)
Theorem normalizeIds_keeps_contents (p q : PlanCore.t) :
  normalizeIds p = Repaired q ->
  PlanCore.meta q = PlanCore.meta p
  /\ PlanCore.summary q = PlanCore.summary p
  /\ epicContent <$> PlanCore.epics q = epicContent <$> PlanCore.epics p
  /\ ticketContent <$> PlanCore.tickets q = ticketContent <$> PlanCore.tickets p
  /\ length (PlanCore.epics q) = length (PlanCore.epics p)
  /\ length (PlanCore.tickets q) = length (PlanCore.tickets p).
Proof.
  intros ->%normalizeIds_Repaired.
  assert (epicContent <$> PlanCore.epics (repairSpec p) = epicContent <$> PlanCore.epics p)
    as Hepics.
  { cbn. rewrite <- list_fmap_compose. unfold normEpics. rewrite fmap_imap.
    apply list_eq. intros i. rewrite list_lookup_imap, list_lookup_fmap.
    by destruct (PlanCore.epics p !! i). }
  assert (ticketContent <$> PlanCore.tickets (repairSpec p)
          = ticketContent <$> PlanCore.tickets p) as Htickets.
  { cbn. unfold normTickets. rewrite fmap_imap.
    apply list_eq. intros i. rewrite list_lookup_imap, list_lookup_fmap.
    by destruct (PlanCore.tickets p !! i). }
  repeat split; [done..| |].
  - apply (f_equal length) in Hepics. by rewrite !length_fmap in Hepics.
  - apply (f_equal length) in Htickets. by rewrite !length_fmap in Htickets.
Qed.

Lemma normalizeIds_keeps_contents_witness :
  ticketContent <$> PlanCore.tickets repairedRawPlan
  = ticketContent <$> PlanCore.tickets rawPlan.
Proof.
  apply (normalizeIds_keeps_contents rawPlan repairedRawPlan). by vm_compute.
Defined.

(** Filing a new item under the one key it names adds it once. *)
Lemma concat_filed {A K} (f : A -> K) (x : A) (h g : K -> list A) (ks : list K) :
  NoDup ks -> f x ∈ ks ->
  (forall k, k <> f x -> g k = h k) -> g (f x) = x :: h (f x) ->
  concat (g <$> ks) ≡ₚ x :: concat (h <$> ks).
Proof.
  intros Hnd Hin Hother Hsame.
  induction Hnd as [|k ks Hk Hnd IH]; [by apply elem_of_nil in Hin|].
  cbn. apply elem_of_cons in Hin as [Heq | Hin].
  - subst k. rewrite Hsame. cbn.
    assert (g <$> ks = h <$> ks) as ->; [|done].
    apply list_fmap_ext. intros i k Hi. apply Hother.
    intros ->. apply Hk. by apply list_elem_of_lookup_2 in Hi.
  - rewrite (Hother k); [|intros ->; done].
    rewrite (IH Hin). by rewrite Permutation_middle.
Qed.

(** Grouping by key, over distinct keys that cover the items, rearranges
    the items. *)
Lemma group_by_key_Permutation (ids : list jsstring) (ts : list Ticket.t) :
  NoDup ids -> Forall (fun t => Ticket.epicId t ∈ ids) ts ->
  concat ((fun k => ticketsOf k ts) <$> ids) ≡ₚ Ticket.ticketId <$> ts.
Proof.
  intros Hnd Hall. induction Hall as [|t ts Ht _ IH].
  - cbn. induction ids as [|k ids IHk]; [done|]. cbn. apply IHk. by inversion Hnd.
  - cbn [fmap list_fmap]. rewrite <- IH.
    apply (concat_filed (A := jsstring) (fun _ => Ticket.epicId t) (Ticket.ticketId t));
      [done|done| |].
    + intros k Hk. unfold ticketsOf. by rewrite filter_cons_False.
    + unfold ticketsOf. by rewrite filter_cons_True.
Qed.

(** X14.  When the repaired epic ids are distinct and there is at least one
    epic, the ticket lists of the epics of the returned plan, taken
    together, hold every ticket id exactly as often as the tickets do: each
    ticket is filed under one epic and under no other. *)
Theorem normalizeIds_files_each_ticket_once (p q : PlanCore.t) :
  normalizeIds p = Repaired q ->
  PlanCore.epics p <> [] ->
  NoDup (Epic.epicId <$> PlanCore.epics q) ->
  concat (Epic.tickets <$> PlanCore.epics q) ≡ₚ Ticket.ticketId <$> PlanCore.tickets q.
Proof.
  intros ->%normalizeIds_Repaired Hne Hnd. rewrite repairSpec_ids in Hnd.
  change (PlanCore.tickets (repairSpec p)) with (normTickets p).
  rewrite <- (group_by_key_Permutation (Epic.epicId <$> normEpics p) (normTickets p) Hnd).
  - cbn. by rewrite <- !list_fmap_compose.
  - apply Forall_forall. intros t Ht. by apply normTickets_epicId_valid.
Qed.

Lemma normalizeIds_files_each_ticket_once_witness :
  concat (Epic.tickets <$> PlanCore.epics repairedRawPlan)
  ≡ₚ Ticket.ticketId <$> PlanCore.tickets repairedRawPlan.
Proof.
  apply (normalizeIds_files_each_ticket_once rawPlan repairedRawPlan).
  - by vm_compute.
  - done.
  - apply (bool_decide_unpack _). by vm_compute.
Defined.

(** X15.  Without epics the repair still returns a plan, with no epic, in
    which every ticket refers to the epic E1: to an epic that does not
    exist, whatever epic the ticket named. *)
Theorem normalizeIds_without_epics (p : PlanCore.t) :
  PlanCore.epics p = [] ->
  exists q, normalizeIds p = Repaired q
            /\ PlanCore.epics q = []
            /\ Forall (fun t => Ticket.epicId t = lit "E1") (PlanCore.tickets q)
            /\ Ticket.ticketId <$> PlanCore.tickets q
               = imap repairedTicketId (PlanCore.tickets p).
Proof.
  intros Hnil. exists (repairSpec p).
  assert (normEpics p = []) as Hnorm by by apply normEpics_nil.
  split; [|split; [|split]].
  - apply normalizeIds_returns. unfold protoFree. by rewrite Hnil.
  - cbn. by rewrite Hnorm.
  - apply Forall_forall. intros t Ht.
    assert (Ticket.epicId t ∈ Ticket.epicId <$> normTickets p) as Hid
      by by apply list_elem_of_fmap_2.
    rewrite normTickets_epicIds, Hnorm in Hid.
    apply list_elem_of_fmap in Hid as (t0 & -> & _).
    unfold repairedTicketEpicId. case_decide as Hin; [|done].
    by apply elem_of_nil in Hin.
  - apply normTickets_ticketIds.
Qed.

Lemma normalizeIds_without_epics_witness :
  exists q, normalizeIds orphanPlan = Repaired q
            /\ PlanCore.epics q = []
            /\ Forall (fun t => Ticket.epicId t = lit "E1") (PlanCore.tickets q)
            /\ Ticket.ticketId <$> PlanCore.tickets q
               = imap repairedTicketId (PlanCore.tickets orphanPlan).
Proof. apply (normalizeIds_without_epics orphanPlan). reflexivity. Defined.

(** ** The issue links: lookup and alphabet *)

Lemma find_linearLink (tickets : list Ticket.t) (id : jsstring) :
  findLinearUrl (linearLink <$> tickets) id
  = (fun t => LinearLink.linearNewUrl (linearLink t))
      <$> List.find (fun t => jsstring_eqb (Ticket.ticketId t) id) tickets.
Proof.
  unfold findLinearUrl. induction tickets as [|t ts IH]; [done|].
  cbn [fmap list_fmap List.find]. cbn [LinearLink.ticketId linearLink].
  by destruct (jsstring_eqb (Ticket.ticketId t) id).
Qed.

Lemma find_own_id (tickets : list Ticket.t) (t : Ticket.t) :
  NoDup (Ticket.ticketId <$> tickets) -> t ∈ tickets ->
  List.find (fun u => jsstring_eqb (Ticket.ticketId u) (Ticket.ticketId t)) tickets = Some t.
Proof.
  induction tickets as [|u ts IH]; intros Hnd Hin; [by apply elem_of_nil in Hin|].
  cbn in Hnd. apply NoDup_cons in Hnd as [Hu Hnd]. cbn [List.find].
  unfold jsstring_eqb. apply elem_of_cons in Hin as [-> | Hin].
  - by rewrite bool_decide_eq_true_2.
  - rewrite bool_decide_eq_false_2; [by apply IH|].
    intros Heq. apply Hu. rewrite Heq. by apply list_elem_of_fmap_2.
Qed.

(** X16.  The link the page shows on a ticket card is found by ticket id
    among the links of the plan: it is the link of the first ticket with
    that id.  When the ticket ids are distinct, every card shows the link of
    its own ticket. *)
Theorem findLinearUrl_finds_first (tickets : list Ticket.t) (links : list LinearLink.t) :
  Linear.buildLinearLinks tickets = Some links ->
  (forall id,
     findLinearUrl links id
     = (fun t => LinearLink.linearNewUrl (linearLink t))
         <$> List.find (fun t => jsstring_eqb (Ticket.ticketId t) id) tickets)
  /\ (NoDup (Ticket.ticketId <$> tickets) ->
      forall t, t ∈ tickets ->
        findLinearUrl links (Ticket.ticketId t)
        = Some (LinearLink.linearNewUrl (linearLink t))).
Proof.
  rewrite buildLinearLinks_spec. destruct (forallb linkable tickets); [|done].
  intros [= <-]. split; [apply find_linearLink|].
  intros Hnd t Ht. by rewrite find_linearLink, find_own_id.
Qed.

Lemma findLinearUrl_finds_first_witness :
  exists links,
    Linear.buildLinearLinks twinTickets = Some links
    /\ forall t, t ∈ twinTickets ->
         findLinearUrl links (Ticket.ticketId t)
         = Some (lit "https://linear.new?title=Sign+up+form&description="
                 ++ formEncode (Linear.ticketMarkdownDescription (sampleTicket (lit "T1") (lit "E1")))).
Proof.
  eexists. split; [by vm_compute|]. intros t Ht.
  match goal with |- findLinearUrl ?links _ = _ =>
    destruct (findLinearUrl_finds_first twinTickets links) as [Hfirst _]; [by vm_compute|]
  end.
  rewrite Hfirst.
  repeat (apply elem_of_cons in Ht as [-> | Ht]; [by vm_compute|]).
  by apply elem_of_nil in Ht.
Defined.

Lemma hexDigit_no_delimiter d : isDelimiter (Linear.hexDigit d) = false.
Proof.
  unfold Linear.hexDigit, isDelimiter.
  destruct (d <? 10) eqn:E; [apply N.ltb_lt in E|apply N.ltb_ge in E];
    rewrite !orb_false_iff, !N.eqb_neq; lia.
Qed.

Lemma escape_no_delimiter cp : Forall (fun c => isDelimiter c = false) (Linear.escape cp).
Proof.
  unfold Linear.escape, Linear.utf8.
  repeat case_match; cbn [map concat app Linear.percent];
    repeat constructor; apply hexDigit_no_delimiter.
Qed.

Lemma unreserved_no_delimiter c : Linear.isUnreserved c = true -> isDelimiter c = false.
Proof.
  intros Hc. destruct (isDelimiter c) eqn:Hd; [exfalso|done].
  unfold Linear.isUnreserved, isLetter, isDigit, isDelimiter in *.
  rewrite !orb_true_iff, !andb_true_iff, !N.eqb_eq, !N.leb_le in Hc.
  rewrite !orb_true_iff, !N.eqb_eq in Hd. lia.
Qed.

(** An encoded value holds no delimiter. *)
Lemma formEncode_no_delimiter s : Forall (fun c => isDelimiter c = false) (formEncode s).
Proof.
  remember (length s) as n eqn:Hn. revert s Hn.
  induction n as [n IH] using lt_wf_ind. intros s ->.
  destruct s as [|c r]; [constructor|].
  assert (forall r0, (length r0 < length (c :: r))%nat ->
            Forall (fun c => isDelimiter c = false) (formEncode r0)) as IH'.
  { intros r0 Hlt. by eapply IH. }
  clear IH. cbn [formEncode].
  destruct (c =? 32); [constructor; [done|apply IH'; simpl; lia]|].
  destruct (Linear.isUnreserved c) eqn:Hu.
  { constructor; [by apply unreserved_no_delimiter|apply IH'; simpl; lia]. }
  destruct (Linear.isLeadSurrogate c).
  - destruct r as [|d r']; [constructor|].
    apply Forall_app. split; [apply escape_no_delimiter|apply IH'; simpl; lia].
  - apply Forall_app. split; [apply escape_no_delimiter|apply IH'; simpl; lia].
Qed.

Lemma occurrences_app c (a b : jsstring) :
  occurrences c (a ++ b) = (occurrences c a + occurrences c b)%nat.
Proof. unfold occurrences. by rewrite filter_app, length_app. Qed.

Lemma occurrences_no_delimiter c (s : jsstring) :
  isDelimiter c = true -> Forall (fun d => isDelimiter d = false) s -> occurrences c s = 0%nat.
Proof.
  intros Hc. unfold occurrences. induction 1 as [|d s Hd _ IH]; [done|].
  rewrite filter_cons_False; [done|]. intros ->. by rewrite Hc in Hd.
Qed.

(** X17.  A link that is built holds its two values in a form that cannot
    be confused with the structure of the URL: the encoded title and
    description contain no space, number sign, ampersand, equals sign or
    question mark, so that the URL has exactly one question mark, one
    ampersand and two equals signs, those of the template. *)
Theorem buildLinearNewUrl_is_unambiguous (title description url : jsstring) :
  Linear.buildLinearNewUrl title description = Some url ->
  exists t d,
    url = lit "https://linear.new?title=" ++ t ++ lit "&description=" ++ d
    /\ Linear.encodeForQuery title = Some t
    /\ Linear.encodeForQuery description = Some d
    /\ Forall (fun c => isDelimiter c = false) (t ++ d)
    /\ occurrences 63 url = 1%nat
    /\ occurrences 38 url = 1%nat
    /\ occurrences 61 url = 2%nat
    /\ occurrences 32 url = 0%nat
    /\ occurrences 35 url = 0%nat.
Proof.
  unfold Linear.buildLinearNewUrl. rewrite !encodeForQuery_spec.
  destruct (isWellFormed title); [|done].
  destruct (isWellFormed description); [|done].
  intros Hurl.
  assert (url = lit "https://linear.new?title=" ++ formEncode title
                ++ lit "&description=" ++ formEncode description) as ->
    by by injection Hurl.
  clear Hurl. exists (formEncode title), (formEncode description).
  pose proof (formEncode_no_delimiter title) as Ht.
  pose proof (formEncode_no_delimiter description) as Hd.
  split; [done|]. split; [done|]. split; [done|].
  split; [by apply Forall_app|].
  rewrite !occurrences_app.
  rewrite !(occurrences_no_delimiter _ (formEncode title)) by done.
  rewrite !(occurrences_no_delimiter _ (formEncode description)) by done.
  by vm_compute.
Qed.

Lemma buildLinearNewUrl_is_unambiguous_witness :
  exists t d,
    lit "https://linear.new?title=Q%26A+%3D+fun%3F&description=a%23b"
    = lit "https://linear.new?title=" ++ t ++ lit "&description=" ++ d
    /\ Linear.encodeForQuery (lit "Q&A = fun?") = Some t
    /\ Linear.encodeForQuery (lit "a#b") = Some d
    /\ Forall (fun c => isDelimiter c = false) (t ++ d)
    /\ occurrences 63 (lit "https://linear.new?title=Q%26A+%3D+fun%3F&description=a%23b") = 1%nat
    /\ occurrences 38 (lit "https://linear.new?title=Q%26A+%3D+fun%3F&description=a%23b") = 1%nat
    /\ occurrences 61 (lit "https://linear.new?title=Q%26A+%3D+fun%3F&description=a%23b") = 2%nat
    /\ occurrences 32 (lit "https://linear.new?title=Q%26A+%3D+fun%3F&description=a%23b") = 0%nat
    /\ occurrences 35 (lit "https://linear.new?title=Q%26A+%3D+fun%3F&description=a%23b") = 0%nat.
Proof.
  apply (buildLinearNewUrl_is_unambiguous (lit "Q&A = fun?") (lit "a#b")). by vm_compute.
Defined.

(** ** Plans as JSON values: decoding what was encoded *)

Ltac eval_gets :=
  cbn [get];
  repeat match goal with
  | |- context [jsstring_eqb ?a ?b] =>
      let v := eval vm_compute in (jsstring_eqb a b) in
      change (jsstring_eqb a b) with v
  end;
  cbv iota.

Lemma leaf_strings_encode l : Lenient.leaf_strings (Some (Encode.strings l)) = l.
Proof.
  unfold Lenient.leaf_strings, Encode.strings.
  assert (forallb Lenient.is_string (JStr <$> l) = true) as ->
    by (induction l; [done|by cbn]).
  induction l as [|s l IH]; [done|]. cbn. f_equal. apply IH.
Qed.

Lemma leaf_records_encode {A} (f : list (jsstring * json) -> A)
    (members : A -> list (jsstring * json)) (l : list A) :
  (forall x, f (members x) = x) ->
  Lenient.leaf_records f (Some (JArr ((fun x => JObj (members x)) <$> l))) = l.
Proof.
  intros Hf. unfold Lenient.leaf_records.
  assert (forallb Lenient.is_object ((fun x => JObj (members x)) <$> l) = true) as ->
    by (induction l; [done|by cbn]).
  induction l as [|x l IH]; [done|]. cbn. rewrite Hf. f_equal. apply IH.
Qed.

Lemma event_encode e : Lenient.event (Encode.eventMembers e) = e.
Proof.
  destruct e. unfold Lenient.event, Encode.eventMembers. eval_gets.
  cbn [AnalyticsEvent.name AnalyticsEvent.properties Lenient.leaf_string].
  by rewrite leaf_strings_encode.
Qed.

Lemma ticket_encode t : Lenient.ticket (Encode.ticketMembers t) = t.
Proof.
  destruct t as [? ? type ? ? ? ? ? ? priority estimate ? ? [events] [testCases]].
  unfold Lenient.ticket, Encode.ticketMembers. eval_gets.
  unfold Lenient.analytics, Lenient.qa. eval_gets.
  cbn [Ticket.ticketId Ticket.epicId Ticket.type Ticket.title Ticket.userStory
       Ticket.description Ticket.acceptanceCriteria Ticket.outOfScope
       Ticket.dependencies Ticket.priority Ticket.estimate Ticket.labels
       Ticket.components Ticket.analytics Ticket.qa TicketAnalytics.events
       TicketQA.testCases Lenient.leaf_string].
  rewrite !leaf_strings_encode, (leaf_records_encode _ _ _ event_encode).
  by destruct type, priority, estimate.
Qed.

Lemma epic_encode e : Lenient.epic (Encode.epicMembers e) = e.
Proof.
  destruct e. unfold Lenient.epic, Encode.epicMembers. eval_gets.
  cbn [Epic.epicId Epic.title Epic.outcome Epic.tickets Epic.edgeCases
       Lenient.leaf_string].
  by rewrite !leaf_strings_encode.
Qed.

Lemma summary_encode s : Lenient.summary (Encode.summaryMembers s) = s.
Proof.
  destruct s. unfold Lenient.summary, Encode.summaryMembers. eval_gets.
  cbn [Summary.problem Summary.targetUsers Summary.goals Summary.nonGoals
       Summary.successMetrics Lenient.leaf_string].
  by rewrite !leaf_strings_encode.
Qed.

Lemma meta_encode m :
  Lenient.meta (Encode.metaMembers m)
  = Meta.mk (Meta.productName m) (Meta.platform m) (validConfidence (Meta.confidence m))
      (Meta.assumptions m) (Meta.openQuestions m).
Proof.
  destruct m as [? platform ? ? ?]. unfold Lenient.meta, Encode.metaMembers. eval_gets.
  cbn [Meta.productName Meta.platform Meta.confidence Meta.assumptions
       Meta.openQuestions Lenient.leaf_string].
  rewrite !leaf_strings_encode. by destruct platform.
Qed.

Lemma validConfidence_inRange c : inRange (validConfidence c).
Proof.
  unfold inRange, validConfidence.
  destruct (Qle_bool 0 c && Qle_bool c 100) eqn:E.
  - apply andb_true_iff in E as [E1 E2]. by rewrite !Qle_bool_iff in *.
  - split; by apply Qle_bool_iff.
Qed.

Lemma validConfidence_id c : inRange c -> validConfidence c = c.
Proof.
  intros [H0 H100]. unfold validConfidence.
  apply Qle_bool_iff in H0, H100. by rewrite H0, H100.
Qed.

(** The decoder on an encoded plan. *)
Lemma PlanCoreSchema_encode p :
  Schema.PlanCoreSchema (Some (Encode.planCore p)) = Some (validCore p).
Proof.
  unfold Schema.PlanCoreSchema, Encode.planCore, Encode.coreMembers, Zod.object.
  eval_gets. rewrite MetaSchema_object, SummarySchema_object.
  rewrite (catch_records _ Lenient.epic _ EpicSchema_object EpicSchema_other).
  rewrite (catch_records _ Lenient.ticket _ TicketSchema_object TicketSchema_other).
  cbn [mbind option_bind].
  rewrite meta_encode, summary_encode.
  rewrite (leaf_records_encode _ _ _ epic_encode).
  by rewrite (leaf_records_encode _ _ _ ticket_encode).
Qed.

Lemma leaf_confidence_inRange v : inRange (Lenient.leaf_confidence v).
Proof.
  destruct v as [[|b|q|s|l|o]|]; try apply (validConfidence_inRange 70).
  apply (validConfidence_inRange q).
Qed.

(** The confidence of a decoded plan is a score the schema accepts. *)
Lemma PlanCoreSchema_inRange c p :
  Schema.PlanCoreSchema (Some c) = Some p -> inRange (Meta.confidence (PlanCore.meta p)).
Proof.
  intros (m & _ & ->)%PlanCoreSchema_meta. apply leaf_confidence_inRange.
Qed.

(** X18.  Decoding the JSON value of a plan gives the plan back when its
    confidence lies in 0..100, and the plan with confidence 70 otherwise;
    nothing else is lost or changed.  A plan that the schema has decoded has
    its confidence in 0..100, so that it decodes to itself from its own
    JSON value: a second validation changes nothing. *)
Theorem PlanCoreSchema_round_trip (p : PlanCore.t) :
  Schema.PlanCoreSchema (Some (Encode.planCore p)) = Some (validCore p)
  /\ (inRange (Meta.confidence (PlanCore.meta p)) ->
      Schema.PlanCoreSchema (Some (Encode.planCore p)) = Some p)
  /\ (forall c, Schema.PlanCoreSchema (Some c) = Some p ->
        inRange (Meta.confidence (PlanCore.meta p))
        /\ Schema.PlanCoreSchema (Some (Encode.planCore p)) = Some p).
Proof.
  assert (inRange (Meta.confidence (PlanCore.meta p)) ->
          Schema.PlanCoreSchema (Some (Encode.planCore p)) = Some p) as Hin.
  { intros Hr. rewrite PlanCoreSchema_encode. unfold validCore.
    rewrite (validConfidence_id _ Hr). by destruct p as [[] ? ? ?]. }
  split; [apply PlanCoreSchema_encode|]. split; [done|].
  intros c Hc. pose proof (PlanCoreSchema_inRange c p Hc) as Hr. by split; [|apply Hin].
Qed.

Lemma PlanCoreSchema_round_trip_witness :
  Schema.PlanCoreSchema (Some (Encode.planCore rawPlan)) = Some rawPlan.
Proof.
  apply (PlanCoreSchema_round_trip rawPlan). by vm_compute.
Defined.

Lemma LinearLinkSchema_object o : LinearLinkSchema (Some (JObj o)) = Some (lenientLink o).
Proof. unfold LinearLinkSchema, Zod.object. by rewrite !zStr_leaf. Qed.

Lemma LinearLinkSchema_other x :
  Lenient.is_object x = false -> LinearLinkSchema (Some x) = None.
Proof. by destruct x. Qed.

Lemma link_encode l : lenientLink (Encode.linkMembers l) = l.
Proof. by destruct l. Qed.

(** X19.  The final validation of the route, on the JSON value of a plan
    with its exports, succeeds and returns the plan unchanged but for a
    confidence outside 0..100, which becomes 70: the exports, the links and
    every other member are kept. *)
Theorem PlanSchema_on_plans (p : Plan.t) :
  PlanSchema (Some (Encode.plan p)) = Some (PlanSchema_parse p)
  /\ (inRange (Meta.confidence (Plan.meta p)) ->
      PlanSchema (Some (Encode.plan p)) = Some p).
Proof.
  assert (PlanSchema (Some (Encode.plan p)) = Some (PlanSchema_parse p)) as Hparse.
  { unfold PlanSchema, Encode.plan, Encode.coreMembers, Zod.object. cbn [app].
    eval_gets. rewrite MetaSchema_object, SummarySchema_object.
    rewrite (catch_records _ Lenient.epic _ EpicSchema_object EpicSchema_other).
    rewrite (catch_records _ Lenient.ticket _ TicketSchema_object TicketSchema_other).
    unfold ExportsSchema, Zod.object. eval_gets.
    rewrite zStr_leaf.
    rewrite (catch_records _ lenientLink _ LinearLinkSchema_object LinearLinkSchema_other).
    cbn [mbind option_bind].
    rewrite meta_encode, summary_encode.
    rewrite (leaf_records_encode _ _ _ epic_encode).
    rewrite (leaf_records_encode _ _ _ ticket_encode).
    rewrite (leaf_records_encode _ _ _ link_encode).
    by destruct p as [? ? ? ? []]. }
  split; [done|]. intros Hr. rewrite Hparse. unfold PlanSchema_parse.
  pose proof (validConfidence_id _ Hr) as Hid. unfold validConfidence in Hid.
  rewrite Hid. by destruct p as [[] ? ? ? ?].
Qed.

Lemma PlanSchema_on_plans_witness :
  PlanSchema (Some (Encode.plan lonePlan)) = Some lonePlan.
Proof. apply (PlanSchema_on_plans lonePlan). by vm_compute. Defined.

(** ** The upload: from the file to the request *)

Section UploadedText.

Variable toLowerCase : jsstring -> jsstring.
Variable extractRawText : list N -> Extract.failure + jsstring.
Variable getDocument : list N -> Extract.failure + Extract.PdfDocument.

Lemma extract_Text_length form (text : jsstring) :
  fst (Extract.POST toLowerCase extractRawText getDocument form) = Extract.Text text ->
  (N.of_nat (length text) <= 120013)%N.
Proof.
  unfold Extract.POST, Extract.handle, Extract.extractPdfText.
  pose proof (fun t => truncate_length t Extract.MAX_EXTRACTED_CHARS) as Hlen.
  destruct form as [err|[file|]]; [done| |done].
  destruct (_ <? Extract.size file); [done|].
  destruct (Extract.isText _ file).
  - destruct (Extract.text file); [done|]. intros [= <-]. apply Hlen.
  - destruct (Extract.arrayBuffer file) as [|buf]; [done|].
    case_bool_decide.
    + destruct (extractRawText buf); [done|]. intros [= <-]. apply Hlen.
    + case_bool_decide; [|done].
      destruct (getDocument buf) as [|doc]; [done|].
      destruct (Extract.readPages _ _ _ _) as [[|out] fetched]; [done|].
      intros [= <-]. apply Hlen.
Qed.

(** The page and the route agree on which files are text-like. *)
Lemma uploadIsText_isText file :
  truthy (Extract.name file) = true ->
  Extract.isText toLowerCase file = uploadIsText toLowerCase file.
Proof. intros Hname. unfold Extract.isText, uploadIsText. by rewrite Hname. Qed.

(** X20.  A text that an upload puts in the PRD field through the extract
    route (a file that is not text-like) enables the Generate button and has
    at most 120,013 code units; the route did not read the file as text;
    and when the text holds no surrogate (no character outside the Basic
    Multilingual Plane) it makes a request that the plan route accepts.
    The text of a text-like file goes to the PRD field as it is, without
    the route. *)
Theorem upload_gives_valid_request (file : Extract.File) (text : jsstring) :
  handleUploadFile toLowerCase extractRawText getDocument file = PrdSet text ->
  (uploadIsText toLowerCase file = true -> Extract.text file = inr text)
  /\ (uploadIsText toLowerCase file = false ->
      canGenerate text = true
      /\ (N.of_nat (length text) <= 120013)%N
      /\ (truthy (Extract.name file) = true ->
          Extract.ReadText
          ∉ snd (Extract.POST toLowerCase extractRawText getDocument (inr (Some file))))
      /\ (Forall (fun c => isSurrogate c = false) text ->
          forall productName targetUser platform constraints releaseDate,
            PlanRequest.prd
              <$> PlanRequestSchema
                    (Some (generateBody text productName targetUser platform
                             constraints releaseDate))
            = Some text)).
Proof.
  unfold handleUploadFile. intros H. split; intros Hkind; rewrite Hkind in H.
  - by destruct (Extract.text file) as [|t]; [|injection H as ->].
  - destruct (fst _) as [t|status message] eqn:Hresp; [|done].
    destruct (length (trim t) <? 20)%nat eqn:Hshort; [done|].
    injection H as ->. apply Nat.ltb_ge in Hshort.
    split; [by apply Nat.leb_le|]. split; [by eapply extract_Text_length|]. split.
    + intros Hname. pose proof (uploadIsText_isText file Hname) as Hsame.
      rewrite Hkind in Hsame. clear Hresp.
      unfold Extract.POST, Extract.handle, Extract.extractPdfText. rewrite Hsame.
      destruct (_ <? Extract.size file); [by apply not_elem_of_nil|].
      assert (forall ops, Forall (fun op => op <> Extract.ReadText) ops ->
                          Extract.ReadText ∉ ops) as Hnot.
      { intros ops Hall Hin. rewrite Forall_forall in Hall. by apply (Hall _ Hin). }
      assert (forall pages, Forall (fun op => op <> Extract.ReadText)
                              (map Extract.PdfPage pages)) as Hpages.
      { intros pages. apply Forall_forall. intros op Hin.
        by apply list_elem_of_In, in_map_iff in Hin as (i & <- & _). }
      destruct (Extract.arrayBuffer file) as [|buf];
        [apply Hnot; by repeat constructor|].
      case_bool_decide.
      { destruct (extractRawText buf); apply Hnot; by repeat constructor. }
      case_bool_decide; [|apply Hnot; by repeat constructor].
      destruct (getDocument buf) as [|doc]; [apply Hnot; by repeat constructor|].
      destruct (Extract.readPages _ _ _ _) as [[|out] fetched]; cbn [snd];
        apply Hnot, Forall_app; (split; [by repeat constructor|apply Hpages]).
    + intros Hbmp productName targetUser platform constraints releaseDate.
      pose proof (trim_length text).
      rewrite generateBody_parses; [done|].
      rewrite (codePoints_length text Hbmp). lia.
Qed.

End UploadedText.

Lemma upload_gives_valid_request_witness :
  canGenerate (lit "Build a sign-up flow for the tutor app.") = true
  /\ (N.of_nat (length (lit "Build a sign-up flow for the tutor app.")) <= 120013)%N
  /\ PlanRequest.prd
       <$> PlanRequestSchema
             (Some (generateBody (lit "Build a sign-up flow for the tutor app.")
                      [] [] web [] []))
     = Some (lit "Build a sign-up flow for the tutor app.").
Proof.
  destruct (upload_gives_valid_request asciiLower wordText noPdf wordFile
              (lit "Build a sign-up flow for the tutor app.")) as [_ H];
    [by vm_compute|].
  destruct H as (Hgate & Hlen & _ & Hvalid); [by vm_compute|].
  split; [done|]. split; [done|]. apply Hvalid. by repeat constructor.
Defined.

(** ** The confidence badge *)

Lemma atLeast_integer (bound : Z) (score : Q) (n : Z) :
  (score == inject_Z n)%Q -> atLeast bound score = (bound <=? n)%Z.
Proof.
  intros Hs. unfold atLeast.
  destruct (Qle_bool (inject_Z bound) score) eqn:E; symmetry.
  - apply Qle_bool_iff in E. rewrite Hs, <- Zle_Qle in E. by apply Z.leb_le.
  - apply Z.leb_gt. apply Z.nle_gt. intros Hle.
    assert (Qle_bool (inject_Z bound) score = true) as Habs; [|congruence].
    apply Qle_bool_iff. by rewrite Hs, <- Zle_Qle.
Qed.

(** X21.  The label, the colour and the range of the confidence badge go
    together: two scores have the same label exactly when they have the
    same range, and then they have the same colour; and the range shown for
    an integer score between 0 and 100 contains that score. *)
Theorem confidence_badge_consistent (score other : Q) :
  (confidenceLabel score = confidenceLabel other
   <-> confidenceRange score = confidenceRange other)
  /\ (confidenceLabel score = confidenceLabel other ->
      confidenceColor score = confidenceColor other)
  /\ exists lo hi : nat,
       confidenceRange score = showNat lo ++ [0x2013] ++ showNat hi
       /\ forall n : nat,
            (score == inject_Z (Z.of_nat n))%Q -> (n <= 100)%nat -> (lo <= n <= hi)%nat.
Proof.
  split; [|split].
  - unfold confidenceLabel, confidenceRange.
    destruct (atLeast 85 score), (atLeast 70 score), (atLeast 50 score),
      (atLeast 85 other), (atLeast 70 other), (atLeast 50 other);
      split; intros H; try reflexivity; by vm_compute in H.
  - unfold confidenceLabel, confidenceColor.
    assert (forall s, atLeast 85 s = true -> atLeast 70 s = true) as Hmono.
    { intros s H. unfold atLeast in *. apply Qle_bool_iff in H. apply Qle_bool_iff.
      by apply (Qle_trans _ (inject_Z 85)). }
    pose proof (Hmono score) as Hscore. pose proof (Hmono other) as Hother.
    destruct (atLeast 85 score); [rewrite Hscore by done|];
      (destruct (atLeast 85 other); [rewrite Hother by done|]);
      destruct (atLeast 70 score), (atLeast 50 score),
        (atLeast 70 other), (atLeast 50 other);
      intros H; try reflexivity; by vm_compute in H.
  - unfold confidenceRange.
    destruct (atLeast 85 score) eqn:E85; [|destruct (atLeast 70 score) eqn:E70;
      [|destruct (atLeast 50 score) eqn:E50]].
    + exists 85%nat, 100%nat. split; [reflexivity|]. intros n Hn Hmax.
      rewrite (atLeast_integer _ _ _ Hn) in E85. apply Z.leb_le in E85. lia.
    + exists 70%nat, 84%nat. split; [reflexivity|]. intros n Hn Hmax.
      rewrite (atLeast_integer 85 _ _ Hn) in E85.
      rewrite (atLeast_integer 70 _ _ Hn) in E70.
      apply Z.leb_gt in E85. apply Z.leb_le in E70. lia.
    + exists 50%nat, 69%nat. split; [reflexivity|]. intros n Hn Hmax.
      rewrite (atLeast_integer 70 _ _ Hn) in E70.
      rewrite (atLeast_integer 50 _ _ Hn) in E50.
      apply Z.leb_gt in E70. apply Z.leb_le in E50. lia.
    + exists 0%nat, 49%nat. split; [reflexivity|]. intros n Hn Hmax.
      rewrite (atLeast_integer _ _ _ Hn) in E50. apply Z.leb_gt in E50. lia.
Qed.

Lemma confidence_badge_consistent_witness :
  confidenceColor 84 = confidenceColor 72.
Proof.
  destruct (confidence_badge_consistent 84 72) as (_ & Hcolour & _).
  apply Hcolour. reflexivity.
Defined.

(** ** The prompt of a request made by the page *)

Lemma trimsExactly_app (pre suffix s : jsstring) :
  trimsExactly suffix s -> trimsExactly (pre ++ suffix) (pre ++ s).
Proof.
  intros [Hne <-]. unfold trimsExactly. rewrite trimEnd_app by done.
  split; [|done]. intros H. by apply app_eq_nil in H as [_ H].
Qed.

Lemma trimsExactly_trimsTo (suffix s : jsstring) : trimsExactly suffix s -> trimsTo suffix s.
Proof. intros [Hne <-]. split; [done|]. by exists []. Qed.

Lemma default_nonEmpty (fallback value : jsstring) :
  default fallback (nonEmpty value) = shown value fallback.
Proof. unfold nonEmpty, shown. by destruct (truthy value). Qed.

Ltac peel_to_context :=
  lazymatch goal with
  | |- trimsTo _ (lit "Context fields:" ++ _) => idtac
  | |- trimsTo _ (_ ++ _) => apply trimsTo_app; peel_to_context
  end.

Ltac keep_to_prd :=
  lazymatch goal with
  | |- trimsExactly _ (lit "PRD:" ++ _) => idtac
  | |- trimsExactly _ (?a ++ _) => apply (trimsExactly_app a); keep_to_prd
  end.

(** X22.  In the prompt of a request made by the page, the context block
    shows for each field the text of the form field or, when the field is
    empty, the default of the route (never an empty value), then the chosen
    platform; the block is followed by the cleaned PRD, which ends the
    prompt. *)
Theorem page_prompt_context (prd productName targetUser : jsstring)
    (platform : Platform) (constraints releaseDate : jsstring) (input : PlanRequest.t) :
  PlanRequestSchema
    (Some (generateBody prd productName targetUser platform constraints releaseDate))
  = Some input ->
  let cleaned := cleanPrdText (PlanRequest.prd input) in
  cleaned = cleanPrdText prd
  /\ endsWith (contextBlock productName targetUser platform constraints releaseDate
               ++ (if truthy cleaned then [10] ++ cleaned else []))
       (buildPrompt input cleaned).
Proof.
  intros Hinput cleaned.
  assert (20 <= codePoints prd)%nat as Hlen.
  { unfold PlanRequestSchema, generateBody, Zod.object in Hinput. cbn [app] in Hinput.
    rewrite get_here in Hinput. unfold Zod.string_min in Hinput.
    destruct (20 <=? codePoints prd)%nat eqn:E; [by apply Nat.leb_le|done]. }
  rewrite (generateBody_parses _ _ _ _ _ _ Hlen) in Hinput. injection Hinput as <-.
  split; [done|]. subst cleaned. cbn [PlanRequest.prd].
  pose proof (cleanPrdText_trimmed prd) as Htrim.
  set (cleaned := cleanPrdText prd) in *.
  unfold buildPrompt, trim, contextBlock.
  cbn [PlanRequest.productName PlanRequest.targetUser PlanRequest.platform
       PlanRequest.constraints PlanRequest.releaseDate default].
  rewrite !default_nonEmpty. cbn [join].
  change (trimStart ([] ++ [10] ++ lit "You are a PRD-to-Ticket agent." ++ ?x))
    with ([89] ++ lit "ou are a PRD-to-Ticket agent." ++ x).
  rewrite <- !app_assoc.
  match goal with |- endsWith ?suffix (trimEnd ?s) =>
    cut (trimsTo suffix s); [by intros [_ ?]|]
  end.
  peel_to_context. apply trimsExactly_trimsTo. keep_to_prd.
  unfold trimsExactly. rewrite (trimEnd_prd_lines cleaned Htrim). by split.
Qed.

Lemma page_prompt_context_witness :
  endsWith (contextBlock (lit "Tutor") [] mobile [] (lit "Q3")
            ++ [10] ++ lit "Build a sign-up flow for the tutor app.")
    (buildPrompt
       (PlanRequest.mk (lit "Build a sign-up flow for the tutor app.")
          (Some (lit "Tutor")) None (Some mobile) None (Some (lit "Q3")))
       (lit "Build a sign-up flow for the tutor app.")).
Proof.
  apply (page_prompt_context (lit "Build a sign-up flow for the tutor app.")
           (lit "Tutor") [] mobile [] (lit "Q3")).
  by vm_compute.
Defined.

(** ** Extracted text in the cleanup *)

Lemma guarded_cons c r :
  guarded (c :: r)
  = (negb (c =? 10)
     || match r with
        | d :: _ => negb (isLetter d) && negb (isZeroWidth d)
        | [] => true
        end)
    && guarded r.
Proof. done. Qed.

Lemma guarded_no_newline s : 10 ∉ s -> guarded s = true.
Proof.
  induction s as [|c r IH]; [done|]. intros Hnot. rewrite guarded_cons.
  rewrite IH by (intros H; apply Hnot; by right).
  assert ((c =? 10) = false) as ->; [|done].
  apply N.eqb_neq. intros ->. apply Hnot. by left.
Qed.

Lemma guarded_app a b : 10 ∉ a -> guarded b = true -> guarded (a ++ b) = true.
Proof.
  intros Hnot Hb. induction a as [|c a IH]; [done|].
  change ((c :: a) ++ b) with (c :: (a ++ b)). rewrite guarded_cons.
  rewrite IH by (intros H; apply Hnot; by right).
  assert ((c =? 10) = false) as ->; [|done].
  apply N.eqb_neq. intros ->. apply Hnot. by left.
Qed.

Lemma guarded_filter s :
  guarded s = true -> guarded (filter (fun c => isZeroWidth c = false) s) = true.
Proof.
  induction s as [|c r IH]; [done|]. rewrite guarded_cons.
  intros [Hc Hr]%andb_true_iff. specialize (IH Hr).
  destruct (decide (isZeroWidth c = false)) as [Hzw | Hzw];
    [rewrite filter_cons_True by done|by rewrite filter_cons_False by done].
  rewrite guarded_cons, IH, andb_true_r.
  destruct (c =? 10); [|done]. cbn [negb orb] in *.
  destruct r as [|d r]; [done|].
  apply andb_true_iff in Hc as [Hletter Hwidth].
  rewrite filter_cons_True by by destruct (isZeroWidth d).
  by rewrite Hletter, Hwidth.
Qed.

(** No word is hyphenated across a guarded line break. *)
Lemma dehyphenate_guarded s : guarded s = true -> dehyphenate s = s.
Proof.
  induction s as [|a r IH]; [done|]. rewrite guarded_cons, dehyphenate_cons.
  intros [_ Hr]%andb_true_iff. rewrite (IH Hr).
  destruct r as [|h [|n [|b r']]]; try done.
  assert (((n =? 10) && isLetter b) = false) as Hnb.
  { rewrite !guarded_cons in Hr.
    apply andb_true_iff in Hr as [_ Hr]. apply andb_true_iff in Hr as [Hn _].
    destruct (n =? 10); [|done]. cbn [negb orb] in Hn.
    apply andb_true_iff in Hn as [Hn _]. by destruct (isLetter b). }
  by rewrite <- !andb_assoc, Hnb, !andb_false_r.
Qed.

Lemma extracted_parts raw :
  exists body tail,
    extracted raw = body ++ tail
    /\ (forall c, c ∈ body -> c ∈ Extract.normalizeText raw)
    /\ (tail = [] \/ tail = Extract.truncationMarker)
    /\ (N.of_nat (length (Extract.normalizeText raw)) <= Extract.MAX_EXTRACTED_CHARS ->
        tail = []).
Proof.
  unfold extracted, Extract.truncate.
  destruct (_ <=? _) eqn:E.
  - exists (Extract.normalizeText raw), []. rewrite app_nil_r.
    split; [done|]. split; [done|]. split; [by left|done].
  - apply N.leb_gt in E. eexists _, _. split; [done|]. split; [|split; [by right|lia]].
    intros c Hc. apply elem_of_take in Hc as (i & Hc & _).
    by apply list_elem_of_lookup_2 in Hc.
Qed.

Lemma normalizeText_spaces raw c :
  c ∈ Extract.normalizeText raw -> isSpace c = true -> c = 32.
Proof.
  destruct (normalizeText_shape raw) as (Hshape & _ & _).
  intros Hc Hsp. by apply (singleSpaced_space _ c Hshape).
Qed.

(** An extracted text has no carriage return and no non-breaking space, and
    its line breaks, those of the truncation marker, are guarded. *)
Lemma extracted_shape raw :
  (13 ∉ extracted raw) /\ (0xA0 ∉ extracted raw) /\ guarded (extracted raw) = true
  /\ (N.of_nat (length (Extract.normalizeText raw)) <= Extract.MAX_EXTRACTED_CHARS ->
      10 ∉ extracted raw).
Proof.
  destruct (extracted_parts raw) as (body & tail & -> & Hbody & Htail & Hshort).
  assert (forall c, isSpace c = true -> c <> 32 -> c ∉ body) as Hnot.
  { intros c Hsp Hne Hc. apply Hne, (normalizeText_spaces raw c); [|done].
    by apply Hbody. }
  assert (forall c, c ∉ body -> c ∉ Extract.truncationMarker -> c ∉ body ++ tail) as Happ.
  { intros c H1 H2 [H | H]%elem_of_app; [done|].
    destruct Htail as [-> | ->]; [by apply elem_of_nil in H|done]. }
  split; [|split; [|split]].
  - apply Happ; [by apply Hnot|]. apply (bool_decide_eq_false_1 _). by vm_compute.
  - apply Happ; [by apply Hnot|]. apply (bool_decide_eq_false_1 _). by vm_compute.
  - apply guarded_app; [by apply Hnot|]. by destruct Htail as [-> | ->].
  - intros Hle. rewrite (Hshort Hle), app_nil_r. by apply Hnot.
Qed.

Lemma map_fixed (f : N -> N) (s : jsstring) :
  (forall c, c ∈ s -> f c = c) -> map f s = s.
Proof.
  induction s as [|c r IH]; [done|]. intros Hf. cbn [map].
  rewrite (Hf c) by by left. rewrite IH; [done|]. intros d Hd. apply Hf. by right.
Qed.

(** X23.  On a text that the extract route returned, the cleanup of the
    plan route never joins a hyphenated word: the text holds no line break
    but those of the truncation marker, so the step is the identity.  A
    text that was not truncated stays a single line. *)
Theorem cleanPrdText_on_extracted (raw : jsstring) :
  cleanPrdText (extracted raw) = cleanWithoutJoin (extracted raw)
  /\ (N.of_nat (length (Extract.normalizeText raw)) <= Extract.MAX_EXTRACTED_CHARS ->
      10 ∉ cleanPrdText (extracted raw)).
Proof.
  destruct (extracted_shape raw) as (Hcr & Hnb & Hguard & Hline).
  set (t := extracted raw) in *.
  assert (map (fun c => if c =? 13 then 10 else c) (replaceCRLF t) = t) as Hfirst.
  { rewrite (replaceCRLF_no_cr t Hcr). apply map_fixed. intros c Hc.
    destruct (c =? 13) eqn:E; [|done]. by apply N.eqb_eq in E as ->. }
  assert (map (fun c => if c =? 160 then 32 else c)
              (filter (fun c => isZeroWidth c = false) t)
          = filter (fun c => isZeroWidth c = false) t) as Hsecond.
  { apply map_fixed. intros c [_ Hc]%list_elem_of_filter.
    destruct (c =? 160) eqn:E; [|done]. by apply N.eqb_eq in E as ->. }
  split.
  - unfold cleanPrdText, cleanWithoutJoin. rewrite Hfirst, Hsecond.
    by rewrite (dehyphenate_guarded _ (guarded_filter t Hguard)).
  - intros Hle. specialize (Hline Hle). unfold cleanPrdText.
    rewrite Hfirst, Hsecond.
    rewrite (dehyphenate_guarded _ (guarded_filter t Hguard)).
    intros Hin. apply trim_subset, stripLineEnds_subset in Hin.
    rewrite collapseNewlines_no_newline in Hin.
    + apply dropPageMarkers_subset, list_elem_of_In, in_map_iff in Hin
        as (c & Hc & Hin).
      apply list_elem_of_In, list_elem_of_filter in Hin as [_ Hin].
      destruct (isBullet c) eqn:Hb; [done|]. by subst c.
    + intros Hin'.
      apply dropPageMarkers_subset, list_elem_of_In, in_map_iff in Hin'
        as (c & Hc & Hin').
      apply list_elem_of_In, list_elem_of_filter in Hin' as [_ Hin'].
      destruct (isBullet c) eqn:Hb; [done|]. by subst c.
Qed.

Lemma cleanPrdText_on_extracted_witness :
  10 ∉ cleanPrdText (extracted hyphenatedPages).
Proof.
  apply (proj2 (cleanPrdText_on_extracted hyphenatedPages)). by vm_compute.
Defined.
